(** * Chip-identification and report engine (report.c): a shallow embedding

    The engine of the flash benchmark firmware reads RESULTS.CSV and
    datasheet.csv from the SD card and writes report.csv.  This file embeds
    the functions of report.c: single-precision numbers are [spec_float]
    values of the binary32 format, C strings are lists of characters, the
    per-group arrays are functions over [group_t], and files are lists of
    characters consumed by [fatfs_gets]. *)

From Stdlib Require Import String Ascii ZArith List Bool Lia Permutation.
From Stdlib Require Import DecimalString.
From Stdlib Require DecimalPos.
From Stdlib Require Import Floats.SpecFloat.
Import ListNotations.
Local Open Scope Z_scope.

(** ** Single-precision arithmetic (C [float], IEEE-754 binary32) *)

Module F32.

Definition prec : Z := 24.
Definition emax : Z := 128.

Definition float := spec_float.

Definition NAN : float := S754_nan.
Definition zero : float := S754_zero false.

Definition add : float -> float -> float := SFadd prec emax.
Definition sub : float -> float -> float := SFsub prec emax.
Definition mul : float -> float -> float := SFmul prec emax.
Definition div : float -> float -> float := SFdiv prec emax.
Definition sqrtf : float -> float := SFsqrt prec emax.
Definition fabsf : float -> float := SFabs.
Definition neg : float -> float := SFopp.

(** [a < b], [a > b], [a <= b], [a >= b], [a == b]: all false on NaN *)
Definition lt (a b : float) : bool := SFltb a b.
Definition gt (a b : float) : bool := SFltb b a.
Definition le (a b : float) : bool := SFleb a b.
Definition ge (a b : float) : bool := SFleb b a.
Definition eq (a b : float) : bool := SFeqb a b.
(** [a != b]: true on NaN *)
Definition ne (a b : float) : bool := negb (SFeqb a b).

Definition is_nan (a : float) : bool :=
  match a with S754_nan => true | _ => false end.

Definition is_finite (a : float) : bool :=
  match a with S754_zero _ | S754_finite _ _ _ => true | _ => false end.

(** conversion of an integer to [float] (round to nearest, ties to even) *)
Definition of_Z (z : Z) : float := binary_normalize prec emax z 0 false.

(** the [float] nearest to [n / d], for [0 < n] *)
Definition of_pos_ratio (sign : bool) (n d : positive) : float :=
  let '(q, e, l) := SFdiv_core_binary prec emax (Zpos n) 0 (Zpos d) 0 in
  binary_round_aux prec emax sign q e l.

Definition of_ratio (sign : bool) (n : Z) (d : positive) : float :=
  match n with
  | Z0 => S754_zero sign
  | Zpos p => of_pos_ratio sign p d
  | Zneg p => of_pos_ratio (negb sign) p d
  end.

(** [floorf] and [ceilf] followed by the conversion to [int], for the
    finite values; the argument of report.c is [q * (n - 1)], between 0
    and [n - 1]. *)
Definition floor_int (a : float) : Z :=
  match a with
  | S754_finite s m e =>
      let v := if s then Zneg m else Zpos m in
      if 0 <=? e then v * 2 ^ e else v / 2 ^ (- e)
  | _ => 0
  end.

Definition ceil_int (a : float) : Z :=
  match a with
  | S754_finite s m e =>
      let v := if s then Zneg m else Zpos m in
      if 0 <=? e then v * 2 ^ e else - ((- v) / 2 ^ (- e))
  | _ => 0
  end.

(** the literals of report.c *)
Definition f_1e9 : float := of_Z 1000000000.
Definition f_1e6 : float := of_Z 1000000.
Definition f_1000 : float := of_Z 1000.
Definition f_1024 : float := of_Z 1024.
Definition f_50 : float := of_Z 50.
Definition f_8 : float := of_Z 8.
Definition f_3 : float := of_Z 3.
Definition f_1 : float := of_Z 1.
Definition f_m1 : float := of_Z (-1).
Definition f_0_25 : float := of_ratio false 25 100.
Definition f_0_50 : float := of_ratio false 50 100.
Definition f_0_75 : float := of_ratio false 75 100.
Definition f_1em3 : float := of_ratio false 1 1000.
Definition f_1em4 : float := of_ratio false 1 10000.
Definition f_1em6 : float := of_ratio false 1 1000000.

End F32.

Abbreviation float := F32.float.

(** ** Groups and sizes *)

Inductive group_t : Type := G_1B | G_256B | G_4K | G_32K | G_64K | G_WHOLE.

Definition G_COUNT : Z := 6.

Definition all_groups : list group_t :=
  [G_1B; G_256B; G_4K; G_32K; G_64K; G_WHOLE].

Definition group_index (g : group_t) : Z :=
  match g with
  | G_1B => 0 | G_256B => 1 | G_4K => 2 | G_32K => 3 | G_64K => 4 | G_WHOLE => 5
  end.

Definition group_eqb (a b : group_t) : bool := group_index a =? group_index b.

Definition GROUP_BYTES (g : group_t) : Z :=
  match g with
  | G_1B => 1 | G_256B => 256 | G_4K => 4096 | G_32K => 32768 | G_64K => 65536
  | G_WHOLE => 0
  end.

Definition PAGE_SIZE_BYTES : Z := 256.
Definition MAX_DB_ROWS : Z := 512.
Definition MAX_LINE : Z := 512.

(** [classify_group]: [None] is the C result [(group_t)(-1)] *)
Definition classify_group (bytes whole_bytes : Z) : option group_t :=
  if bytes =? 1 then Some G_1B
  else if bytes =? 256 then Some G_256B
  else if bytes =? 4096 then Some G_4K
  else if bytes =? 32768 then Some G_32K
  else if bytes =? 65536 then Some G_64K
  else if negb (whole_bytes =? 0) && (bytes =? whole_bytes) then Some G_WHOLE
  else None.

(** ** C strings and the small utilities *)

Definition cstr : Type := list ascii.

Definition lit (s : string) : cstr := list_ascii_of_string s.

Definition NUL : ascii := Ascii.zero.
Definition LF : ascii := ascii_of_nat 10.
Definition CR : ascii := ascii_of_nat 13.
Definition TAB : ascii := ascii_of_nat 9.
Definition VT : ascii := ascii_of_nat 11.
Definition FF : ascii := ascii_of_nat 12.
Definition SP : ascii := " "%char.

Definition NA_STR : cstr := lit "NA".

Definition code (c : ascii) : Z := Z.of_nat (nat_of_ascii c).

Definition in_range (lo hi c : ascii) : bool :=
  (code lo <=? code c) && (code c <=? code hi).

Definition isdigit (c : ascii) : bool := in_range "0" "9" c.

Definition isxdigit (c : ascii) : bool :=
  isdigit c || in_range "a" "f" c || in_range "A" "F" c.

Definition isspace (c : ascii) : bool :=
  Ascii.eqb c SP || Ascii.eqb c TAB || Ascii.eqb c LF
  || Ascii.eqb c VT || Ascii.eqb c FF || Ascii.eqb c CR.

Definition toupper (c : ascii) : ascii :=
  if in_range "a" "z" c then ascii_of_nat (nat_of_ascii c - 32) else c.

Definition tolower (c : ascii) : ascii :=
  if in_range "A" "Z" c then ascii_of_nat (nat_of_ascii c + 32) else c.

Fixpoint cstr_eqb (a b : cstr) : bool :=
  match a, b with
  | [], [] => true
  | x :: a', y :: b' => Ascii.eqb x y && cstr_eqb a' b'
  | _, _ => false
  end.

(** the C string held by a buffer: its bytes before the first NUL *)
Fixpoint c_str (buf : list ascii) : cstr :=
  match buf with
  | [] => []
  | c :: r => if Ascii.eqb c NUL then [] else c :: c_str r
  end.

Fixpoint drop_while (p : ascii -> bool) (s : cstr) : cstr :=
  match s with
  | [] => []
  | c :: r => if p c then drop_while p r else s
  end.

Fixpoint take_while (p : ascii -> bool) (s : cstr) : cstr :=
  match s with
  | [] => []
  | c :: r => if p c then c :: take_while p r else []
  end.

Definition trim_tail_char (c : ascii) : bool :=
  Ascii.eqb c CR || Ascii.eqb c LF || Ascii.eqb c SP || Ascii.eqb c TAB.

Definition trim_head_char (c : ascii) : bool :=
  Ascii.eqb c SP || Ascii.eqb c TAB.

Definition trim (s : cstr) : cstr :=
  drop_while trim_head_char (rev (drop_while trim_tail_char (rev s))).

Definition upper_str (s : cstr) : cstr := map toupper s.

(** [strncpy(dst, src, n); dst[n - 1] = 0]: the first [n - 1] characters *)
Definition strncpy_z (n : nat) (src : cstr) : cstr := firstn (n - 1) src.

Fixpoint is_prefix (p s : cstr) : bool :=
  match p, s with
  | [], _ => true
  | x :: p', y :: s' => Ascii.eqb x y && is_prefix p' s'
  | _ :: _, [] => false
  end.

(** [strstr(hay, needle) != NULL] *)
Fixpoint strstr (hay needle : cstr) : bool :=
  is_prefix needle hay ||
  match hay with
  | [] => false
  | _ :: r => strstr r needle
  end.

(** [strchr(s, c) != NULL] *)
Definition strchr (s : cstr) (c : ascii) : bool := existsb (Ascii.eqb c) s.

(** The pieces of [s] between occurrences of [sep], the empty ones kept. *)
Fixpoint fields (sep : ascii) (s : cstr) : list cstr :=
  match s with
  | [] => [[]]
  | c :: r =>
      if Ascii.eqb c sep then [] :: fields sep r
      else match fields sep r with
           | h :: t => (c :: h) :: t
           | [] => [[c]]
           end
  end.

Definition nonempty (s : cstr) : bool :=
  match s with [] => false | _ => true end.

(** The successive results of [strtok(s, sep)], [strtok(NULL, sep)], ...
    for a one-character separator: the maximal runs of other characters,
    so the empty pieces are never returned. *)
Definition strtok_all (sep : ascii) (s : cstr) : list cstr :=
  filter nonempty (fields sep s).

Definition split_fields (line : cstr) (max_fields : nat) : list cstr :=
  let sep := if strchr line ","%char then ","%char else TAB in
  firstn max_fields (strtok_all sep line).

(** [append_token(dst, n, tok)] on a buffer of [n] bytes: [strncat] copies
    at most the given number of characters. *)
Definition strncat (dst src : cstr) (n : nat) : cstr := dst ++ firstn n src.

Definition append_token (dst : cstr) (n : nat) (tok : cstr) : cstr :=
  if negb (nonempty tok) || (n =? 0)%nat then dst
  else
    let cur_len := length dst in
    if (cur_len =? 0)%nat then strncat dst tok (n - 1)
    else
      let dst1 := if (cur_len + 1 <? n - 1)%nat
                  then strncat dst (lit "/") (n - 1 - cur_len) else dst in
      strncat dst1 tok (n - 1 - length dst1).

(** [normalize_jedec]: keep the first six hexadecimal digits, upper-cased,
    skipping every [x] and [X]; fewer than six digits give the empty string. *)
Fixpoint normalize_jedec_loop (inp tmp : cstr) : cstr :=
  match inp with
  | [] => tmp
  | c :: r =>
      if (6 <=? length tmp)%nat then tmp
      else if Ascii.eqb c "x" || Ascii.eqb c "X" then normalize_jedec_loop r tmp
      else if isxdigit c then normalize_jedec_loop r (tmp ++ [toupper c])
      else normalize_jedec_loop r tmp
  end.

Definition normalize_jedec (inp : cstr) : cstr :=
  let tmp := normalize_jedec_loop inp [] in
  if (length tmp =? 6)%nat then tmp else [].

(** ** Number parsing

    [strtol] and [strtof] are the C library's.  [strtol10] is [strtol] in
    base 10 with a 32-bit [long]: white space, an optional sign, decimal
    digits, the value clamped to the range of [long]; [None] when no digit
    was read ([end == s]).  [strtof] reads white space, an optional sign
    and then [inf], [nan], a hexadecimal or a decimal floating constant; its
    result is the nearest [float] (an overflow gives infinity). *)

Definition digit_val (c : ascii) : Z :=
  if isdigit c then code c - 48
  else if in_range "a" "f" c then code c - 87
  else code c - 55.

Definition digits_val (base : Z) (ds : cstr) : Z :=
  fold_left (fun acc c => base * acc + digit_val c) ds 0.

Definition LONG_MAX : Z := 2147483647.
Definition LONG_MIN : Z := -2147483648.

Definition clamp_long (v : Z) : Z :=
  if v <? LONG_MIN then LONG_MIN else if LONG_MAX <? v then LONG_MAX else v.

Definition read_sign (s : cstr) : bool * cstr :=
  match s with
  | c :: r =>
      if Ascii.eqb c "-" then (true, r)
      else if Ascii.eqb c "+" then (false, r)
      else (false, s)
  | [] => (false, [])
  end.

Definition strtol10 (s : cstr) : option Z :=
  let '(sgn, s2) := read_sign (drop_while isspace s) in
  let ds := take_while isdigit s2 in
  if nonempty ds
  then Some (clamp_long (if sgn then - digits_val 10 ds else digits_val 10 ds))
  else None.

Definition parse_int_or (s : cstr) (fallback : Z) : Z :=
  if negb (nonempty s) then fallback
  else match strtol10 s with
       | Some v => v
       | None => fallback
       end.

(** [(uint32_t)v] *)
Definition to_uint32 (v : Z) : Z := v mod 4294967296.

Definition is_prefix_ci (p s : cstr) : bool :=
  is_prefix p (map tolower (firstn (length p) s)).

(** the optional exponent part: a letter of [marks], an optional sign and at
    least one digit; otherwise the exponent is 0 *)
Definition read_exponent (marks : ascii * ascii) (s : cstr) : Z :=
  match s with
  | c :: r =>
      if Ascii.eqb c (fst marks) || Ascii.eqb c (snd marks) then
        let '(sgn, r2) := read_sign r in
        let ds := take_while isdigit r2 in
        if nonempty ds
        then (if sgn then - digits_val 10 ds else digits_val 10 ds)
        else 0
      else 0
  | [] => 0
  end.

(** integer and fraction digits around an optional point *)
Definition read_mantissa (isd : ascii -> bool) (s : cstr) : cstr * cstr * cstr :=
  let ip := take_while isd s in
  let s3 := drop_while isd s in
  match s3 with
  | c :: r =>
      if Ascii.eqb c "." then (ip, take_while isd r, drop_while isd r)
      else (ip, [], s3)
  | [] => (ip, [], [])
  end.

Definition strtof_dec (sgn : bool) (s : cstr) : option float :=
  let '(ip, fp, rest) := read_mantissa isdigit s in
  if negb (nonempty ip) && negb (nonempty fp) then None
  else
    let D := digits_val 10 (ip ++ fp) in
    let k := read_exponent ("e"%char, "E"%char) rest - Z.of_nat (length fp) in
    Some (if D =? 0 then S754_zero sgn
          else if 0 <=? k then F32.of_ratio sgn (D * 10 ^ k) 1
          else F32.of_ratio sgn D (Z.to_pos (10 ^ (- k)))).

Definition strtof_hex (sgn : bool) (s : cstr) : option float :=
  let '(ip, fp, rest) := read_mantissa isxdigit s in
  if negb (nonempty ip) && negb (nonempty fp) then None
  else
    let H := digits_val 16 (ip ++ fp) in
    let e := read_exponent ("p"%char, "P"%char) rest - 4 * Z.of_nat (length fp) in
    Some (if H =? 0 then S754_zero sgn
          else binary_normalize F32.prec F32.emax (if sgn then - H else H) e false).

Definition strtof (s : cstr) : option float :=
  let '(sgn, s2) := read_sign (drop_while isspace s) in
  if is_prefix_ci (lit "inf") s2 then Some (S754_infinity sgn)
  else if is_prefix_ci (lit "nan") s2 then Some F32.NAN
  else if is_prefix_ci (lit "0x") s2 then
    match strtof_hex sgn (skipn 2 s2) with
    | Some v => Some v
    | None => Some (S754_zero sgn)
    end
  else strtof_dec sgn s2.

Definition parse_float_or (s : cstr) (fallback : float) : float :=
  if negb (nonempty s) then fallback
  else match strtof s with
       | Some v => v
       | None => fallback
       end.

(** ** Reading a file line by line

    A file is the list of its bytes; a read error ends the file. *)

Fixpoint fatfs_gets_loop (len : nat) (fp buf : list ascii)
  : list ascii * list ascii :=
  match fp with
  | [] => (buf, [])
  | ch :: fp' =>
      let buf' := if (length buf <? len - 1)%nat then buf ++ [ch] else buf in
      if Ascii.eqb ch LF then (buf', fp') else fatfs_gets_loop len fp' buf'
  end.

(** [fatfs_gets(buf, len, fp)]: the return value, the buffer and the rest
    of the file *)
Definition fatfs_gets (len : nat) (fp : list ascii)
  : bool * list ascii * list ascii :=
  if (len <=? 1)%nat then (false, [], fp)
  else let '(buf, rest) := fatfs_gets_loop len fp [] in
       (nonempty buf, buf, rest).

(** the buffers of [while (fatfs_gets(buf, sizeof buf, fp))] *)
Fixpoint read_lines_fuel (fuel : nat) (fp : list ascii) : list (list ascii) :=
  match fuel with
  | O => []
  | S f =>
      match fatfs_gets (Z.to_nat MAX_LINE) fp with
      | (true, buf, rest) => buf :: read_lines_fuel f rest
      | (false, _, _) => []
      end
  end.

Definition read_lines (fp : list ascii) : list (list ascii) :=
  read_lines_fuel (length fp) fp.

(** ** Statistics *)

Record stats_t : Type := mk_stats {
  n : Z;
  mean : float; p25 : float; p50 : float; p75 : float;
  minv : float; maxv : float; stddev : float
}.

Definition cmp_float_asc (x y : float) : Z :=
  if F32.lt x y then -1 else if F32.gt x y then 1 else 0.

(** [qsort(v, n, sizeof(float), cmp_float_asc)].  The C library leaves the
    algorithm open; every sort gives the same array when the comparison is
    a total order on the values, and an insertion sort stands for it. *)
Fixpoint sort_insert (x : float) (l : list float) : list float :=
  match l with
  | [] => [x]
  | y :: r => if 0 <? cmp_float_asc x y then y :: sort_insert x r else x :: l
  end.

Definition qsort_float (l : list float) : list float :=
  fold_right sort_insert [] l.

(** [safe_copy_sort]; the allocation is taken to succeed *)
Definition safe_copy_sort (src : list float) : list float := qsort_float src.

Definition at_index (v : list float) (i : Z) : float :=
  if i <? 0 then F32.NAN else nth (Z.to_nat i) v F32.NAN.

Definition percentile_sorted (v : list float) (q : float) : float :=
  let n := Z.of_nat (length v) in
  if n <=? 0 then F32.NAN
  else if F32.le q F32.zero then at_index v 0
  else if F32.ge q F32.f_1 then at_index v (n - 1)
  else
    let pos := F32.mul q (F32.of_Z (n - 1)) in
    let i := F32.floor_int pos in
    let j := F32.ceil_int pos in
    let t := F32.sub pos (F32.of_Z i) in
    F32.add (F32.mul (F32.sub F32.f_1 t) (at_index v i))
            (F32.mul t (at_index v j)).

Definition stats_empty : stats_t :=
  mk_stats 0 F32.NAN F32.NAN F32.NAN F32.NAN F32.NAN F32.NAN F32.NAN.

(** the first loop of [calc_stats_from_vec]: sum, minimum and maximum *)
Definition sum_min_max (src : list float) (first : float)
  : float * float * float :=
  fold_left
    (fun '(sum, mn, mx) v =>
       (F32.add sum v,
        (if F32.lt v mn then v else mn),
        (if F32.gt v mx then v else mx)))
    src (F32.zero, first, first).

Definition variance_sum (src : list float) (mean : float) : float :=
  fold_left
    (fun var v => let d := F32.sub v mean in F32.add var (F32.mul d d))
    src F32.zero.

Definition calc_stats_from_vec (src : list float) : stats_t :=
  match src with
  | [] => stats_empty
  | first :: _ =>
      let n := Z.of_nat (length src) in
      let '(sum, mn, mx) := sum_min_max src first in
      let mean := F32.div sum (F32.of_Z n) in
      let sorted := safe_copy_sort src in
      let var := F32.div (variance_sum src mean) (F32.of_Z n) in
      mk_stats n mean
        (percentile_sorted sorted F32.f_0_25)
        (percentile_sorted sorted F32.f_0_50)
        (percentile_sorted sorted F32.f_0_75)
        mn mx (F32.sqrtf var)
  end.

(** ** Aggregation of RESULTS.CSV *)

Definition section_stats_t : Type := group_t -> stats_t.

Record agg_t : Type := mk_agg {
  sck_MHz : float;
  read_s : section_stats_t;
  write_s : section_stats_t;
  erase_s : section_stats_t;
  read_lat_ms : section_stats_t;
  read_mean_us : group_t -> float
}.

(** the five vectors of [collect_aggregates], one array per group each *)
Record vecs_t : Type := mk_vecs {
  v_read : group_t -> list float;
  v_write : group_t -> list float;
  v_erase : group_t -> list float;
  v_read_us : group_t -> list float;
  v_read_lat_ms : group_t -> list float
}.

Definition vecs_init : vecs_t :=
  mk_vecs (fun _ => []) (fun _ => []) (fun _ => []) (fun _ => []) (fun _ => []).

Definition vec_push (V : group_t -> list float) (g : group_t) (x : float)
  : group_t -> list float :=
  fun g' => if group_eqb g' g then V g' ++ [x] else V g'.

(** C [double] arithmetic for the mean of the read latencies *)
Module F64.
Definition prec : Z := 53.
Definition emax : Z := 1024.
Definition add : spec_float -> spec_float -> spec_float := SFadd prec emax.
Definition div : spec_float -> spec_float -> spec_float := SFdiv prec emax.
Definition of_Z (z : Z) : spec_float := binary_normalize prec emax z 0 false.
End F64.

(** conversion between the formats *)
Definition convert_to (prec emax : Z) (x : spec_float) : spec_float :=
  match x with
  | S754_finite s m e =>
      binary_normalize prec emax (if s then Zneg m else Zpos m) e s
  | _ => x
  end.

Definition to_double : float -> spec_float := convert_to F64.prec F64.emax.
Definition to_float : spec_float -> float := convert_to F32.prec F32.emax.

Definition FLDS_MAX : nat := 16.

(** the second half of the body of the reading loop of
    [collect_aggregates]: the three fields that are read, [flds[1]],
    [flds[2]] and [flds[4]], are parsed, classified and pushed *)
Definition collect_sample (capacity_bytes : Z) (V : vecs_t)
    (op f_size f_elapsed : cstr) : vecs_t :=
  let size := to_uint32 (parse_int_or f_size 0) in
  let elapsed_us := parse_float_or f_elapsed F32.f_m1 in
  match classify_group size capacity_bytes with
  | None => V
  | Some g =>
      if cstr_eqb op (lit "read") then
        if F32.gt elapsed_us F32.zero && (0 <? size) then
          let secs := F32.div elapsed_us F32.f_1e6 in
          let mb := F32.div (F32.of_Z size) (F32.mul F32.f_1024 F32.f_1024) in
          let mbps := if F32.gt secs F32.zero then F32.div mb secs
                      else F32.NAN in
          let rv := if F32.eq mbps mbps && F32.gt mbps F32.zero
                    then vec_push (v_read V) g mbps else v_read V in
          mk_vecs rv (v_write V) (v_erase V)
            (vec_push (v_read_us V) g elapsed_us)
            (vec_push (v_read_lat_ms V) g (F32.div elapsed_us F32.f_1000))
        else V
      else if cstr_eqb op (lit "program") || cstr_eqb op (lit "write") then
        if F32.gt elapsed_us F32.zero then
          mk_vecs (v_read V)
            (vec_push (v_write V) g (F32.div elapsed_us F32.f_1000))
            (v_erase V) (v_read_us V) (v_read_lat_ms V)
        else V
      else if cstr_eqb op (lit "erase") then
        if F32.gt elapsed_us F32.zero then
          mk_vecs (v_read V) (v_write V)
            (vec_push (v_erase V) g (F32.div elapsed_us F32.f_1000))
            (v_read_us V) (v_read_lat_ms V)
        else V
      else V
  end.

(** the body of the reading loop of [collect_aggregates], on one buffer:
    the line is trimmed and cut into at most 16 fields by [strtok], and a
    line of fewer than six fields is skipped *)
Definition collect_line (capacity_bytes : Z) (V : vecs_t) (buf : list ascii)
  : vecs_t :=
  let line := trim (c_str buf) in
  if negb (nonempty line) then V
  else
    let work := strncpy_z (Z.to_nat MAX_LINE) line in
    let flds := firstn FLDS_MAX (strtok_all ","%char work) in
    if (length flds <? 6)%nat then V
    else collect_sample capacity_bytes V
           (nth 1 flds []) (nth 2 flds []) (nth 4 flds []).

Definition collect_vecs (capacity_bytes : Z) (f : list ascii) : vecs_t :=
  fold_left (collect_line capacity_bytes) (read_lines f) vecs_init.

Definition mean_us (v : list float) : float :=
  match v with
  | [] => F32.NAN
  | _ =>
      let acc := fold_left (fun acc x => F64.add acc (to_double x)) v
                   (S754_zero false) in
      to_float (F64.div acc (F64.of_Z (Z.of_nat (length v))))
  end.

(** the value left by [memset(A, 0, sizeof(\*A))] in a [stats_t] *)
Definition stats_zeroed : stats_t :=
  mk_stats 0 F32.zero F32.zero F32.zero F32.zero F32.zero F32.zero F32.zero.

(** [collect_aggregates(A, capacity_bytes)]: [baud_hz] is the result of
    [flash_spi_get_baud_hz()], [results] the content of RESULTS.CSV, [None]
    when it cannot be opened. *)
Definition collect_aggregates (baud_hz capacity_bytes : Z)
    (results : option (list ascii)) : agg_t :=
  let sck := F32.div (F32.of_Z baud_hz) F32.f_1e6 in
  match results with
  | None =>
      mk_agg sck (fun _ => calc_stats_from_vec [])
        (fun _ => calc_stats_from_vec []) (fun _ => calc_stats_from_vec [])
        (fun _ => stats_zeroed) (fun _ => F32.zero)
  | Some f =>
      let V := collect_vecs capacity_bytes f in
      mk_agg sck
        (fun g => calc_stats_from_vec (v_read V g))
        (fun g => calc_stats_from_vec (v_write V g))
        (fun g => calc_stats_from_vec (v_erase V g))
        (fun g => calc_stats_from_vec (v_read_lat_ms V g))
        (fun g => mean_us (v_read_us V g))
  end.

(** ** The catalogue (datasheet.csv) *)

Record db_row_t : Type := mk_row {
  jedec_norm : cstr;
  chip_model : cstr;
  company : cstr;
  family : cstr;
  capacity_mbit : Z;
  typ_4k_ms : float;
  typ_32k_ms : float;
  typ_64k_ms : float;
  typ_page_ms : float;
  read50_MBps : float
}.

(** the column indices found in the header, [-1] when absent *)
Record db_idx_t : Type := mk_idx {
  idx_model : Z; idx_company : Z; idx_family : Z; idx_capacity : Z;
  idx_jedec : Z; idx_typprog : Z; idx_typ4k : Z; idx_typ32k : Z;
  idx_typ64k : Z; idx_read50 : Z
}.

Definition idx_none : db_idx_t :=
  mk_idx (-1) (-1) (-1) (-1) (-1) (-1) (-1) (-1) (-1) (-1).

(** [strstr(name, s) != NULL] for a literal [s] *)
Definition has_sub (name : cstr) (s : string) : bool := strstr name (lit s).

(** one step of the header loop: column [i] with text [col] *)
Definition header_step (ix : db_idx_t) (i : Z) (col : cstr) : db_idx_t :=
  let name := upper_str (trim (strncpy_z 96 col)) in
  let '(mk_idx m c f cap j tp t4 t32 t64 r50) := ix in
  if has_sub name "CHIP_MODEL" then mk_idx i c f cap j tp t4 t32 t64 r50
  else if has_sub name "COMPANY" then mk_idx m i f cap j tp t4 t32 t64 r50
  else if has_sub name "CHIP_FAMILY" then mk_idx m c i cap j tp t4 t32 t64 r50
  else if has_sub name "CAPACITY" && has_sub name "MBIT" then mk_idx m c f i j tp t4 t32 t64 r50
  else if has_sub name "JEDEC" then mk_idx m c f cap i tp t4 t32 t64 r50
  else if has_sub name "TYP_PAGE_PROGRAM" then mk_idx m c f cap j i t4 t32 t64 r50
  else if has_sub name "TYP_4KB" then mk_idx m c f cap j tp i t32 t64 r50
  else if has_sub name "TYP_32KB" then mk_idx m c f cap j tp t4 i t64 r50
  else if has_sub name "TYP_64KB" then mk_idx m c f cap j tp t4 t32 i r50
  else if has_sub name "50MHZ_READ_SPEED" || has_sub name "50MHZ_READ" || has_sub name "READ50"
       then mk_idx m c f cap j tp t4 t32 t64 i
  else ix.

Fixpoint header_loop (ix : db_idx_t) (i : Z) (cols : list cstr) : db_idx_t :=
  match cols with
  | [] => ix
  | col :: r => header_loop (header_step ix i col) (i + 1) r
  end.

Definition parse_header (buf : list ascii) : db_idx_t :=
  let headcpy := strncpy_z (Z.to_nat MAX_LINE) (trim (c_str buf)) in
  header_loop idx_none 0 (split_fields headcpy 64).

(** [f[idx]] under the guard [idx >= 0 && idx < c] *)
Definition field_at (f : list cstr) (idx : Z) : option cstr :=
  if (0 <=? idx) && (idx <? Z.of_nat (length f))
  then Some (nth (Z.to_nat idx) f []) else None.

Definition text_field (f : list cstr) (idx : Z) (size : nat) : cstr :=
  match field_at f idx with
  | Some s => trim (strncpy_z size s)
  | None => []
  end.

Definition float_field (f : list cstr) (idx : Z) : float :=
  match field_at f idx with
  | Some s => parse_float_or s F32.f_m1
  | None => F32.f_m1
  end.

(** the body of the row loop of [load_database]: [None] for a buffer that is
    skipped by [continue] *)
Definition parse_row (ix : db_idx_t) (buf : list ascii) : option db_row_t :=
  let line := trim (c_str buf) in
  if negb (nonempty line) then None
  else
    let f := split_fields (strncpy_z (Z.to_nat MAX_LINE) line) 64 in
    if (length f <=? 1)%nat then None
    else Some (mk_row
      match field_at f (idx_jedec ix) with
      | Some s => normalize_jedec (trim (strncpy_z 32 s))
      | None => []
      end
      (text_field f (idx_model ix) 64)
      (text_field f (idx_company ix) 48)
      (text_field f (idx_family ix) 48)
      match field_at f (idx_capacity ix) with
      | Some s => parse_int_or s (-1)
      | None => -1
      end
      (float_field f (idx_typ4k ix))
      (float_field f (idx_typ32k ix))
      (float_field f (idx_typ64k ix))
      (float_field f (idx_typprog ix))
      (float_field f (idx_read50 ix))).

(** [while (n < max_rows && fatfs_gets(buf, sizeof buf, fp))] *)
Fixpoint load_rows (ix : db_idx_t) (max_rows n : Z) (bufs : list (list ascii))
  : list db_row_t :=
  match bufs with
  | [] => []
  | buf :: rest =>
      if negb (n <? max_rows) then []
      else match parse_row ix buf with
           | None => load_rows ix max_rows n rest
           | Some r => r :: load_rows ix max_rows (n + 1) rest
           end
  end.

(** [load_database(fp, rows, max_rows)]: the rows stored, whose number is the
    return value; [db] is the content of datasheet.csv, [None] when it cannot
    be opened. *)
Definition load_database (db : option (list ascii)) (max_rows : Z)
  : list db_row_t :=
  match db with
  | None => []
  | Some f =>
      match read_lines f with
      | [] => []
      | head :: bufs => load_rows (parse_header head) max_rows 0 bufs
      end
  end.

(** ** The datasheet matcher *)

Definition float_almost_equal (a b : float) : bool :=
  if F32.ne a a || F32.ne b b then false
  else
    let diff := F32.fabsf (F32.sub a b) in
    if F32.lt diff F32.f_1em4 then true
    else
      let aa := F32.fabsf a in
      let bb := F32.fabsf b in
      let maxab := if F32.gt aa bb then aa else bb in
      if F32.lt maxab F32.f_1em6 then F32.lt diff F32.f_1em6
      else F32.lt (F32.div diff maxab) F32.f_1em3.

(** the state of one closest-row search: [best_d], [best_pred], [best_i] *)
Definition best_t : Type := (float * float * Z)%type.

Definition best_init : best_t := (F32.f_1e9, F32.NAN, -1).

(** the body of the search loops, for a row that has a prediction *)
Definition closest_step (meanv : float) (b : best_t) (i : Z) (pred : float)
  : best_t :=
  let '(best_d, _, _) := b in
  let d := F32.fabsf (F32.sub pred meanv) in
  if F32.lt d best_d then (d, pred, i) else b.

(** [for (i = 0; i < n_rows; i++)] over the rows that have a prediction *)
Fixpoint closest_loop (pred_of : db_row_t -> option float) (meanv : float)
    (rows : list db_row_t) (i : Z) (b : best_t) : best_t :=
  match rows with
  | [] => b
  | r :: rest =>
      closest_loop pred_of meanv rest (i + 1)
        match pred_of r with
        | Some pred => closest_step meanv b i pred
        | None => b
        end
  end.

Definition read_pred (sck : float) (r : db_row_t) : option float :=
  if F32.gt (read50_MBps r) F32.zero
  then Some (F32.mul (read50_MBps r) (F32.div sck F32.f_50))
  else None.

(** [(bytes + PAGE_SIZE_BYTES - 1) / PAGE_SIZE_BYTES] in [uint32_t] *)
Definition pages_of (bytes : Z) : Z :=
  to_uint32 (bytes + PAGE_SIZE_BYTES - 1) / PAGE_SIZE_BYTES.

Definition group_bytes (g : group_t) (capacity_bytes : Z) : Z :=
  match g with G_WHOLE => capacity_bytes | _ => GROUP_BYTES g end.

Definition write_pred (pages : Z) (r : db_row_t) : option float :=
  if F32.gt (typ_page_ms r) F32.zero
  then Some (F32.mul (typ_page_ms r) (F32.of_Z pages))
  else None.

Definition erase_ref (g : group_t) (r : db_row_t) : float :=
  match g with
  | G_4K => typ_4k_ms r
  | G_32K => typ_32k_ms r
  | G_64K => typ_64k_ms r
  | _ => F32.NAN
  end.

Definition erase_pred (g : group_t) (r : db_row_t) : option float :=
  if F32.gt (erase_ref g r) F32.zero then Some (erase_ref g r) else None.

Definition db_read_search (rows : list db_row_t) (A : agg_t) (g : group_t)
  : best_t :=
  closest_loop (read_pred (sck_MHz A)) (mean (read_s A g)) rows 0 best_init.

Definition db_read_cell (rows : list db_row_t) (A : agg_t) (g : group_t)
  : float :=
  if F32.gt (sck_MHz A) F32.zero then
    if negb (0 <? n (read_s A g)) then F32.NAN
    else
      let '(_, best_pred, best_i) := db_read_search rows A g in
      if 0 <=? best_i then best_pred else F32.NAN
  else F32.NAN.

Definition read_winner_by_group (rows : list db_row_t) (A : agg_t)
    (g : group_t) : Z :=
  if F32.gt (sck_MHz A) F32.zero && (0 <? n (read_s A g))
  then snd (db_read_search rows A g) else -1.

Definition db_write_cell (rows : list db_row_t) (A : agg_t)
    (capacity_bytes : Z) (g : group_t) : float :=
  if negb (0 <? n (write_s A g)) then F32.NAN
  else
    let bytes := group_bytes g capacity_bytes in
    if group_eqb g G_WHOLE && (bytes =? 0) then F32.NAN
    else
      let pages := pages_of bytes in
      if pages =? 0 then F32.NAN
      else
        let '(best_d, best_pred, _) :=
          closest_loop (write_pred pages) (mean (write_s A g)) rows 0 best_init in
        if F32.lt best_d F32.f_1e9 then best_pred else F32.NAN.

Definition db_erase_cell (rows : list db_row_t) (A : agg_t) (g : group_t)
  : float :=
  if negb (0 <? n (erase_s A g)) then F32.NAN
  else
    let '(best_d, best_ref, _) :=
      closest_loop (erase_pred g) (mean (erase_s A g)) rows 0 best_init in
    if F32.lt best_d F32.f_1e9 then best_ref else F32.NAN.

(** the overall read winner: the row of least average difference over the
    groups that were searched *)
Definition read_diffs (rows : list db_row_t) (A : agg_t) (r : db_row_t)
  : list float :=
  if F32.gt (sck_MHz A) F32.zero && F32.gt (read50_MBps r) F32.zero then
    map (fun g => F32.fabsf (F32.sub
                    (F32.mul (read50_MBps r) (F32.div (sck_MHz A) F32.f_50))
                    (mean (read_s A g))))
        (filter (fun g => 0 <? n (read_s A g)) all_groups)
  else [].

Fixpoint read_winner_loop (rows all : list db_row_t) (A : agg_t) (i : Z)
    (best_avg : float) (best_i : Z) : Z :=
  match rows with
  | [] => best_i
  | r :: rest =>
      let ds := read_diffs all A r in
      let avg := F32.div (fold_left F32.add ds F32.zero)
                   (F32.of_Z (Z.of_nat (length ds))) in
      if (0 <? Z.of_nat (length ds)) && F32.lt avg best_avg
      then read_winner_loop rest all A (i + 1) avg i
      else read_winner_loop rest all A (i + 1) best_avg best_i
  end.

Record db_means_t : Type := mk_db_means {
  db_read : group_t -> float;
  db_write : group_t -> float;
  db_erase : group_t -> float;
  out_read_winner_idx : Z;
  read_winner_idx_by_group : group_t -> Z
}.

Definition compute_db_means_closest (rows : list db_row_t) (A : agg_t)
    (capacity_bytes : Z) : db_means_t :=
  mk_db_means
    (db_read_cell rows A)
    (db_write_cell rows A capacity_bytes)
    (db_erase_cell rows A)
    (read_winner_loop rows rows A 0 F32.f_1e9 (-1))
    (read_winner_by_group rows A).

(** ** Candidate lists *)

Definition POSS_CAP : nat := 256.

(** a candidate loop: the JEDEC of every selected row is appended *)
Definition collect_tokens (sel : db_row_t -> bool) (rows : list db_row_t)
  : cstr :=
  fold_left
    (fun acc r => if sel r then append_token acc POSS_CAP (jedec_norm r) else acc)
    rows [].

(** [if (!poss[0]) { strncpy(poss, NA_STR, 256); poss[255] = 0; }] *)
Definition na_if_empty (s : cstr) : cstr :=
  if nonempty s then s else strncpy_z POSS_CAP NA_STR.

Definition read_candidate (sck dbv : float) (r : db_row_t) : bool :=
  if negb (F32.gt (read50_MBps r) F32.zero) || negb (nonempty (jedec_norm r))
  then false
  else float_almost_equal (F32.mul (read50_MBps r) (F32.div sck F32.f_50)) dbv.

Definition write_candidate (pages : Z) (dbv : float) (r : db_row_t) : bool :=
  if negb (F32.gt (typ_page_ms r) F32.zero) || negb (nonempty (jedec_norm r))
  then false
  else float_almost_equal (F32.mul (typ_page_ms r) (F32.of_Z pages)) dbv.

Definition erase_candidate (g : group_t) (dbv : float) (r : db_row_t) : bool :=
  if negb (nonempty (jedec_norm r)) then false
  else F32.gt (erase_ref g r) F32.zero
       && float_almost_equal (erase_ref g r) dbv.

Definition poss_read_cell (rows : list db_row_t) (A : agg_t)
    (db_read : group_t -> float) (g : group_t) : cstr :=
  na_if_empty
    (if F32.eq (db_read g) (db_read g) && F32.gt (sck_MHz A) F32.zero
     then collect_tokens (read_candidate (sck_MHz A) (db_read g)) rows
     else []).

Definition poss_write_cell (rows : list db_row_t) (capacity_bytes : Z)
    (db_write : group_t -> float) (g : group_t) : cstr :=
  na_if_empty
    (if F32.eq (db_write g) (db_write g) then
       let bytes := group_bytes g capacity_bytes in
       if negb (group_eqb g G_WHOLE && (bytes =? 0)) && (0 <? bytes) then
         let pages := pages_of bytes in
         if 0 <? pages
         then collect_tokens (write_candidate pages (db_write g)) rows
         else []
       else []
     else []).

Definition poss_erase_cell (rows : list db_row_t)
    (db_erase : group_t -> float) (g : group_t) : cstr :=
  na_if_empty
    (if F32.eq (db_erase g) (db_erase g)
     then collect_tokens (erase_candidate g (db_erase g)) rows
     else []).

Record poss_t : Type := mk_poss {
  poss_read : group_t -> cstr;
  poss_write : group_t -> cstr;
  poss_erase : group_t -> cstr
}.

Definition build_possible_chips_for_all_groups (rows : list db_row_t)
    (A : agg_t) (capacity_bytes : Z) (db_read db_write db_erase : group_t -> float)
  : poss_t :=
  mk_poss (poss_read_cell rows A db_read)
          (poss_write_cell rows capacity_bytes db_write)
          (poss_erase_cell rows db_erase).

(** ** Intersection across the groups *)

(** a list that constrains: neither empty nor [NA] *)
Definition real_list (s : cstr) : bool :=
  nonempty s && negb (cstr_eqb s NA_STR).

Definition find_first_group (poss : group_t -> cstr) : option group_t :=
  find (fun g => real_list (poss g)) all_groups.

(** the test [in_all] of one token *)
Definition in_all_groups (poss : group_t -> cstr) (first_group : group_t)
    (tok : cstr) : bool :=
  forallb
    (fun g => group_eqb g first_group || negb (real_list (poss g))
              || strstr (poss g) tok)
    all_groups.

Definition conclude_step (poss : group_t -> cstr) (first_group : group_t)
    (cap : nat) (out : cstr) (tok0 : cstr) : cstr :=
  let tok := drop_while (Ascii.eqb SP) tok0 in
  if nonempty tok && in_all_groups poss first_group tok
  then append_token out cap tok else out.

Definition conclude_possible_chips_across_groups (poss : group_t -> cstr)
    (cap : nat) : cstr :=
  match find_first_group poss with
  | None => strncpy_z cap NA_STR
  | Some first_group =>
      let base := strncpy_z 256 (poss first_group) in
      let out := fold_left (conclude_step poss first_group cap)
                   (strtok_all "/"%char base) [] in
      if nonempty out then out else strncpy_z cap NA_STR
  end.

(** ** Final guess scoring *)

Definition norm_diff (meas ref : float) : float :=
  if negb (F32.gt meas F32.zero) || negb (F32.gt ref F32.zero) then F32.f_3
  else
    let d := F32.div (F32.fabsf (F32.sub meas ref)) ref in
    if F32.gt d F32.f_3 then F32.f_3 else d.

Definition score_t : Type := (float * Z)%type.

Definition score_read (A : agg_t) (r : db_row_t) (su : score_t) : score_t :=
  if F32.gt (read50_MBps r) F32.zero && F32.gt (sck_MHz A) F32.zero then
    fold_left
      (fun '(score, used) g =>
         if 0 <? n (read_s A g) then
           let pred := F32.mul (read50_MBps r) (F32.div (sck_MHz A) F32.f_50) in
           (F32.add score (norm_diff (mean (read_s A g)) pred), used + 1)
         else (score, used))
      all_groups su
  else su.

Definition score_write (A : agg_t) (capacity_bytes : Z) (r : db_row_t)
    (su : score_t) : score_t :=
  if F32.gt (typ_page_ms r) F32.zero then
    fold_left
      (fun '(score, used) g =>
         if 0 <? n (write_s A g) then
           let bytes := group_bytes g capacity_bytes in
           if group_eqb g G_WHOLE && (bytes =? 0) then (score, used)
           else
             let pages := pages_of bytes in
             if pages =? 0 then (score, used)
             else
               let pred := F32.mul (typ_page_ms r) (F32.of_Z pages) in
               (F32.add score (norm_diff (mean (write_s A g)) pred), used + 1)
         else (score, used))
      all_groups su
  else su.

Definition score_erase (A : agg_t) (r : db_row_t) (su : score_t) : score_t :=
  fold_left
    (fun '(score, used) g =>
       if n (erase_s A g) <=? 0 then (score, used)
       else if F32.gt (erase_ref g r) F32.zero
       then (F32.add score (norm_diff (mean (erase_s A g)) (erase_ref g r)),
             used + 1)
       else (score, used))
    all_groups su.

Definition jedec_matches (jedec : cstr) (r : db_row_t) : bool :=
  nonempty jedec && nonempty (jedec_norm r) && cstr_eqb jedec (jedec_norm r).

(** the result of the row loop: [best], [best_score], [best_used] *)
Fixpoint pick_loop (rows : list db_row_t) (A : agg_t) (jedec : cstr)
    (capacity_bytes : Z) (i : Z) (b : Z * float * Z) : Z * float * Z :=
  match rows with
  | [] => b
  | r :: rest =>
      let '(score, used) :=
        score_erase A r (score_write A capacity_bytes r
                           (score_read A r (F32.zero, 0))) in
      let '(best, best_score, best_used) := b in
      pick_loop rest A jedec capacity_bytes (i + 1)
        (if used =? 0 then b
         else
           let score := if jedec_matches jedec r
                        then F32.mul score F32.f_0_25 else score in
           if F32.lt score best_score then (i, score, used) else b)
  end.

(** [pick_best_candidate]: the return value, [*out_score] and
    [*used_metrics_out] *)
Definition pick_best_candidate (rows : list db_row_t) (A : agg_t)
    (jedec : cstr) (capacity_bytes : Z) : Z * float * Z :=
  let '(best, best_score, best_used) :=
    pick_loop rows A jedec capacity_bytes 0 (-1, F32.f_1e9, 0) in
  (best, (if 0 <=? best then best_score else F32.NAN), best_used).

(** ** Formatting

    [printf]'s conversions on the exact value of the argument: [%d] and
    [%lu] give the decimal digits, [%.pf] rounds the value to [p] decimals
    (to nearest, ties to even) and writes the integer part, a point and [p]
    digits; [snprintf] keeps what fits in the buffer, leaving room for the
    final NUL. *)

Definition dec_of_Z (v : Z) : cstr := lit (NilZero.string_of_int (Z.to_int v)).

Definition dec_digit (d : Z) : ascii := ascii_of_nat (48 + Z.to_nat d).

(** the last [p] decimal digits of [v], zero padded *)
Fixpoint digits_fixed (p : nat) (v : Z) : cstr :=
  match p with
  | O => []
  | S p' => digits_fixed p' (v / 10) ++ [dec_digit (v mod 10)]
  end.

Definition round_half_even (a b : Z) : Z :=
  let q := a / b in
  match 2 * (a mod b) ?= b with
  | Lt => q
  | Gt => q + 1
  | Eq => if Z.even q then q else q + 1
  end.

(** sign, integer part, point and [p] digits of [N / 10^p] *)
Definition fmt_scaled (sgn : bool) (p : nat) (N : Z) : cstr :=
  (if sgn then lit "-" else [])
  ++ dec_of_Z (N / 10 ^ Z.of_nat p)
  ++ (if (p =? 0)%nat then [] else "."%char :: digits_fixed p N).

(** [%.pf] *)
Definition fmt_fixed (p : nat) (v : float) : cstr :=
  match v with
  | S754_nan => lit "nan"
  | S754_infinity s => if s then lit "-inf" else lit "inf"
  | S754_zero s => fmt_scaled s p 0
  | S754_finite s m e =>
      fmt_scaled s p
        (if 0 <=? e then Zpos m * 2 ^ e * 10 ^ Z.of_nat p
         else round_half_even (Zpos m * 10 ^ Z.of_nat p) (2 ^ (- e)))
  end.

(** [snprintf(out, n, fmt, ...)] with the full text [s] of the conversion *)
Definition snprintf (n : nat) (s : cstr) : cstr := firstn (n - 1) s.

Definition f3_or_na (size : nat) (v : float) : cstr :=
  if F32.ne v v then strncpy_z size NA_STR
  else snprintf size (fmt_fixed 3 v).

Definition f2_or_na (size : nat) (v : float) : cstr :=
  if F32.ne v v then strncpy_z size NA_STR
  else snprintf size (fmt_fixed 2 v).

Definition i_or_na (size : nat) (v : Z) : cstr :=
  if v <=? 0 then strncpy_z size NA_STR
  else snprintf size (dec_of_Z v).

Definition f_auto_std_or_na (size : nat) (v : float) : cstr :=
  if F32.ne v v then strncpy_z size NA_STR
  else if F32.gt (F32.fabsf v) F32.zero && F32.lt (F32.fabsf v) F32.f_1em3
  then snprintf size (fmt_fixed 6 v)
  else snprintf size (fmt_fixed 3 v).

(** ** The report *)

(** what the writer passes to [f_write]: a row of four fields, or a text *)
Inductive out_t : Type :=
| Row (title R W E : cstr)
| Text (s : cstr).

(** the bytes written for one item; a row goes through
    [snprintf(row, 1024, "%s,%s,%s,%s\n", ...)] *)
Definition out_bytes (o : out_t) : cstr :=
  match o with
  | Row title R W E =>
      snprintf 1024 (title ++ lit "," ++ R ++ lit "," ++ W ++ lit "," ++ E ++ [LF])
  | Text s => s
  end.

Definition write_three_cols (title R W E : cstr) : out_t := Row title R W E.

Definition write_three_cols_i (title : cstr) (Ri Wi Ei : Z) : out_t :=
  write_three_cols title (i_or_na 32 Ri) (i_or_na 32 Wi) (i_or_na 32 Ei).

Definition write_three_cols_f_std (title : cstr) (R W E : float) : out_t :=
  write_three_cols title (f_auto_std_or_na 32 R) (f_auto_std_or_na 32 W)
    (f_auto_std_or_na 32 E).

Definition write_three_cols_f (title : cstr) (R W E : float) : out_t :=
  write_three_cols title (f3_or_na 32 R) (f3_or_na 32 W) (f3_or_na 32 E).

Definition group_suffix (g : group_t) : cstr :=
  match g with
  | G_1B => lit "1B"
  | G_256B => lit "256B"
  | G_4K => lit "4096B"
  | G_32K => lit "32768B"
  | G_64K => lit "65536B"
  | G_WHOLE => lit "WHOLE"
  end.

(** the seven statistics of the summary, in the order of the rows *)
Definition summary_stats : list (string * (stats_t -> float)) :=
  [("avg_"%string, mean); ("p25_"%string, p25); ("p50_"%string, p50);
   ("p75_"%string, p75); ("min_"%string, minv); ("max_"%string, maxv);
   ("stddev_"%string, stddev)].

Definition write_summary_ms_for_group (suffix : cstr)
    (Sr_lat_ms Sw_ms Se_ms : stats_t) : list out_t :=
  write_three_cols_i (snprintf 64 (lit "n_" ++ suffix))
    (n Sr_lat_ms) (n Sw_ms) (n Se_ms)
  :: map (fun '(prefix, field) =>
            write_three_cols_f_std
              (snprintf 64 (lit prefix ++ suffix ++ lit "_ms"))
              (field Sr_lat_ms) (field Sw_ms) (field Se_ms))
       summary_stats.

(** float to [unsigned long] / [uint32_t]: the fraction is dropped; C leaves
    the values out of range undefined, the ARM conversion saturates *)
Definition float_to_uint32 (v : float) : Z :=
  match v with
  | S754_finite false _ _ => Z.min (F32.floor_int v) 4294967295
  | S754_infinity false => 4294967295
  | _ => 0
  end.

Definition capacity_bytes_of_mbit (mbit : Z) : Z :=
  float_to_uint32
    (F32.mul (F32.mul (F32.div (F32.of_Z mbit) F32.f_8) F32.f_1024) F32.f_1024).

Record identity_t : Type := mk_identity {
  f_detected_jedec : cstr; f_model : cstr; f_family : cstr; f_company : cstr;
  f_capacity_mbit : cstr; f_capacity_bytes : cstr
}.

Definition or_na (s : cstr) : cstr := if nonempty s then s else NA_STR.

Definition fill_identity_fields (match_row : option db_row_t) (jedec : cstr)
  : identity_t :=
  let det := if nonempty jedec then snprintf 16 jedec else strncpy_z 16 NA_STR in
  match match_row with
  | Some r =>
      if nonempty (jedec_norm r) then
        mk_identity det
          (snprintf 64 (or_na (chip_model r)))
          (snprintf 48 (or_na (family r)))
          (snprintf 48 (or_na (company r)))
          (if 0 <? capacity_mbit r then snprintf 16 (dec_of_Z (capacity_mbit r))
           else strncpy_z 16 NA_STR)
          (if 0 <? capacity_mbit r
           then snprintf 32 (dec_of_Z (capacity_bytes_of_mbit (capacity_mbit r)))
           else strncpy_z 32 NA_STR)
      else
        mk_identity det (strncpy_z 64 NA_STR) (strncpy_z 48 NA_STR)
          (strncpy_z 48 NA_STR) (strncpy_z 16 NA_STR) (strncpy_z 32 NA_STR)
  | None =>
      mk_identity det (strncpy_z 64 NA_STR) (strncpy_z 48 NA_STR)
        (strncpy_z 48 NA_STR) (strncpy_z 16 NA_STR) (strncpy_z 32 NA_STR)
  end.

Definition any_meas (A : agg_t) : bool :=
  existsb (fun g => (0 <? n (read_s A g)) || (0 <? n (write_s A g))
                    || (0 <? n (erase_s A g)))
    all_groups.

Record final_t : Type := mk_final {
  final_j : cstr; final_m : cstr; final_c : cstr; fscore : cstr
}.

Definition UNDECIDED : cstr := lit "undecided".

(** the final-guess block of [write_report_csv] *)
Definition final_guess (rows : list db_row_t) (A : agg_t)
    (match_row : option db_row_t) (jedec : cstr) (capacity_bytes : Z)
  : final_t :=
  let '(best, final_score, _) :=
    pick_best_candidate rows A jedec capacity_bytes in
  let by_jedec (score : cstr) :=
    match match_row with
    | Some r => mk_final jedec (or_na (chip_model r)) (or_na (company r)) score
    | None => mk_final jedec NA_STR NA_STR score
    end in
  if negb (any_meas A) then
    if nonempty jedec then by_jedec (lit "0.000")
    else mk_final UNDECIDED UNDECIDED UNDECIDED NA_STR
  else if 0 <=? best then
    let r := nth (Z.to_nat best) rows
               (mk_row [] [] [] [] 0 F32.NAN F32.NAN F32.NAN F32.NAN F32.NAN) in
    mk_final (or_na (jedec_norm r)) (or_na (chip_model r)) (or_na (company r))
      (f3_or_na 32 final_score)
  else if nonempty jedec then by_jedec (f3_or_na 32 final_score)
  else mk_final UNDECIDED UNDECIDED UNDECIDED (f3_or_na 32 final_score).

Definition NOTE_READ : cstr :=
  lit "read: MB/s; db_mean_* = closest READ@SCK to measured mean per size; NA if no read data".
Definition NOTE_WRITE : cstr :=
  lit "write: ms/op; db_mean_* = typ_page_ms * ceil(bytes/256) closest to measured mean; NA if no write data".
Definition NOTE_ERASE : cstr :=
  lit "erase: ms/op; db_mean_* = typ_4K/32K/64K closest to measured mean; NA if no erase data".

(** an identity row: the same value in the three columns *)
Definition rep (title : string) (v : cstr) : out_t :=
  write_three_cols (lit title) v v v.

(** the parts of the report, in the order in which [write_report_csv]
    writes them *)
Definition identity_rows (id : identity_t) (A : agg_t) : list out_t :=
  [Text (lit "title,read,write,erase" ++ [LF]);
   rep "detected_jedec" (f_detected_jedec id);
   rep "chip_model" (f_model id);
   rep "chip_family" (f_family id);
   rep "company" (f_company id);
   rep "capacity_mbit" (f_capacity_mbit id);
   rep "capacity_bytes" (f_capacity_bytes id);
   rep "spi_sck_MHz"
     (f2_or_na 32 (if F32.gt (sck_MHz A) F32.zero then sck_MHz A else F32.NAN));
   rep "units_summary" (lit "ms")].

Definition summary_rows (A : agg_t) : list out_t :=
  flat_map (fun g => write_summary_ms_for_group (group_suffix g)
                       (read_lat_ms A g) (write_s A g) (erase_s A g))
    all_groups.

Definition db_mean_title (g : group_t) : cstr :=
  snprintf 64 (lit "db_mean_" ++ group_suffix g).

Definition db_mean_row (M : db_means_t) (g : group_t) : out_t :=
  write_three_cols_f (db_mean_title g) (db_read M g) (db_write M g) (db_erase M g).

Definition possible_chips_title (g : group_t) : cstr :=
  snprintf 64 (lit "possible_chips_" ++ group_suffix g).

Definition possible_chips_row (P : poss_t) (g : group_t) : out_t :=
  write_three_cols (possible_chips_title g)
    (poss_read P g) (poss_write P g) (poss_erase P g).

Definition CONCL_CAP : nat := 1024.

Definition conclusion_row (P : poss_t) : out_t :=
  write_three_cols (lit "conclusion_possible_chips")
    (conclude_possible_chips_across_groups (poss_read P) CONCL_CAP)
    (conclude_possible_chips_across_groups (poss_write P) CONCL_CAP)
    (conclude_possible_chips_across_groups (poss_erase P) CONCL_CAP).

Definition final_line (F : final_t) : cstr :=
  snprintf 512 (final_j F ++ lit "," ++ final_m F ++ lit "," ++ final_c F
                ++ lit "," ++ fscore F ++ [LF]).

Definition closing_rows (P : poss_t) (F : final_t) : list out_t :=
  [conclusion_row P;
   write_three_cols (lit "notes") NOTE_READ NOTE_WRITE NOTE_ERASE;
   Text [LF];
   Text (lit "final_guess_jedec,final_guess_model,final_guess_company,final_score"
         ++ [LF]);
   Text (final_line F)].

(** [write_report_csv]: the items written to report.csv, in order (the file
    is taken to open) *)
Definition write_report_csv (rows : list db_row_t) (A : agg_t)
    (match_row : option db_row_t) (jedec : cstr) (capacity_bytes : Z)
  : list out_t :=
  let id := fill_identity_fields match_row jedec in
  let M := compute_db_means_closest rows A capacity_bytes in
  let P := build_possible_chips_for_all_groups rows A capacity_bytes
             (db_read M) (db_write M) (db_erase M) in
  let F := final_guess rows A match_row jedec capacity_bytes in
  identity_rows id A
  ++ summary_rows A
  ++ map (db_mean_row M) all_groups
  ++ map (possible_chips_row P) all_groups
  ++ closing_rows P F.

(** the first row with the given JEDEC *)
Definition find_match_row (rows : list db_row_t) (jedec : cstr)
  : option db_row_t :=
  if nonempty jedec && (0 <? Z.of_nat (length rows))
  then find (fun r => nonempty (jedec_norm r) && cstr_eqb (jedec_norm r) jedec)
         rows
  else None.

(** the device context and the two files read by [report_generate_csv] *)
Record inputs_t : Type := mk_inputs {
  in_db : option (list ascii);       (* datasheet.csv *)
  in_results : option (list ascii);  (* RESULTS.CSV *)
  in_jedec_text : cstr;              (* flash_get_jedec_str() *)
  in_baud_hz : Z                     (* flash_spi_get_baud_hz() *)
}.

Definition report_of_rows (rows : list db_row_t) (inp : inputs_t)
  : list out_t :=
  let jedec_norm6 := normalize_jedec (in_jedec_text inp) in
  let match_row := find_match_row rows jedec_norm6 in
  let capacity_bytes :=
    match match_row with
    | Some r => if 0 <? capacity_mbit r
                then capacity_bytes_of_mbit (capacity_mbit r) else 0
    | None => 0
    end in
  let A := collect_aggregates (in_baud_hz inp) capacity_bytes (in_results inp) in
  write_report_csv rows A match_row jedec_norm6 capacity_bytes.

Definition report_generate_csv (inp : inputs_t) : list out_t :=
  report_of_rows (load_database (in_db inp) MAX_DB_ROWS) inp.

Definition report_text (inp : inputs_t) : cstr :=
  flat_map out_bytes (report_generate_csv inp).

(** ** Statements: auxiliary notions *)

(** the fixed group of a byte width, if any *)
Definition fixed_group (bytes : Z) : option group_t :=
  if bytes =? 1 then Some G_1B
  else if bytes =? 256 then Some G_256B
  else if bytes =? 4096 then Some G_4K
  else if bytes =? 32768 then Some G_32K
  else if bytes =? 65536 then Some G_64K
  else None.

Definition fixed_widths : list Z := [1; 256; 4096; 32768; 65536].

(** no vector of the group holds a sample *)
Definition bucket_empty (V : vecs_t) (g : group_t) : Prop :=
  v_read V g = [] /\ v_write V g = [] /\ v_erase V g = []
  /\ v_read_us V g = [] /\ v_read_lat_ms V g = [].

(** the cells of the report: the row of a title, and its three columns *)
Inductive col_t : Type := ColRead | ColWrite | ColErase.

Definition item_title (o : out_t) : option cstr :=
  match o with Row t _ _ _ => Some t | Text _ => None end.

Definition item_cell (c : col_t) (o : out_t) : cstr :=
  match o, c with
  | Row _ R _ _, ColRead => R
  | Row _ _ W _, ColWrite => W
  | Row _ _ _ E, ColErase => E
  | Text _, _ => []
  end.

Definition has_title (title : cstr) (o : out_t) : bool :=
  match item_title o with
  | Some t => cstr_eqb t title
  | None => false
  end.

(** the cell in column [c] of the first row titled [title] *)
Definition report_cell (title : cstr) (c : col_t) (rep : list out_t)
  : option cstr :=
  option_map (item_cell c) (find (has_title title) rep).

Definition title_is (title : cstr) (t : option cstr) : bool :=
  match t with Some t' => cstr_eqb t' title | None => false end.

(** the titles of the summary rows of one group *)
Definition summary_titles_of (g : group_t) : list (option cstr) :=
  map (fun p => Some (snprintf 64 (lit p ++ group_suffix g)))
    ["n_"]%string
  ++ map (fun p => Some (snprintf 64 (lit p ++ group_suffix g ++ lit "_ms")))
       ["avg_"; "p25_"; "p50_"; "p75_"; "min_"; "max_"; "stddev_"]%string.

(** ** Sample inputs *)

(** a catalogue with a read speed and a results file with read samples *)
Definition sample_catalogue : list ascii :=
  lit "Chip_Model,Company,JEDEC ID,Typ_4KB (ms),Typ_Page_Program (ms),50MHz_Read_Speed"
  ++ [LF] ++ lit "X,SST,BF 26 41,45,0.7,5.0" ++ [LF].

Definition sample_reads : list ascii :=
  lit "BF2641,read,4096,0,800,1" ++ [LF]
  ++ lit "BF2641,read,4096,0,820,1" ++ [LF]
  ++ lit "BF2641,read,4096,0,810,1" ++ [LF].

(** ** The values computed by [report_generate_csv] on the way *)

Definition inputs_rows (inp : inputs_t) : list db_row_t :=
  load_database (in_db inp) MAX_DB_ROWS.

Definition inputs_jedec (inp : inputs_t) : cstr :=
  normalize_jedec (in_jedec_text inp).

Definition inputs_match_row (inp : inputs_t) : option db_row_t :=
  find_match_row (inputs_rows inp) (inputs_jedec inp).

Definition inputs_capacity (inp : inputs_t) : Z :=
  match inputs_match_row inp with
  | Some r => if 0 <? capacity_mbit r
              then capacity_bytes_of_mbit (capacity_mbit r) else 0
  | None => 0
  end.

Definition inputs_agg (inp : inputs_t) : agg_t :=
  collect_aggregates (in_baud_hz inp) (inputs_capacity inp) (in_results inp).

Definition inputs_final (inp : inputs_t) : final_t :=
  final_guess (inputs_rows inp) (inputs_agg inp) (inputs_match_row inp)
    (inputs_jedec inp) (inputs_capacity inp).

(** the value row of the final-guess block: the last item written *)
Definition final_block (rep : list out_t) : out_t := last rep (Text []).

(** no catalogue, no results, a known JEDEC *)
Definition inputs_jedec_only : inputs_t :=
  mk_inputs None None (lit "C2 1F 17") 0.

(** the titles of the items of a report, in order *)
Definition report_titles : list (option cstr) :=
  (None :: map (fun s => Some (lit s))
     ["detected_jedec"; "chip_model"; "chip_family"; "company";
      "capacity_mbit"; "capacity_bytes"; "spi_sck_MHz"; "units_summary"]%string)
  ++ flat_map summary_titles_of all_groups
  ++ map (fun g => Some (db_mean_title g)) all_groups
  ++ map (fun g => Some (possible_chips_title g)) all_groups
  ++ [Some (lit "conclusion_possible_chips"); Some (lit "notes"); None; None; None].

(** the title of a summary row *)
Definition n_title (g : group_t) : cstr := snprintf 64 (lit "n_" ++ group_suffix g).

Definition stat_title (prefix : string) (g : group_t) : cstr :=
  snprintf 64 (lit prefix ++ group_suffix g ++ lit "_ms").

(** the statistics behind a column of the summary *)
Definition column_stats (A : agg_t) (c : col_t) (g : group_t) : stats_t :=
  match c with
  | ColRead => read_lat_ms A g
  | ColWrite => write_s A g
  | ColErase => erase_s A g
  end.

Definition column_db_mean (M : db_means_t) (c : col_t) (g : group_t) : float :=
  match c with
  | ColRead => db_read M g
  | ColWrite => db_write M g
  | ColErase => db_erase M g
  end.

(** the number of characters after the last point of a text, 0 without one *)
Definition not_point (c : ascii) : bool := negb (Ascii.eqb c ".").

Definition decimals_of (s : cstr) : nat :=
  if strchr s "."%char then length (take_while not_point (rev s)) else 0%nat.





(** an erase of 4e38 microseconds: more than a [float] holds *)
Definition inputs_erase_inf : inputs_t :=
  mk_inputs (Some sample_catalogue)
    (Some (lit "BF2641,erase,4096,0,4e38,0" ++ [LF])) (lit "BF 26 41") 10000000.




(** the position of the first summary row of a group *)
Definition summary_pos (g : group_t) : nat := 9 + 8 * Z.to_nat (group_index g).

(** ** The closest row of a cell *)

(** the statistics a column of the matcher compares against *)
Definition match_stats (A : agg_t) (c : col_t) (g : group_t) : stats_t :=
  match c with
  | ColRead => read_s A g
  | ColWrite => write_s A g
  | ColErase => erase_s A g
  end.

(** the prediction of a catalogue row for a cell, when the row carries the
    field of the operation and the cell can be matched *)
Definition cell_pred (c : col_t) (A : agg_t) (cap : Z) (g : group_t)
    (r : db_row_t) : option float :=
  match c with
  | ColRead =>
      if F32.gt (sck_MHz A) F32.zero then read_pred (sck_MHz A) r else None
  | ColWrite =>
      let bytes := group_bytes g cap in
      if (group_eqb g G_WHOLE && (bytes =? 0)) || (pages_of bytes =? 0) then None
      else write_pred (pages_of bytes) r
  | ColErase => erase_pred g r
  end.

(** [fabsf(pred - mean)] *)
Definition abs_diff (meanv pred : float) : float :=
  F32.fabsf (F32.sub pred meanv).

(** row [i] predicts [p], within the bound of the search, no row is
    strictly closer to the mean, and no earlier row is as close *)
Definition closest_at (pred_of : db_row_t -> option float) (meanv : float)
    (rows : list db_row_t) (i : nat) (p : float) : Prop :=
  (exists r, nth_error rows i = Some r /\ pred_of r = Some p)
  /\ F32.lt (abs_diff meanv p) F32.f_1e9 = true
  /\ (forall j r' p', nth_error rows j = Some r' -> pred_of r' = Some p' ->
        F32.lt (abs_diff meanv p') (abs_diff meanv p) = false)
  /\ (forall j r' p', (j < i)%nat -> nth_error rows j = Some r' ->
        pred_of r' = Some p' ->
        F32.le (abs_diff meanv p') (abs_diff meanv p) = false).

(** no row has a prediction within the bound of the search *)
Definition none_within (pred_of : db_row_t -> option float) (meanv : float)
    (rows : list db_row_t) : Prop :=
  forall r p, In r rows -> pred_of r = Some p ->
              F32.lt (abs_diff meanv p) F32.f_1e9 = false.

Definition closest_inv (pred_of : db_row_t -> option float) (meanv : float)
    (rows : list db_row_t) (b : best_t) : Prop :=
  (b = best_init /\ none_within pred_of meanv rows)
  \/ (exists i p, b = (abs_diff meanv p, p, Z.of_nat i)
                  /\ closest_at pred_of meanv rows i p).

(** the rows of the sample catalogue, and erase samples of 46 ms *)
Definition sample_rows : list db_row_t :=
  load_database (Some sample_catalogue) MAX_DB_ROWS.

Definition sample_erases : list ascii :=
  lit "BF2641,erase,4096,0,46000,0" ++ [LF]
  ++ lit "BF2641,erase,4096,0,47000,0" ++ [LF].

Definition sample_erase_agg : agg_t :=
  collect_aggregates 10000000 0 (Some sample_erases).

Definition row_default : db_row_t :=
  mk_row [] [] [] [] 0 F32.NAN F32.NAN F32.NAN F32.NAN F32.NAN.

(** a catalogue whose only 4 KB erase time is 3e9 ms *)
Definition inputs_far_catalogue : inputs_t :=
  mk_inputs
    (Some (lit "Chip_Model,Company,JEDEC ID,Typ_4KB (ms)" ++ [LF]
           ++ lit "X,SST,BF 26 41,3e9" ++ [LF]))
    (Some sample_erases) (lit "BF 26 41") 10000000.

(** a catalogue of three rows whose 4 KB erase times are 400, 48 and 45 ms:
    48 and 45 are equally close to the mean of the sample erases, 46.5 ms *)
Definition catalogue_tie : list ascii :=
  lit "Chip_Model,Company,JEDEC ID,Typ_4KB (ms)" ++ [LF]
  ++ lit "A,CoA,AA AA AA,400" ++ [LF]
  ++ lit "B,CoB,BB BB BB,48" ++ [LF]
  ++ lit "C,CoC,CC CC CC,45" ++ [LF].

Definition rows_tie : list db_row_t :=
  load_database (Some catalogue_tie) MAX_DB_ROWS.

Definition inputs_tie : inputs_t :=
  mk_inputs (Some catalogue_tie) (Some sample_erases) (lit "BF 26 41") 10000000.

(** a catalogue of three rows whose 4 KB erase times are 400, 45 and 45 ms:
    the second and the third row have the same, least, score *)
Definition catalogue_two_best : list ascii :=
  lit "Chip_Model,Company,JEDEC ID,Typ_4KB (ms)" ++ [LF]
  ++ lit "A,CoA,AA AA AA,400" ++ [LF]
  ++ lit "B,CoB,BB BB BB,45" ++ [LF]
  ++ lit "C,CoC,CC CC CC,45" ++ [LF].

Definition inputs_two_best : inputs_t :=
  mk_inputs (Some catalogue_two_best) (Some sample_erases) (lit "BF 26 41")
    10000000.

(** erase samples of 256 bytes, for which the catalogue has no time *)
Definition inputs_erase_256 : inputs_t :=
  mk_inputs (Some sample_catalogue)
    (Some (lit "BF2641,erase,256,0,1000,0" ++ [LF]
           ++ lit "BF2641,erase,256,0,1200,0" ++ [LF]))
    (lit "BF 26 41") 10000000.

(** a catalogue without a capacity column and the erase of a whole chip of
    2 MB, besides an erase of 4096 bytes *)
Definition inputs_no_capacity : inputs_t :=
  mk_inputs (Some sample_catalogue)
    (Some (lit "BF2641,erase,2097152,0,9000000,0" ++ [LF]
           ++ lit "BF2641,erase,4096,0,46000,0" ++ [LF]))
    (lit "BF 26 41") 10000000.

(** ** The row of a JEDEC *)

(** [r] is the first row of the table with the JEDEC, and no row has it *)
Definition first_with_jedec (rows : list db_row_t) (jedec : cstr)
    (r : db_row_t) : Prop :=
  exists pre post,
    rows = pre ++ r :: post /\ jedec_norm r = jedec
    /\ Forall (fun r' => jedec_norm r' <> jedec) pre.

Definition no_row_with_jedec (rows : list db_row_t) (jedec : cstr) : Prop :=
  Forall (fun r' => jedec_norm r' <> jedec) rows.

(** a catalogue of three rows, the second and the third with the JEDEC of
    the device *)
Definition inputs_jedec_twice : inputs_t :=
  mk_inputs
    (Some (lit "Chip_Model,Company,JEDEC ID" ++ [LF]
           ++ lit "W25Q16,Winbond,EF 40 15" ++ [LF]
           ++ lit "MX25L,Macronix,C2 1F 17" ++ [LF]
           ++ lit "KH25L,Other,C2 1F 17" ++ [LF]))
    None (lit "C2 1F 17") 0.

(** ** The catalogue without the bound *)

(** the rows of all the buffers that [parse_row] accepts *)
Definition all_rows (ix : db_idx_t) (bufs : list (list ascii)) : list db_row_t :=
  flat_map (fun buf => match parse_row ix buf with
                       | Some r => [r]
                       | None => []
                       end) bufs.

(** every parseable data row of the catalogue, in order *)
Definition catalogue_rows (db : option (list ascii)) : list db_row_t :=
  match db with
  | None => []
  | Some f =>
      match read_lines f with
      | [] => []
      | head :: bufs => all_rows (parse_header head) bufs
      end
  end.

Definition with_db (inp : inputs_t) (db : option (list ascii)) : inputs_t :=
  mk_inputs db (in_results inp) (in_jedec_text inp) (in_baud_hz inp).

(** a catalogue of 512 rows of one chip followed by the row of another *)
Definition catalogue_header : list ascii :=
  lit "Chip_Model,Company,JEDEC ID,Typ_4KB (ms),Typ_Page_Program (ms),50MHz_Read_Speed"
  ++ [LF].

Definition catalogue_512 : list ascii :=
  catalogue_header ++ concat (repeat (lit "X,SST,BF 26 41,45,0.7,5.0" ++ [LF]) 512).

Definition catalogue_513 : list ascii :=
  catalogue_512 ++ lit "Y,Winbond,EF 40 16,46,0.7,5.0" ++ [LF].

Definition inputs_513 : inputs_t :=
  mk_inputs (Some catalogue_513) (Some sample_erases) (lit "EF 40 16") 10000000.

(** ** Streams of lines *)

(** a line holds no line feed; the stream ends each of its lines with one *)
Definition no_lf (l : list ascii) : Prop := ~ In LF l.

Definition stream_of (lines : list (list ascii)) : list ascii :=
  flat_map (fun l => l ++ [LF]) lines.

(** the buffer that [fatfs_gets] fills from a line *)
Definition buf_of (l : list ascii) : list ascii :=
  firstn (Z.to_nat MAX_LINE - 1) (l ++ [LF]).

(** ** Values of a bucket *)

(** zero, a positive number or plus infinity: the values that a vector of
    samples can hold *)
Definition ordered (v : float) : bool :=
  match v with
  | S754_zero false | S754_finite false _ _ | S754_infinity false => true
  | _ => false
  end.

(** the statistics that do not depend on the order of the samples *)
Definition same_order_stats (S1 S2 : stats_t) : Prop :=
  n S1 = n S2 /\ p25 S1 = p25 S2 /\ p50 S1 = p50 S2 /\ p75 S1 = p75 S2
  /\ minv S1 = minv S2 /\ maxv S1 = maxv S2.

(** the five vectors of a group, as lists *)
Definition bucket_vectors (V : vecs_t) (g : group_t) : list (list float) :=
  [v_read V g; v_write V g; v_erase V g; v_read_us V g; v_read_lat_ms V g].

(** the three results of the first loop of [calc_stats_from_vec] *)
Definition min_step (mn v : float) : float := if F32.lt v mn then v else mn.
Definition max_step (mx v : float) : float := if F32.gt v mx then v else mx.

(** three erase samples of 4096 bytes: 16777216 ms, 1 ms and 1 ms *)
Definition erase_long : list ascii := lit "x,erase,4096,0,16777216000,0".
Definition erase_short : list ascii := lit "x,erase,4096,0,1000,0".

Definition lines_long_first : list (list ascii) :=
  [erase_long; erase_short; erase_short].
Definition lines_long_last : list (list ascii) :=
  [erase_short; erase_short; erase_long].

(** ** Candidate lists as lists of tokens *)

(** a normalised JEDEC: absent, or six hexadecimal digits *)
Definition jedec_wf (j : cstr) : Prop :=
  j = [] \/ (length j = 6%nat /\ Forall (fun c => isxdigit c = true) j).

Definition rows_wf (rows : list db_row_t) : Prop :=
  Forall (fun r => jedec_wf (jedec_norm r)) rows.

Definition SLASH : ascii := "/"%char.

(** the entries of a candidate cell: none for the literal NA *)
Definition candidates_of (cell : cstr) : list cstr :=
  if cstr_eqb cell NA_STR then [] else strtok_all SLASH cell.

(** tokens joined by [/] *)
Definition join_step (acc tok : cstr) : cstr :=
  if nonempty acc then acc ++ SLASH :: tok else tok.

Definition join_tokens (toks : list cstr) : cstr := fold_left join_step toks [].

(** the candidate test of a cell, by column *)
Definition cell_candidate (c : col_t) (A : agg_t) (cap : Z) (g : group_t)
    (dbv : float) (r : db_row_t) : bool :=
  match c with
  | ColRead => read_candidate (sck_MHz A) dbv r
  | ColWrite => write_candidate (pages_of (group_bytes g cap)) dbv r
  | ColErase => erase_candidate g dbv r
  end.

Definition column_poss (P : poss_t) (c : col_t) (g : group_t) : cstr :=
  match c with
  | ColRead => poss_read P g
  | ColWrite => poss_write P g
  | ColErase => poss_erase P g
  end.

Definition nonempty_list {A : Type} (l : list A) : bool :=
  match l with [] => false | _ => true end.

(** a catalogue of two rows: the first without a JEDEC, 45 ms for the 4 KB
    erase; the second with one, 400 ms *)
Definition rows_no_jedec : list db_row_t :=
  [mk_row [] (lit "X") (lit "SST") [] 16
     (F32.of_Z 45) F32.f_m1 F32.f_m1 F32.f_m1 F32.f_m1;
   mk_row (lit "BF2641") (lit "Y") (lit "SST") [] 16
     (F32.of_Z 400) F32.f_m1 F32.f_m1 F32.f_m1 F32.f_m1].

(** 37 rows with the JEDECs 000000 to 000036 and the same 4 KB erase time *)
Definition rows_37 : list db_row_t :=
  map (fun k => mk_row (digits_fixed 6 (Z.of_nat k)) (lit "X") (lit "SST") [] 16
                  (F32.of_Z 45) F32.f_m1 F32.f_m1 F32.f_m1 F32.f_m1)
    (seq 0 37).

(** two rows with the same JEDEC and different 4 KB erase times *)
Definition rows_same_jedec : list db_row_t :=
  [mk_row (lit "BF2641") (lit "X") (lit "SST") [] 16
     (F32.of_Z 45) F32.f_m1 F32.f_m1 F32.f_m1 F32.f_m1;
   mk_row (lit "BF2641") (lit "Y") (lit "SST") [] 16
     (F32.of_Z 400) F32.f_m1 F32.f_m1 F32.f_m1 F32.f_m1].

(** the cells of a catalogue for the sample erases *)
Definition sample_db (rows : list db_row_t) (c : col_t) (g : group_t) : float :=
  column_db_mean (compute_db_means_closest rows sample_erase_agg 0) c g.

Definition sample_poss (rows : list db_row_t) (c : col_t) (g : group_t) : cstr :=
  let M := compute_db_means_closest rows sample_erase_agg 0 in
  column_poss
    (build_possible_chips_for_all_groups rows sample_erase_agg 0
       (db_read M) (db_write M) (db_erase M)) c g.

(** the boolean test of [jedec_wf] *)
Definition jedec_wfb (j : cstr) : bool :=
  negb (nonempty j) || ((length j =? 6)%nat && forallb isxdigit j).

(** ** Well-formed candidate cells *)

(** a token of a cell: at most six hexadecimal digits *)
Definition token_ok (t : cstr) : Prop :=
  Forall (fun c => isxdigit c = true) t /\ (length t <= 6)%nat.

(** a cell: the literal NA, or at most 255 characters of tokens *)
Definition cell_ok (s : cstr) : Prop :=
  s = NA_STR
  \/ ((length s <= 255)%nat /\ Forall token_ok (strtok_all SLASH s)).

(** the characters of a list of tokens, one separator counted for each *)
Definition total_len (toks : list cstr) : nat :=
  fold_right (fun t acc => (length t + 1 + acc)%nat) 0%nat toks.

(** two chips with the same 4 KB and 32 KB erase times and different 64 KB
    erase times, and erase samples in the three groups *)
Definition rows_two_chips : list db_row_t :=
  [mk_row (lit "111111") (lit "A") (lit "SST") [] 16
     (F32.of_Z 45) (F32.of_Z 240) (F32.of_Z 400) F32.f_m1 F32.f_m1;
   mk_row (lit "222222") (lit "B") (lit "SST") [] 16
     (F32.of_Z 45) (F32.of_Z 240) (F32.of_Z 420) F32.f_m1 F32.f_m1].

Definition erases_three_groups : list ascii :=
  lit "x,erase,4096,0,46000,0" ++ [LF]
  ++ lit "x,erase,32768,0,238000,0" ++ [LF]
  ++ lit "x,erase,65536,0,402000,0" ++ [LF].

Definition agg_three_groups : agg_t :=
  collect_aggregates 10000000 0 (Some erases_three_groups).

(** the state of a candidate loop: a list of at most 36 whole JEDECs, or a
    full cell *)
Definition tokens_state (acc : cstr) : Prop :=
  (exists toks, acc = join_tokens toks /\ (length toks <= 36)%nat
                /\ Forall (fun t => length t = 6%nat
                                    /\ Forall (fun c => isxdigit c = true) t) toks)
  \/ (length acc = 255%nat /\ Forall token_ok (strtok_all SLASH acc)).

(** ** Records of the results stream *)

Definition COMMA : ascii := ","%char.

(** the line of a record: its fields, a comma between two of them *)
Definition csv_line (flds : list cstr) : list ascii :=
  match flds with
  | [] => []
  | f :: r => f ++ flat_map (fun x => COMMA :: x) r
  end.

(** a character that a field of a line can hold: any but the separator, the
    end of a C string and the end of a line *)
Definition field_char (c : ascii) : bool :=
  negb (Ascii.eqb c COMMA || Ascii.eqb c NUL || Ascii.eqb c LF).

Definition field_ok (f : cstr) : bool :=
  nonempty f && forallb field_char f.

(** what [trim] leaves of the first and of the last field of a line *)
Definition trim_start (f : cstr) : cstr := drop_while trim_head_char f.
Definition trim_end (f : cstr) : cstr :=
  rev (drop_while trim_tail_char (rev f)).

(** a record of at least six fields, none empty, the first not made of
    spaces and tabs only and the last not of carriage returns, spaces and
    tabs only (so that [trim] leaves none empty), whose line fits the line
    buffer of [collect_aggregates] *)
Definition record_ok (r : list cstr) : bool :=
  (6 <=? length r)%nat && forallb field_ok r
  && nonempty (trim_start (hd [] r)) && nonempty (trim_end (last r []))
  && (length (csv_line r) <? Z.to_nat MAX_LINE)%nat.

(** two records with the same op, size_bytes and elapsed_us *)
Definition same_read_fields (r1 r2 : list cstr) : Prop :=
  nth 1 r1 [] = nth 1 r2 [] /\ nth 2 r1 [] = nth 2 r2 []
  /\ nth 4 r1 [] = nth 4 r2 [].

Definition results_of (recs : list (list cstr)) : list ascii :=
  stream_of (map csv_line recs).

(** one erase sample of 4096 bytes, written with three different contents of
    the fields that are not read: the last one has an empty address *)
Definition rec_erase : list cstr :=
  map lit ["x"; "erase"; "4096"; "0"; "1000"; "0"]%string.
Definition rec_erase_other : list cstr :=
  map lit ["BF2641"; "erase"; "4096"; "12288"; "1000"; "7"; "note"]%string.
Definition rec_erase_no_addr : list cstr :=
  map lit ["x"; "erase"; "4096"; ""; "1000"; "0"]%string.

(** two rows as the logger writes them, with blanks in the JEDEC and in the
    time stamp and a carriage return before the line feed: the same erase
    sample, everything else different *)
Definition rec_logged : list cstr :=
  map lit ["BF 26 41"; "erase"; "4096"; "0x000000"; "46000"; "0.000"; "1";
           "25.10"; "3.30"; "n/a"; "2025-01-01 10:00:00"]%string
  ++ [lit "menu_cmd" ++ [CR]].
Definition rec_logged_other : list cstr :=
  map lit ["EF 40 16"; "erase"; "4096"; "0x001000"; "46000"; "0.089"; "27";
           "31.75"; "3.28"; "0xAA"; "2025-02-03 04:05:06"]%string
  ++ [lit "Flash_Erase_Test_27" ++ [CR]].

(** a first field of 500 characters: the line has more than 511 *)
Definition rec_erase_long : list cstr :=
  repeat "x"%char 500 :: map lit ["erase"; "4096"; "0"; "1000"; "0"]%string.

(** a last field that holds a carriage return only *)
Definition rec_erase_blank_end : list cstr :=
  map lit ["x"; "erase"; "4096"; "0"; "1000"]%string ++ [[CR]].

(** ** Statements about the small utilities *)

(** the separator that [split_fields] chooses for a line *)
Definition split_sep (line : cstr) : ascii :=
  if strchr line ","%char then ","%char else TAB.

(** the hexadecimal digits of a text, upper-cased *)
Definition hex_digits (s : cstr) : cstr := map toupper (filter isxdigit s).
(** ** Statements about the buckets *)

(** the four statistics records of a group *)
Definition bucket_stats (A : agg_t) (g : group_t) : list stats_t :=
  [read_s A g; write_s A g; erase_s A g; read_lat_ms A g].

(** the samples shown by the [n_] rows of the summary, all groups together *)
Definition samples_counted (A : agg_t) : Z :=
  fold_right Z.add 0
    (map (fun g => n (read_lat_ms A g) + n (write_s A g) + n (erase_s A g))
       all_groups).

(** the number of buffers that [fatfs_gets] fills from RESULTS.CSV *)
Definition lines_read (results : option (list ascii)) : Z :=
  match results with
  | None => 0
  | Some f => Z.of_nat (length (read_lines f))
  end.

(** the samples held by the write, erase and read-latency vectors *)
Definition vecs_count (V : vecs_t) : nat :=
  fold_right Nat.add 0%nat
    (map (fun g => length (v_read_lat_ms V g) + length (v_write V g)
                   + length (v_erase V g))%nat
       all_groups).
(** ** Statements about the report *)

(** the titles of the identity rows that come from the catalogue *)
Definition catalogue_identity_titles : list cstr :=
  map lit ["chip_model"; "chip_family"; "company"; "capacity_mbit";
           "capacity_bytes"]%string.

(** a results file without a usable record, and the inputs with it *)
Definition results_no_record : list ascii :=
  lit "JEDEC,op,size,addr,elapsed_us,MBps" ++ [LF].

Definition inputs_no_record : inputs_t :=
  mk_inputs (Some sample_catalogue) (Some results_no_record) (lit "BF 26 41")
    10000000.
(** ** Statements about the matcher *)

Definition PLUS_INF : float := S754_infinity false.

(** [f] holds of the [k] integers from [m] on *)
Fixpoint all_from (f : Z -> bool) (k : nat) (m : Z) : bool :=
  match k with
  | O => true
  | S k' => f m && all_from f k' (m + 1)
  end.
(** ** Statements about the catalogue and the scores *)

(** the lines of datasheet.csv, the header included *)
Definition db_lines (db : option (list ascii)) : nat :=
  match db with
  | None => 0%nat
  | Some f => length (read_lines f)
  end.

(** six hexadecimal digits in upper case *)
Definition jedec6 (j : cstr) : Prop :=
  length j = 6%nat
  /\ Forall (fun c => isxdigit c = true /\ toupper c = c) j.

(** the score of one row and the number of metrics behind it, as one turn
    of the loop of [pick_best_candidate] computes them *)
Definition row_score (A : agg_t) (jedec : cstr) (capacity_bytes : Z)
    (r : db_row_t) : float * Z :=
  let '(score, used) :=
    score_erase A r (score_write A capacity_bytes r
                       (score_read A r (F32.zero, 0))) in
  ((if jedec_matches jedec r then F32.mul score F32.f_0_25 else score), used).

(** the update of [best], [best_score] and [best_used] by row [i] *)
Definition pick_step (i : Z) (b : Z * float * Z) (su : float * Z)
  : Z * float * Z :=
  let '(s, u) := su in
  if u =? 0 then b
  else if F32.lt s (snd (fst b)) then (i, s, u) else b.

(** a row that can be scored: some metric was used *)
Definition scorable (A : agg_t) (jedec : cstr) (cap : Z) (r : db_row_t)
  : Prop :=
  snd (row_score A jedec cap r) <> 0.

(** row [i] holds the least score of the rows that can be scored, and is
    the first to do so *)
Definition best_row_at (rows : list db_row_t) (A : agg_t) (jedec : cstr)
    (cap : Z) (i : Z) (score : float) (used : Z) : Prop :=
  0 <= i
  /\ exists r,
       nth_error rows (Z.to_nat i) = Some r
       /\ row_score A jedec cap r = (score, used)
       /\ 0 < used
       /\ F32.lt score F32.f_1e9 = true
       /\ (forall r', In r' rows -> scorable A jedec cap r' ->
             F32.lt (fst (row_score A jedec cap r')) score = false)
       /\ (forall j r', (j < Z.to_nat i)%nat -> nth_error rows j = Some r' ->
             scorable A jedec cap r' ->
             F32.is_nan (fst (row_score A jedec cap r')) = false ->
             F32.lt score (fst (row_score A jedec cap r')) = true).

(** no row can be scored below the bound *)
Definition no_row_scored (rows : list db_row_t) (A : agg_t) (jedec : cstr)
    (cap : Z) : Prop :=
  forall r, In r rows -> scorable A jedec cap r ->
            F32.lt (fst (row_score A jedec cap r)) F32.f_1e9 = false.

(** the state of the loop after the rows [pre] *)
Definition pick_inv (pre : list db_row_t) (A : agg_t) (jedec : cstr)
    (cap : Z) (b : Z * float * Z) : Prop :=
  let '(best, bs, bu) := b in
  (best = -1 /\ bs = F32.f_1e9 /\ bu = 0 /\ no_row_scored pre A jedec cap)
  \/ best_row_at pre A jedec cap best bs bu.

(** the sample catalogue with the sample erases *)
Definition inputs_sample_erases : inputs_t :=
  mk_inputs (Some sample_catalogue) (Some sample_erases) (lit "BF 26 41")
    10000000.
(** ** Statements about the header and the numbers *)

(** a change of letter case: upper-casing after it is upper-casing *)
Definition case_map (f : ascii -> ascii) : Prop :=
  forall c, toupper (f c) = toupper c.

(** the characters that the readers look for: they are no letters *)
Definition marks : list ascii := [NUL; LF; CR; TAB; SP; ","%char].
(** ** Statements about records that are skipped *)

(** one of the four operation names of [collect_aggregates] *)
Definition known_op (op : cstr) : bool :=
  cstr_eqb op (lit "read") || cstr_eqb op (lit "program")
  || cstr_eqb op (lit "write") || cstr_eqb op (lit "erase").

(** a record with an unknown operation, a size that is no group, or an
    elapsed time that is not positive *)
Definition record_skipped (cap : Z) (r : list cstr) : bool :=
  negb (known_op (nth 1 r []))
  || match classify_group (to_uint32 (parse_int_or (nth 2 r []) 0)) cap with
     | None => true
     | Some _ => false
     end
  || negb (F32.gt (parse_float_or (nth 4 r []) F32.f_m1) F32.zero).

(** the twelve column names of the header line of RESULTS.CSV, as
    [sd_append_to_file] of the SD card module writes them into an empty
    file, with the carriage return that precedes the line feed *)
Definition rec_header : list cstr :=
  map lit ["jedec_id"; "operation"; "block_size"; "address"; "elapsed_us";
           "throughput_MBps"; "run"; "temp_C"; "voltage_V"; "pattern";
           "timestamp"]%string
  ++ [lit "notes" ++ [CR]].

(** ** Statements about the lines of RESULTS.CSV *)

(** the fields that the reading loop of [collect_aggregates] gets from one
    buffer: [trim], the copy into [work], and [split_fields] with its limit
    of 16 fields *)
Definition buf_fields (buf : list ascii) : list cstr :=
  firstn FLDS_MAX
    (strtok_all ","%char (strncpy_z (Z.to_nat MAX_LINE) (trim (c_str buf)))).

(** a line that the reading loop passes over: fewer than six fields, or the
    fields of a record that is skipped *)
Definition line_skipped (cap : Z) (l : list ascii) : bool :=
  (length (buf_fields (buf_of l)) <? 6)%nat
  || record_skipped cap (buf_fields (buf_of l)).

(** a logged row with an elapsed time of zero *)
Definition rec_logged_zero : list cstr :=
  map lit ["BF 26 41"; "erase"; "4096"; "0x000000"; "0"; "0.000"; "3";
           "25.10"; "3.30"; "n/a"; "2025-01-01 10:00:02"]%string
  ++ [lit "menu_cmd" ++ [CR]].

(** a file that is empty or ends with a line feed *)
Definition whole_lines (f : list ascii) : bool :=
  match rev f with
  | [] => true
  | c :: _ => Ascii.eqb c LF
  end.

(** the catalogue of [inputs_jedec_twice], which has no timing column, with
    erase samples: no row can be scored *)
Definition inputs_twice_unscored : inputs_t :=
  mk_inputs (in_db inputs_jedec_twice) (Some sample_erases) (lit "C2 1F 17")
    10000000.

(** an erase of 1e38 microseconds: a finite [float] whose text with three
    decimals has 39 characters *)
Definition inputs_erase_huge : inputs_t :=
  mk_inputs (Some sample_catalogue)
    (Some (lit "BF2641,erase,4096,0,1e38,0" ++ [LF])) (lit "BF 26 41") 10000000.

(** * Size classification *)

Lemma classify_group_fixed bytes cap g :
  fixed_group bytes = Some g -> classify_group bytes cap = Some g.
Proof.
  unfold fixed_group, classify_group.
  repeat (destruct (_ =? _); [ intros H; exact H | ]).
  discriminate.
Qed.

Lemma classify_group_not_whole bytes cap :
  In cap fixed_widths -> classify_group bytes cap <> Some G_WHOLE.
Proof.
  intros Hin. unfold classify_group.
  repeat match goal with
         | |- context [bytes =? ?k] =>
             destruct (bytes =? k) eqn:?; [ discriminate | ]
         end.
  destruct (negb (cap =? 0) && (bytes =? cap)) eqn:E; [ | discriminate ].
  apply andb_true_iff in E. destruct E as [_ E]. apply Z.eqb_eq in E. subst bytes.
  simpl in Hin.
  repeat (destruct Hin as [Hin | Hin];
          [ subst cap; simpl in *; discriminate | ]).
  contradiction.
Qed.

Lemma vec_push_other (V : group_t -> list float) g g' x :
  g' <> g -> vec_push V g x g' = V g'.
Proof.
  intros Hne. unfold vec_push, group_eqb.
  destruct (group_index g' =? group_index g) eqn:E; [ | reflexivity ].
  apply Z.eqb_eq in E. destruct g, g'; simpl in E; try discriminate; congruence.
Qed.

Lemma collect_line_keeps_whole_empty cap V buf :
  In cap fixed_widths -> bucket_empty V G_WHOLE ->
  bucket_empty (collect_line cap V buf) G_WHOLE.
Proof.
  intros Hcap HV. unfold collect_line, collect_sample.
  destruct (negb (nonempty (trim (c_str buf)))); [ exact HV | ].
  destruct (_ <? 6)%nat; [ exact HV | ].
  destruct (classify_group _ cap) as [g | ] eqn:Hg; [ | exact HV ].
  assert (Hne : G_WHOLE <> g).
  { intros <-. exact (classify_group_not_whole _ _ Hcap Hg). }
  destruct HV as (H1 & H2 & H3 & H4 & H5).
  repeat match goal with
         | |- context [if ?c then _ else _] => destruct c
         end;
    unfold bucket_empty; simpl;
    rewrite ?(vec_push_other _ _ _ _ Hne); auto.
Qed.

Lemma collect_vecs_whole_empty cap f :
  In cap fixed_widths -> bucket_empty (collect_vecs cap f) G_WHOLE.
Proof.
  intros Hcap. unfold collect_vecs.
  assert (H0 : bucket_empty vecs_init G_WHOLE) by (repeat split).
  revert H0. generalize vecs_init. induction (read_lines f) as [ | b l IH];
    intros V HV; simpl; [ exact HV | ].
  apply IH. now apply collect_line_keeps_whole_empty.
Qed.

(** C10. The five fixed widths are tested before the capacity: a sample
    whose size is 1, 256, 4096, 32768 or 65536 goes to the group of that
    width whatever the capacity is, and when the capacity is one of these
    widths no sample of any results file reaches the WHOLE bucket, whose
    counts are all 0. *)
Theorem classify_fixed_before_whole :
  forall bytes cap g,
    fixed_group bytes = Some g ->
    classify_group bytes cap = Some g
    /\ (In cap fixed_widths ->
        forall baud results,
          let A := collect_aggregates baud cap results in
          n (read_s A G_WHOLE) = 0 /\ n (write_s A G_WHOLE) = 0
          /\ n (erase_s A G_WHOLE) = 0 /\ n (read_lat_ms A G_WHOLE) = 0
          /\ (forall f, results = Some f ->
                        bucket_empty (collect_vecs cap f) G_WHOLE)).
Proof.
  intros bytes cap g Hg. split; [ now apply classify_group_fixed | ].
  intros Hcap baud results A.
  destruct results as [f | ]; simpl in A.
  - destruct (collect_vecs_whole_empty cap f Hcap) as (H1 & H2 & H3 & H4 & H5).
    subst A; simpl. rewrite H1, H2, H3, H5. simpl.
    repeat (split; [ reflexivity | ]).
    intros f' [= <-]. repeat split; assumption.
  - subst A; simpl. repeat (split; [ reflexivity | ]). discriminate.
Qed.

Lemma classify_fixed_before_whole_witness :
  classify_group 4096 4096 = Some G_4K
  /\ n (erase_s (collect_aggregates 10000000 4096
                   (Some (lit "x,erase,4096,0,46000,0"))) G_WHOLE) = 0.
Proof.
  destruct (classify_fixed_before_whole 4096 4096 G_4K eq_refl) as [H1 H2].
  split; [ exact H1 | ].
  assert (Hin : In 4096 fixed_widths) by (simpl; tauto).
  exact (proj1 (proj2 (proj2
           (H2 Hin 10000000 (Some (lit "x,erase,4096,0,46000,0")))))).
Defined.

(** * Looking up the rows of the report *)

Lemma has_title_eq title o : has_title title o = title_is title (item_title o).
Proof. reflexivity. Qed.

Lemma find_title_skip title l1 l2 :
  existsb (title_is title) (map item_title l1) = false ->
  find (has_title title) (l1 ++ l2) = find (has_title title) l2.
Proof.
  induction l1 as [ | o l1 IH]; simpl; [ reflexivity | ].
  rewrite has_title_eq. intros H. apply orb_false_iff in H. destruct H as [H1 H2].
  rewrite H1. now apply IH.
Qed.

Lemma identity_titles id A :
  map item_title (identity_rows id A)
  = None :: map (fun s => Some (lit s))
      ["detected_jedec"; "chip_model"; "chip_family"; "company";
       "capacity_mbit"; "capacity_bytes"; "spi_sck_MHz"; "units_summary"]%string.
Proof. reflexivity. Qed.

Lemma summary_titles A :
  map item_title (summary_rows A) = flat_map summary_titles_of all_groups.
Proof. reflexivity. Qed.

Lemma has_title_db_mean_row M g g' :
  has_title (db_mean_title g) (db_mean_row M g') = group_eqb g' g.
Proof. destruct g, g'; reflexivity. Qed.

Lemma find_db_mean_row M g rest :
  find (has_title (db_mean_title g)) (map (db_mean_row M) all_groups ++ rest)
  = Some (db_mean_row M g).
Proof.
  unfold all_groups. cbn [map app find].
  rewrite !has_title_db_mean_row. destruct g; reflexivity.
Qed.

Lemma report_db_mean_row rows A match_row jedec cap g :
  find (has_title (db_mean_title g)) (write_report_csv rows A match_row jedec cap)
  = Some (db_mean_row (compute_db_means_closest rows A cap) g).
Proof.
  unfold write_report_csv.
  rewrite find_title_skip
    by (rewrite identity_titles; destruct g; vm_compute; reflexivity).
  rewrite find_title_skip
    by (rewrite summary_titles; destruct g; vm_compute; reflexivity).
  apply find_db_mean_row.
Qed.

(** * SCK unknown *)

Lemma collect_aggregates_sck baud cap results :
  sck_MHz (collect_aggregates baud cap results)
  = F32.div (F32.of_Z baud) F32.f_1e6.
Proof. destruct results; reflexivity. Qed.

Lemma db_read_cell_no_sck rows A g :
  F32.gt (sck_MHz A) F32.zero = false -> db_read_cell rows A g = F32.NAN.
Proof. intros H. unfold db_read_cell. now rewrite H. Qed.

(** C7. When the SPI clock reported by the device is 0, the read column of
    every db_mean row of the report is the literal NA, for every results
    file, every catalogue and every observed JEDEC. *)
Theorem sck_zero_read_db_mean_NA :
  forall inp g,
    in_baud_hz inp = 0 ->
    report_cell (db_mean_title g) ColRead (report_generate_csv inp)
    = Some NA_STR.
Proof.
  intros inp g Hz. unfold report_generate_csv, report_of_rows, report_cell.
  rewrite report_db_mean_row. cbn [option_map db_mean_row write_three_cols_f
    write_three_cols item_cell compute_db_means_closest db_read].
  rewrite db_read_cell_no_sck; [ reflexivity | ].
  rewrite collect_aggregates_sck, Hz. reflexivity.
Qed.

Lemma sck_zero_read_db_mean_NA_witness :
  n (read_s (collect_aggregates 0 0 (Some sample_reads)) G_4K) = 3
  /\ report_cell (db_mean_title G_4K) ColRead
       (report_generate_csv
          (mk_inputs (Some sample_catalogue) (Some sample_reads)
             (lit "BF 26 41") 0))
     = Some NA_STR.
Proof.
  split; [ vm_compute; reflexivity | ].
  apply sck_zero_read_db_mean_NA. reflexivity.
Defined.

(** * The final guess without samples *)

Lemma cstr_eqb_eq a b : cstr_eqb a b = true <-> a = b.
Proof.
  revert b. induction a as [ | x a IH]; intros [ | y b]; simpl;
    try (split; [ discriminate | discriminate ]); try tauto.
  rewrite andb_true_iff, Ascii.eqb_eq, IH. split.
  - intros [-> ->]. reflexivity.
  - intros [= -> ->]. tauto.
Qed.

Lemma cstr_eqb_refl a : cstr_eqb a a = true.
Proof. now apply cstr_eqb_eq. Qed.

Lemma report_generate_csv_unfold inp :
  report_generate_csv inp
  = write_report_csv (inputs_rows inp) (inputs_agg inp) (inputs_match_row inp)
      (inputs_jedec inp) (inputs_capacity inp).
Proof. reflexivity. Qed.

Lemma final_block_report rows A match_row jedec cap :
  final_block (write_report_csv rows A match_row jedec cap)
  = Text (final_line (final_guess rows A match_row jedec cap)).
Proof.
  unfold write_report_csv, final_block, closing_rows.
  rewrite !app_assoc.
  match goal with
  | |- last (?l ++ [?a; ?b; ?c; ?d; ?e]) _ = _ =>
      change (l ++ [a; b; c; d; e]) with (l ++ [a; b; c; d] ++ [e]);
      rewrite (app_assoc l [a; b; c; d] [e]); apply last_last
  end.
Qed.

Lemma final_guess_no_meas rows A match_row jedec cap :
  any_meas A = false -> nonempty jedec = true ->
  final_guess rows A match_row jedec cap
  = match match_row with
    | Some r => mk_final jedec (or_na (chip_model r)) (or_na (company r))
                  (lit "0.000")
    | None => mk_final jedec NA_STR NA_STR (lit "0.000")
    end.
Proof.
  intros Hm Hj. unfold final_guess.
  destruct (pick_best_candidate rows A jedec cap) as [[best sc] used].
  rewrite Hm, Hj. reflexivity.
Qed.

(** [find_match_row] returns the first row that has the JEDEC *)
Lemma find_match_row_found rows jedec r :
  nonempty jedec = true -> first_with_jedec rows jedec r ->
  find_match_row rows jedec = Some r.
Proof.
  intros Hj (pre & post & -> & E & Hpre). unfold find_match_row.
  rewrite Hj, length_app. cbn [length andb].
  replace (0 <? Z.of_nat (length pre + S (length post))) with true
    by (symmetry; apply Z.ltb_lt; lia).
  induction Hpre as [ | r' pre Hr' _ IH]; cbn [app find].
  - now rewrite E, Hj, cstr_eqb_refl.
  - destruct (cstr_eqb (jedec_norm r') jedec) eqn:Ee.
    + apply cstr_eqb_eq in Ee. contradiction.
    + rewrite andb_false_r. exact IH.
Qed.

Lemma find_match_row_none rows jedec :
  no_row_with_jedec rows jedec -> find_match_row rows jedec = None.
Proof.
  unfold find_match_row, no_row_with_jedec. intros H.
  destruct (nonempty jedec && _); [ | reflexivity ].
  induction H as [ | r' rows Hr' _ IH]; cbn [find]; [ reflexivity | ].
  destruct (cstr_eqb (jedec_norm r') jedec) eqn:Ee.
  - apply cstr_eqb_eq in Ee. contradiction.
  - rewrite andb_false_r. exact IH.
Qed.

(** a catalogue has a first row with a given JEDEC, or no row with it *)
Lemma first_with_jedec_dec rows jedec :
  (exists r, first_with_jedec rows jedec r) \/ no_row_with_jedec rows jedec.
Proof.
  unfold no_row_with_jedec.
  induction rows as [ | r' rows [(r & pre & post & -> & E & Hpre) | Hno]].
  - right. constructor.
  - destruct (cstr_eqb (jedec_norm r') jedec) eqn:Ee.
    + apply cstr_eqb_eq in Ee. left. exists r', [], (pre ++ r :: post).
      repeat split; [ assumption | constructor ].
    + left. exists r, (r' :: pre), post.
      repeat split; [ assumption | constructor; [ | assumption ] ].
      intros Hc. apply cstr_eqb_eq in Hc. congruence.
  - destruct (cstr_eqb (jedec_norm r') jedec) eqn:Ee.
    + apply cstr_eqb_eq in Ee. left. exists r', [], rows.
      repeat split; [ assumption | constructor ].
    + right. constructor; [ | assumption ].
      intros Hc. apply cstr_eqb_eq in Hc. congruence.
Qed.

(** C2 (as the code has it). When no bucket has a sample and the observed
    JEDEC is known, the value row of the final-guess block is the observed
    JEDEC, a model, a company and the score 0.000.  Model and company are
    those of the first catalogue row with that JEDEC, whatever the rows
    before and after it (NA for an empty text); both are the literal NA when
    no catalogue row has it; and one of the two cases holds. *)
Theorem final_guess_without_samples :
  forall inp,
    any_meas (inputs_agg inp) = false ->
    nonempty (inputs_jedec inp) = true ->
    (forall r,
        first_with_jedec (inputs_rows inp) (inputs_jedec inp) r ->
        inputs_match_row inp = Some r
        /\ final_block (report_generate_csv inp)
           = Text (final_line
                     (mk_final (inputs_jedec inp) (or_na (chip_model r))
                        (or_na (company r)) (lit "0.000"))))
    /\ (no_row_with_jedec (inputs_rows inp) (inputs_jedec inp) ->
        inputs_match_row inp = None
        /\ final_block (report_generate_csv inp)
           = Text (final_line
                     (mk_final (inputs_jedec inp) NA_STR NA_STR (lit "0.000"))))
    /\ ((exists r, first_with_jedec (inputs_rows inp) (inputs_jedec inp) r)
        \/ no_row_with_jedec (inputs_rows inp) (inputs_jedec inp)).
Proof.
  intros inp Hm Hj.
  assert (E : final_block (report_generate_csv inp)
              = Text (final_line
                  match inputs_match_row inp with
                  | Some r => mk_final (inputs_jedec inp) (or_na (chip_model r))
                                (or_na (company r)) (lit "0.000")
                  | None => mk_final (inputs_jedec inp) NA_STR NA_STR
                              (lit "0.000")
                  end)).
  { rewrite report_generate_csv_unfold, final_block_report.
    now rewrite final_guess_no_meas. }
  split; [ | split ].
  - intros r Hr.
    pose proof (find_match_row_found _ _ r Hj Hr) as Hf.
    fold (inputs_match_row inp) in Hf. rewrite Hf in E. now split.
  - intros Hno.
    pose proof (find_match_row_none _ _ Hno) as Hf.
    fold (inputs_match_row inp) in Hf. rewrite Hf in E. now split.
  - apply first_with_jedec_dec.
Qed.

Lemma final_guess_without_samples_witness :
  map chip_model (inputs_rows inputs_jedec_twice)
  = [lit "W25Q16"; lit "MX25L"; lit "KH25L"]
  /\ map jedec_norm (inputs_rows inputs_jedec_twice)
     = [lit "EF4015"; lit "C21F17"; lit "C21F17"]
  /\ inputs_match_row inputs_jedec_twice
     = nth_error (inputs_rows inputs_jedec_twice) 1
  /\ final_block (report_generate_csv inputs_jedec_twice)
     = Text (lit "C21F17,MX25L,Macronix,0.000" ++ [LF]).
Proof.
  split; [ vm_compute; reflexivity | ].
  split; [ vm_compute; reflexivity | ].
  assert (Hfirst : first_with_jedec (inputs_rows inputs_jedec_twice)
                     (inputs_jedec inputs_jedec_twice)
                     (nth 1 (inputs_rows inputs_jedec_twice) row_default)).
  { exists [nth 0 (inputs_rows inputs_jedec_twice) row_default],
      [nth 2 (inputs_rows inputs_jedec_twice) row_default].
    split; [ vm_compute; reflexivity | ].
    split; [ vm_compute; reflexivity | ].
    constructor; [ vm_compute; discriminate | constructor ]. }
  destruct (proj1 (final_guess_without_samples inputs_jedec_twice
                     eq_refl eq_refl) _ Hfirst) as [Hrow Hline].
  split.
  - rewrite Hrow. vm_compute. reflexivity.
  - rewrite Hline. vm_compute. reflexivity.
Defined.

(** C2, the counterexample: with a known JEDEC, no sample and no matching
    catalogue row, the model and company cells are NA, not undecided. *)
Lemma final_guess_unmatched_is_NA :
  any_meas (inputs_agg inputs_jedec_only) = false
  /\ nonempty (inputs_jedec inputs_jedec_only) = true
  /\ inputs_match_row inputs_jedec_only = None
  /\ final_m (inputs_final inputs_jedec_only) = NA_STR
  /\ final_c (inputs_final inputs_jedec_only) = NA_STR
  /\ final_m (inputs_final inputs_jedec_only) <> UNDECIDED
  /\ final_c (inputs_final inputs_jedec_only) <> UNDECIDED
  /\ final_block (report_generate_csv inputs_jedec_only)
     = Text (lit "C21F17,NA,NA,0.000" ++ [LF]).
Proof.
  repeat split; try (vm_compute; reflexivity); vm_compute; discriminate.
Qed.

(** * The formats of the cells *)

Lemma report_titles_eq rows A match_row jedec cap :
  map item_title (write_report_csv rows A match_row jedec cap) = report_titles.
Proof.
  unfold write_report_csv, report_titles.
  rewrite !map_app, identity_titles, summary_titles, !map_map.
  reflexivity.
Qed.

Lemma find_nth (l : list out_t) t k o :
  nth_error l k = Some o ->
  has_title t o = true ->
  existsb (title_is t) (firstn k (map item_title l)) = false ->
  find (has_title t) l = Some o.
Proof.
  revert k. induction l as [ | a l IH]; intros [ | k] Hn Ht He; simpl in *;
    try discriminate.
  - injection Hn as ->. now rewrite Ht.
  - apply orb_false_iff in He. destruct He as [He1 He2].
    rewrite has_title_eq, He1. now apply (IH k).
Qed.

Lemma report_cell_nth rows A match_row jedec cap t c k o :
  nth_error (write_report_csv rows A match_row jedec cap) k = Some o ->
  has_title t o = true ->
  existsb (title_is t) (firstn k report_titles) = false ->
  report_cell t c (write_report_csv rows A match_row jedec cap)
  = Some (item_cell c o).
Proof.
  intros Hn Ht He. unfold report_cell.
  rewrite (find_nth _ t k o Hn Ht); [ reflexivity | ].
  now rewrite report_titles_eq.
Qed.

Ltac cell_at k o :=
  rewrite (report_cell_nth _ _ _ _ _ _ _ k o);
  [ | reflexivity | reflexivity | vm_compute; reflexivity ].

Lemma report_cell_n rows A match_row jedec cap g c :
  report_cell (n_title g) c (write_report_csv rows A match_row jedec cap)
  = Some (i_or_na 32 (n (column_stats A c g))).
Proof.
  destruct g;
    match goal with
    | |- context [n_title ?g] =>
        cell_at (summary_pos g)
          (write_three_cols_i (n_title g) (n (read_lat_ms A g))
             (n (write_s A g)) (n (erase_s A g)))
    end; destruct c; reflexivity.
Qed.

Ltac stat_cell_try j :=
  match goal with
  | |- context [stat_title ?p ?g] =>
      match goal with
      | |- context [f_auto_std_or_na 32 (?f (column_stats ?A _ _))] =>
          cell_at (summary_pos g + j)%nat
            (write_three_cols_f_std (stat_title p g)
               (f (read_lat_ms A g)) (f (write_s A g)) (f (erase_s A g)))
      end
  end.

Lemma report_cell_stat rows A match_row jedec cap g c prefix field :
  In (prefix, field) summary_stats ->
  report_cell (stat_title prefix g) c
    (write_report_csv rows A match_row jedec cap)
  = Some (f_auto_std_or_na 32 (field (column_stats A c g))).
Proof.
  intros Hin. simpl in Hin.
  repeat (destruct Hin as [Hin | Hin];
          [ injection Hin as <- <-; destruct g;
            first [ stat_cell_try 1%nat | stat_cell_try 2%nat
                  | stat_cell_try 3%nat | stat_cell_try 4%nat
                  | stat_cell_try 5%nat | stat_cell_try 6%nat
                  | stat_cell_try 7%nat ];
            destruct c; reflexivity
          | ]).
  contradiction.
Qed.

Lemma report_cell_db_mean rows A match_row jedec cap g c :
  report_cell (db_mean_title g) c (write_report_csv rows A match_row jedec cap)
  = Some (f3_or_na 32
            (column_db_mean (compute_db_means_closest rows A cap) c g)).
Proof.
  unfold report_cell. rewrite report_db_mean_row. destruct c; reflexivity.
Qed.




(** ** The conversions *)

Lemma F32_ne_self v : F32.ne v v = F32.is_nan v.
Proof.
  unfold F32.ne, SFeqb. destruct v as [s | s | | s m e]; simpl;
    try (destruct s; reflexivity); try reflexivity.
  destruct s; rewrite Z.compare_refl, Pos.compare_cont_refl; reflexivity.
Qed.




















(** an erase sample of 4e38 microseconds is read as infinity: the cells of
    its statistics hold inf, with no decimals *)
Example infinite_cell_has_no_decimals :
  report_cell (stat_title "avg_" G_4K) ColErase
    (report_generate_csv inputs_erase_inf)
  = Some (lit "inf")
  /\ report_cell (stat_title "max_" G_4K) ColErase
       (report_generate_csv inputs_erase_inf)
     = Some (lit "inf")
  /\ decimals_of (lit "inf") = 0%nat.
Proof. repeat split; vm_compute; reflexivity. Qed.

(** an erase sample of 1e38 microseconds is finite, and the text of its
    average with three decimals is longer than the buffer: the cell is cut
    before the point *)
Example long_cell_is_cut :
  F32.is_finite (mean (column_stats (inputs_agg inputs_erase_huge)
                         ColErase G_4K)) = true
  /\ fmt_fixed 3 (mean (column_stats (inputs_agg inputs_erase_huge)
                          ColErase G_4K))
     = lit "99999994188327561679933120182222848.000"
  /\ report_cell (stat_title "avg_" G_4K) ColErase
       (report_generate_csv inputs_erase_huge)
     = Some (lit "9999999418832756167993312018222")
  /\ decimals_of (lit "9999999418832756167993312018222") = 0%nat.
Proof. repeat split; vm_compute; reflexivity. Qed.


(** * The order of the floats *)

Ltac float_order :=
  unfold F32.lt, F32.le, F32.gt, F32.ge, SFltb, SFleb, SFeqb, SFcompare;
  repeat match goal with
         | x : float |- _ => destruct x as [[ | ] | [ | ] | | [ | ] ? ?]
         | x : spec_float |- _ => destruct x as [[ | ] | [ | ] | | [ | ] ? ?]
         end;
  simpl; try discriminate; try reflexivity; try tauto;
  change (Pos.compare_cont Eq) with Pos.compare;
  repeat match goal with
         | |- context [Z.compare ?a ?b] => destruct (Z.compare_spec a b)
         | |- context [Pos.compare ?a ?b] => destruct (Pos.compare_spec a b)
         end;
  simpl; intros; subst; try discriminate; try reflexivity; try tauto; try lia.

Lemma F32_lt_irrefl a : F32.lt a a = false.
Proof. float_order. Qed.

Lemma F32_lt_trans a b c :
  F32.lt a b = true -> F32.lt b c = true -> F32.lt a c = true.
Proof. float_order. Qed.

Lemma F32_lt_le a b : F32.lt a b = true -> F32.le a b = true.
Proof. float_order. Qed.

(** [a] is not below [c], and [b] is: then [a] is not below or equal [b] *)
Lemma F32_not_lt_lt a b c :
  F32.lt a c = false -> F32.lt b c = true -> F32.le a b = false.
Proof. float_order. Qed.

Lemma F32_not_lt_lt_lt a b c :
  F32.lt a c = false -> F32.lt b c = true -> F32.lt a b = false.
Proof.
  intros H1 H2. destruct (F32.lt a b) eqn:E; [ | reflexivity ].
  apply F32_lt_le in E. now rewrite (F32_not_lt_lt a b c H1 H2) in E.
Qed.

(** * The closest-row search *)

Section Closest.

Variable pred_of : db_row_t -> option float.
Variable meanv : float.

Lemma closest_at_snoc_none P r i p :
  pred_of r = None ->
  closest_at pred_of meanv P i p -> closest_at pred_of meanv (P ++ [r]) i p.
Proof.
  intros Hr ([r0 [Hn Hp]] & Hlt & Hmin & Hfirst).
  assert (Hi : (i < length P)%nat) by (apply nth_error_Some; congruence).
  assert (Hold : forall j r', nth_error (P ++ [r]) j = Some r' ->
                   forall p', pred_of r' = Some p' -> nth_error P j = Some r').
  { intros j r' Hj p' Hp'. destruct (Nat.lt_ge_cases j (length P)) as [Hl | Hl].
    - now rewrite nth_error_app1 in Hj by assumption.
    - rewrite nth_error_app2 in Hj by assumption.
      destruct (j - length P)%nat as [ | k]; simpl in Hj.
      + injection Hj as <-. congruence.
      + destruct k; discriminate. }
  repeat split.
  - exists r0. rewrite nth_error_app1 by assumption. now split.
  - assumption.
  - intros j r' p' Hj Hp'. apply (Hmin j r' p'); [ exact (Hold j r' Hj p' Hp') | exact Hp' ].
  - intros j r' p' Hji Hj Hp'.
    apply (Hfirst j r' p'); [ exact Hji | exact (Hold j r' Hj p' Hp') | exact Hp' ].
Qed.

Lemma closest_step_inv P r b :
  closest_inv pred_of meanv P b ->
  closest_inv pred_of meanv (P ++ [r])
    match pred_of r with
    | Some pred => closest_step meanv b (Z.of_nat (length P)) pred
    | None => b
    end.
Proof.
  intros Hinv. destruct (pred_of r) as [p | ] eqn:Hr.
  - (* the row has a prediction *)
    assert (Hnew : forall bd,
              F32.lt (abs_diff meanv p) bd = true ->
              F32.lt (abs_diff meanv p) F32.f_1e9 = true ->
              (forall j r' p', nth_error P j = Some r' -> pred_of r' = Some p' ->
                               F32.lt (abs_diff meanv p') bd = false) ->
              closest_at pred_of meanv (P ++ [r]) (length P) p).
    { intros bd Hlt H9 Hall.
      assert (Hcase : forall j r' p',
                nth_error (P ++ [r]) j = Some r' -> pred_of r' = Some p' ->
                (nth_error P j = Some r' /\ (j < length P)%nat)
                \/ (j = length P /\ p' = p)).
      { intros j r' p' Hj Hp'.
        destruct (Nat.lt_ge_cases j (length P)) as [Hl | Hl].
        - left. rewrite nth_error_app1 in Hj by assumption. now split.
        - right. rewrite nth_error_app2 in Hj by assumption.
          destruct (j - length P)%nat as [ | k] eqn:Ek; simpl in Hj.
          + injection Hj as <-. split; [ lia | congruence ].
          + destruct k; discriminate. }
      repeat split.
      - exists r. rewrite nth_error_app2, Nat.sub_diag by lia. now split.
      - assumption.
      - intros j r' p' Hj Hp'.
        destruct (Hcase j r' p' Hj Hp') as [[Hj' _] | [_ ->]].
        + apply (F32_not_lt_lt_lt _ _ bd); [ exact (Hall j r' p' Hj' Hp') | exact Hlt ].
        + apply F32_lt_irrefl.
      - intros j r' p' Hji Hj Hp'.
        destruct (Hcase j r' p' Hj Hp') as [[Hj' _] | [Hj' _]]; [ | lia ].
        apply (F32_not_lt_lt _ _ bd); [ exact (Hall j r' p' Hj' Hp') | exact Hlt ]. }
    destruct Hinv as [[-> Hnone] | (i & p0 & -> & Hat)]; unfold closest_step;
      cbn [best_init];
      fold (abs_diff meanv p).
    + destruct (F32.lt (abs_diff meanv p) F32.f_1e9) eqn:Hlt.
      * right. exists (length P), p. split; [ reflexivity | ].
        apply (Hnew F32.f_1e9); auto.
        intros j r' p' Hj Hp'. eapply Hnone; eauto using nth_error_In.
      * left. split; [ reflexivity | ].
        intros r' p' Hin Hp'. apply in_app_or in Hin.
        destruct Hin as [Hin | [<- | []]]; [ eapply Hnone; eauto | congruence ].
    + destruct Hat as ([r0 [Hn Hp0]] & H9 & Hmin & Hfirst).
      destruct (F32.lt (abs_diff meanv p) (abs_diff meanv p0)) eqn:Hlt.
      * right. exists (length P), p. split; [ reflexivity | ].
        apply (Hnew (abs_diff meanv p0)); auto.
        eapply F32_lt_trans; eauto.
      * right. exists i, p0. split; [ reflexivity | ].
        assert (Hi : (i < length P)%nat) by (apply nth_error_Some; congruence).
        repeat split.
        -- exists r0. rewrite nth_error_app1 by assumption. now split.
        -- assumption.
        -- intros j r' p' Hj Hp'.
           destruct (Nat.lt_ge_cases j (length P)) as [Hl | Hl].
           ++ rewrite nth_error_app1 in Hj by assumption. exact (Hmin j r' p' Hj Hp').
           ++ rewrite nth_error_app2 in Hj by assumption.
              destruct (j - length P)%nat as [ | k]; simpl in Hj.
              ** injection Hj as <-. congruence.
              ** destruct k; discriminate.
        -- intros j r' p' Hji Hj Hp'.
           rewrite nth_error_app1 in Hj by lia. exact (Hfirst j r' p' Hji Hj Hp').
  - (* the row is skipped *)
    destruct Hinv as [[-> Hnone] | (i & p0 & -> & Hat)].
    + left. split; [ reflexivity | ].
      intros r' p' Hin Hp'. apply in_app_or in Hin.
      destruct Hin as [Hin | [<- | []]]; [ eapply Hnone; eauto | congruence ].
    + right. exists i, p0. split; [ reflexivity | ].
      now apply closest_at_snoc_none.
Qed.

Lemma closest_loop_inv rest : forall P b,
  closest_inv pred_of meanv P b ->
  closest_inv pred_of meanv (P ++ rest)
    (closest_loop pred_of meanv rest (Z.of_nat (length P)) b).
Proof.
  induction rest as [ | r rest IH]; intros P b Hinv; simpl.
  - now rewrite app_nil_r.
  - replace (P ++ r :: rest) with ((P ++ [r]) ++ rest)
      by (rewrite <- app_assoc; reflexivity).
    replace (Z.of_nat (length P) + 1) with (Z.of_nat (length (P ++ [r])))
      by (rewrite length_app; simpl; lia).
    apply IH. now apply closest_step_inv.
Qed.

(** the search from the first row: either nothing lies within the bound and
    the state is the initial one, or the state is the first closest row *)
Lemma closest_loop_spec rows :
  closest_inv pred_of meanv rows (closest_loop pred_of meanv rows 0 best_init).
Proof.
  apply (closest_loop_inv rows [] best_init).
  left. split; [ reflexivity | ]. intros r p [].
Qed.

End Closest.

Lemma closest_loop_ext f f' meanv rows :
  (forall r, f r = f' r) ->
  forall i b, closest_loop f meanv rows i b = closest_loop f' meanv rows i b.
Proof.
  intros Hf. induction rows as [ | r rows IH]; intros i b; simpl;
    [ reflexivity | ].
  now rewrite Hf, IH.
Qed.

Lemma within_bound_finite meanv p :
  F32.lt (abs_diff meanv p) F32.f_1e9 = true -> F32.is_finite p = true.
Proof.
  destruct p as [s | [ | ] | | s m e]; try reflexivity; intros H; exfalso;
    destruct meanv as [[ | ] | [ | ] | | [ | ] ? ?];
    vm_compute in H; discriminate.
Qed.

(** what a search leaves: nothing within the bound, or the first closest row *)
Lemma search_result pred_of meanv rows :
  let '(bd, bp, bi) := closest_loop pred_of meanv rows 0 best_init in
  (none_within pred_of meanv rows
   /\ bd = F32.f_1e9 /\ bp = F32.NAN /\ bi = -1)
  \/ (exists i, bi = Z.of_nat i /\ closest_at pred_of meanv rows i bp
                /\ bd = abs_diff meanv bp).
Proof.
  destruct (closest_loop_spec pred_of meanv rows)
    as [[-> Hnone] | (i & p & -> & Hat)].
  - left. repeat split; auto.
  - right. exists i. repeat split; auto; apply Hat.
Qed.

Lemma closest_not_none pred_of meanv rows i p :
  closest_at pred_of meanv rows i p -> none_within pred_of meanv rows -> False.
Proof.
  intros ([r [Hn Hp]] & Hlt & _) Hnone.
  rewrite (Hnone r p (nth_error_In _ _ Hn) Hp) in Hlt. discriminate.
Qed.

Lemma none_within_ext f f' meanv rows :
  (forall r, f r = f' r) ->
  none_within f meanv rows -> none_within f' meanv rows.
Proof. intros Hf H r p Hin Hp. apply (H r p Hin). now rewrite Hf. Qed.

Lemma closest_at_ext f f' meanv rows i p :
  (forall r, f r = f' r) ->
  closest_at f meanv rows i p -> closest_at f' meanv rows i p.
Proof.
  intros Hf ([r [Hn Hp]] & Hlt & Hmin & Hfirst). repeat split.
  - exists r. split; [ exact Hn | now rewrite <- Hf ].
  - exact Hlt.
  - intros j r' p' Hj Hp'. apply (Hmin j r' p' Hj). now rewrite Hf.
  - intros j r' p' Hji Hj Hp'. apply (Hfirst j r' p' Hji Hj). now rewrite Hf.
Qed.

(** the value of a cell from the search over the predictions of the cell *)
Lemma db_cell_value rows A cap c g :
  let v := column_db_mean (compute_db_means_closest rows A cap) c g in
  let pred_of := cell_pred c A cap g in
  let meanv := mean (match_stats A c g) in
  (v = F32.NAN
   /\ (0 < n (match_stats A c g) -> none_within pred_of meanv rows))
  \/ (0 < n (match_stats A c g)
      /\ exists i, closest_at pred_of meanv rows i v).
Proof.
  intros v pred_of meanv.
  destruct (0 <? n (match_stats A c g)) eqn:Hn.
  2:{ left. split; [ | intros H; apply Z.ltb_ge in Hn; lia ].
      subst v. destruct c; cbn -[F32.gt F32.lt closest_loop];
        unfold db_read_cell, db_write_cell, db_erase_cell;
        cbn [match_stats] in Hn; rewrite Hn; simpl;
        try reflexivity.
      destruct (F32.gt (sck_MHz A) F32.zero); reflexivity. }
  apply Z.ltb_lt in Hn.
  destruct c; subst v pred_of meanv;
    cbn [column_db_mean compute_db_means_closest db_read db_write db_erase
         match_stats cell_pred] in *.
  - (* read *)
    unfold db_read_cell, db_read_search.
    destruct (F32.gt (sck_MHz A) F32.zero) eqn:Hs.
    + apply Z.ltb_lt in Hn. rewrite Hn. cbn [negb]. apply Z.ltb_lt in Hn.
      pose proof (search_result (read_pred (sck_MHz A))
                    (mean (read_s A g)) rows) as H.
      destruct (closest_loop _ _ rows 0 best_init) as [[bd bp] bi].
      destruct H as [(Hnone & -> & -> & ->) | (i & -> & Hat & ->)].
      * left. split; [ reflexivity | ]. intros _.
        apply (none_within_ext (read_pred (sck_MHz A))); [ | exact Hnone ].
        intros r. cbn [cell_pred]. now rewrite Hs.
      * right. split; [ exact Hn | ]. exists i.
        replace (0 <=? Z.of_nat i) with true by (symmetry; apply Z.leb_le; lia).
        apply (closest_at_ext (read_pred (sck_MHz A))); [ | exact Hat ].
        intros r. cbn [cell_pred]. now rewrite Hs.
    + left. split; [ reflexivity | ]. intros _ r p _ Hp.
      cbn [cell_pred] in Hp. rewrite Hs in Hp. discriminate.
  - (* write *)
    unfold db_write_cell.
    apply Z.ltb_lt in Hn. rewrite Hn. cbn [negb]. apply Z.ltb_lt in Hn.
    destruct (group_eqb g G_WHOLE && (group_bytes g cap =? 0)) eqn:Hw;
      cbn [orb].
    { left. split; [ reflexivity | ]. intros _ r p _ Hp.
      cbn [cell_pred] in Hp. rewrite Hw in Hp. discriminate. }
    destruct (pages_of (group_bytes g cap) =? 0) eqn:Hp0.
    { left. split; [ reflexivity | ]. intros _ r p _ Hp.
      cbn [cell_pred] in Hp. rewrite Hw, Hp0 in Hp. discriminate. }
    assert (Hext : forall r, write_pred (pages_of (group_bytes g cap)) r
                             = cell_pred ColWrite A cap g r)
      by (intros r; cbn [cell_pred]; now rewrite Hw, Hp0).
    pose proof (search_result (write_pred (pages_of (group_bytes g cap)))
                  (mean (write_s A g)) rows) as H.
    destruct (closest_loop _ _ rows 0 best_init) as [[bd bp] bi].
    destruct H as [(Hnone & -> & -> & ->) | (i & -> & Hat & ->)].
    + left. split; [ reflexivity | ]. intros _.
      exact (none_within_ext _ _ _ _ Hext Hnone).
    + right. split; [ exact Hn | ]. exists i.
      pose proof Hat as (_ & H2 & _). rewrite H2.
      exact (closest_at_ext _ _ _ _ _ _ Hext Hat).
  - (* erase *)
    unfold db_erase_cell.
    apply Z.ltb_lt in Hn. rewrite Hn. cbn [negb]. apply Z.ltb_lt in Hn.
    pose proof (search_result (erase_pred g) (mean (erase_s A g)) rows) as H.
    destruct (closest_loop _ _ rows 0 best_init) as [[bd bp] bi].
    destruct H as [(Hnone & -> & -> & ->) | (i & -> & Hat & ->)].
    + left. split; [ reflexivity | ]. intros _. exact Hnone.
    + right. split; [ exact Hn | ]. exists i.
      pose proof Hat as (_ & H2 & _). rewrite H2. exact Hat.
Qed.

(** C1 (as the code has it). For every cell (operation, group): when the
    bucket has samples and some catalogue row has a prediction for the cell
    that differs from the observed mean by less than 1e9, the bound with
    which the search starts, the db_mean value is finite and is the
    prediction of a catalogue row: the first row, in catalogue order, among
    those whose prediction is closest to the mean.  When the bucket is empty
    or no prediction lies within the bound, the value is absent and the cell
    is NA.  The cell of the report prints that value with [f3_or_na]. *)
Theorem db_mean_is_first_closest :
  forall rows A cap c g,
    let S := match_stats A c g in
    let pred_of := cell_pred c A cap g in
    let v := column_db_mean (compute_db_means_closest rows A cap) c g in
    (0 < n S ->
     (exists r p, In r rows /\ pred_of r = Some p
                  /\ F32.lt (abs_diff (mean S) p) F32.f_1e9 = true) ->
     F32.is_finite v = true /\ exists i, closest_at pred_of (mean S) rows i v)
    /\ (n S <= 0 \/ none_within pred_of (mean S) rows ->
        v = F32.NAN /\ f3_or_na 32 v = NA_STR)
    /\ (forall match_row jedec,
          report_cell (db_mean_title g) c
            (write_report_csv rows A match_row jedec cap)
          = Some (f3_or_na 32 v)).
Proof.
  intros rows A cap c g S pred_of v.
  pose proof (db_cell_value rows A cap c g) as H. cbv zeta in H.
  fold S pred_of v in H.
  split; [ | split ].
  - intros Hn (r & p & Hin & Hp & Hlt).
    destruct H as [[_ Hnone] | [_ [i Hat]]].
    + rewrite (Hnone Hn r p Hin Hp) in Hlt. discriminate.
    + split; [ | now exists i ].
      destruct Hat as (_ & H9 & _). exact (within_bound_finite _ _ H9).
  - intros Hcase. destruct H as [[-> _] | [Hn [i Hat]]].
    + split; reflexivity.
    + destruct Hcase as [Hle | Hnone]; [ lia | ].
      destruct (closest_not_none _ _ _ _ _ Hat Hnone).
  - intros match_row jedec. apply report_cell_db_mean.
Qed.

Lemma db_mean_is_first_closest_witness :
  map (cell_pred ColErase sample_erase_agg 0 G_4K) rows_tie
  = [Some (F32.of_Z 400); Some (F32.of_Z 48); Some (F32.of_Z 45)]
  /\ abs_diff (mean (match_stats sample_erase_agg ColErase G_4K)) (F32.of_Z 48)
     = abs_diff (mean (match_stats sample_erase_agg ColErase G_4K)) (F32.of_Z 45)
  /\ (F32.is_finite
        (column_db_mean (compute_db_means_closest rows_tie sample_erase_agg 0)
           ColErase G_4K) = true
      /\ exists i,
           closest_at (cell_pred ColErase sample_erase_agg 0 G_4K)
             (mean (match_stats sample_erase_agg ColErase G_4K)) rows_tie i
             (column_db_mean (compute_db_means_closest rows_tie sample_erase_agg 0)
                ColErase G_4K))
  /\ column_db_mean (compute_db_means_closest rows_tie sample_erase_agg 0)
       ColErase G_4K = F32.of_Z 48
  /\ report_cell (db_mean_title G_4K) ColErase (report_generate_csv inputs_tie)
     = Some (lit "48.000").
Proof.
  split; [ vm_compute; reflexivity | ].
  split; [ vm_compute; reflexivity | ].
  split; [ | split; vm_compute; reflexivity ].
  apply (proj1 (db_mean_is_first_closest rows_tie sample_erase_agg 0
                  ColErase G_4K)).
  - vm_compute. reflexivity.
  - exists (nth 2 rows_tie row_default), (F32.of_Z 45).
    split; [ apply nth_In; vm_compute; lia | ].
    split; vm_compute; reflexivity.
Defined.

(** C1, the counterexample: the erase bucket of 4096 bytes has two samples
    and the only catalogue row carries a 4 KB erase time, 3e9 ms; the cell
    is NA. *)
Lemma db_mean_NA_beyond_bound :
  n (erase_s (inputs_agg inputs_far_catalogue) G_4K) = 2
  /\ map (fun r => F32.gt (typ_4k_ms r) F32.zero)
       (inputs_rows inputs_far_catalogue) = [true]
  /\ report_cell (db_mean_title G_4K) ColErase
       (report_generate_csv inputs_far_catalogue)
     = Some NA_STR.
Proof. repeat split; vm_compute; reflexivity. Qed.

(** * The bound on the catalogue *)

Lemma load_rows_firstn ix max_rows bufs : forall n,
  load_rows ix max_rows n bufs
  = firstn (Z.to_nat (max_rows - n)) (all_rows ix bufs).
Proof.
  induction bufs as [ | buf rest IH]; intros n; simpl.
  - now rewrite firstn_nil.
  - destruct (n <? max_rows) eqn:Hn; simpl.
    + apply Z.ltb_lt in Hn. destruct (parse_row ix buf) as [r | ]; simpl.
      * replace (Z.to_nat (max_rows - n))
          with (S (Z.to_nat (max_rows - (n + 1)))) by lia.
        simpl. now rewrite IH.
      * apply IH.
    + apply Z.ltb_ge in Hn.
      replace (Z.to_nat (max_rows - n)) with 0%nat by lia. reflexivity.
Qed.

Lemma load_database_firstn db max_rows :
  load_database db max_rows
  = firstn (Z.to_nat max_rows) (catalogue_rows db).
Proof.
  destruct db as [f | ]; simpl; [ | now rewrite firstn_nil ].
  destruct (read_lines f) as [ | head bufs]; [ now rewrite firstn_nil | ].
  rewrite load_rows_firstn. now rewrite Z.sub_0_r.
Qed.

(** C9. The loader keeps the first 512 parseable data rows of the catalogue
    and no more, without signalling anything: the table is the list of the
    first 512 rows, and two catalogues whose first 512 parseable rows are the
    same give the same report, whatever rows follow. *)
Theorem catalogue_rows_after_512_ignored :
  forall inp db',
    firstn 512 (catalogue_rows (in_db inp)) = firstn 512 (catalogue_rows db') ->
    (length (inputs_rows inp) <= 512)%nat
    /\ inputs_rows inp = firstn 512 (catalogue_rows (in_db inp))
    /\ report_generate_csv inp = report_generate_csv (with_db inp db').
Proof.
  intros inp db' H.
  assert (E : forall d, load_database d MAX_DB_ROWS
                        = firstn 512 (catalogue_rows d))
    by (intros d; apply load_database_firstn).
  split; [ | split ].
  - unfold inputs_rows. rewrite E. apply firstn_le_length.
  - apply E.
  - unfold report_generate_csv. simpl in_db. rewrite !E, H. reflexivity.
Qed.

Lemma catalogue_rows_after_512_ignored_witness :
  length (catalogue_rows (Some catalogue_513)) = 513%nat
  /\ report_generate_csv inputs_513
     = report_generate_csv (with_db inputs_513 (Some catalogue_512)).
Proof.
  split; [ vm_compute; reflexivity | ].
  apply (catalogue_rows_after_512_ignored inputs_513 (Some catalogue_512)).
  vm_compute. reflexivity.
Defined.

(** * Reading lines *)

Lemma fatfs_gets_loop_shorter len : forall fp buf buf' rest,
  fatfs_gets_loop len fp buf = (buf', rest) ->
  (length rest <= length fp)%nat
  /\ (fp <> [] -> (length rest < length fp)%nat)
  /\ (fp = [] -> buf' = buf).
Proof.
  induction fp as [ | ch fp IH]; intros buf buf' rest H; simpl in H.
  - injection H as <- <-. repeat split; auto. congruence.
  - destruct (Ascii.eqb ch LF).
    + injection H as <- <-. simpl. repeat split; try lia. discriminate.
    + apply IH in H. destruct H as (H1 & _ & _). simpl.
      repeat split; try lia. discriminate.
Qed.

Lemma fatfs_gets_shorter len fp buf rest :
  fatfs_gets len fp = (true, buf, rest) -> (length rest < length fp)%nat.
Proof.
  unfold fatfs_gets. destruct (len <=? 1)%nat; [ discriminate | ].
  destruct (fatfs_gets_loop len fp []) as [b r] eqn:E.
  intros [= Hb <- <-]. apply fatfs_gets_loop_shorter in E.
  destruct E as (_ & H2 & H3). apply H2. intros ->.
  rewrite (H3 eq_refl) in Hb. discriminate.
Qed.

Lemma fatfs_gets_nil len : fst (fst (fatfs_gets len [])) = false.
Proof. unfold fatfs_gets. destruct (len <=? 1)%nat; reflexivity. Qed.

Lemma read_lines_fuel_enough : forall k m fp,
  (length fp <= k)%nat -> (length fp <= m)%nat ->
  read_lines_fuel k fp = read_lines_fuel m fp.
Proof.
  assert (Hnil : forall j, read_lines_fuel j [] = []).
  { intros [ | j]; [ reflexivity | ]. cbn [read_lines_fuel].
    pose proof (fatfs_gets_nil (Z.to_nat MAX_LINE)) as H.
    destruct (fatfs_gets (Z.to_nat MAX_LINE) []) as [[[ | ] b] r];
      [ discriminate | reflexivity ]. }
  induction k as [ | k IH]; intros m fp Hk Hm.
  - destruct fp; [ | simpl in Hk; lia ]. now rewrite !Hnil.
  - destruct m as [ | m].
    + destruct fp; [ | simpl in Hm; lia ]. now rewrite !Hnil.
    + cbn [read_lines_fuel].
      destruct (fatfs_gets (Z.to_nat MAX_LINE) fp) as [[[ | ] b] r] eqn:E;
        [ | reflexivity ].
      apply fatfs_gets_shorter in E. f_equal. apply IH; lia.
Qed.

(** the reading loop never runs out of fuel: it follows [fatfs_gets] until
    the call that returns 0 *)
Lemma read_lines_unfold fp :
  read_lines fp
  = match fatfs_gets (Z.to_nat MAX_LINE) fp with
    | (true, buf, rest) => buf :: read_lines rest
    | (false, _, _) => []
    end.
Proof.
  unfold read_lines. destruct fp as [ | ch fp].
  - cbn [length read_lines_fuel]. pose proof (fatfs_gets_nil (Z.to_nat MAX_LINE)) as H.
    destruct (fatfs_gets (Z.to_nat MAX_LINE) []) as [[[ | ] b] r];
      [ discriminate | reflexivity ].
  - cbn [length read_lines_fuel].
    destruct (fatfs_gets (Z.to_nat MAX_LINE) (ch :: fp)) as [[[ | ] b] r] eqn:E;
      [ | reflexivity ].
    apply fatfs_gets_shorter in E. simpl in E. f_equal.
    apply read_lines_fuel_enough; lia.
Qed.

Lemma fatfs_gets_loop_line len l rest : forall buf,
  no_lf l ->
  (length buf <= len - 1)%nat ->
  fatfs_gets_loop len (l ++ LF :: rest) buf
  = (buf ++ firstn (len - 1 - length buf) (l ++ [LF]), rest).
Proof.
  induction l as [ | ch l IH]; intros buf Hl Hb; simpl.
  - destruct (Nat.ltb_spec (length buf) (len - 1)) as [Hlt | Hge].
    + replace (len - 1 - length buf)%nat with (S (len - 2 - length buf)) by lia.
      cbn [firstn app]. now rewrite firstn_nil.
    + replace (len - 1 - length buf)%nat with 0%nat by lia.
      now rewrite app_nil_r.
  - assert (Hch : Ascii.eqb ch LF = false).
    { apply Ascii.eqb_neq. intros ->. apply Hl. now left. }
    rewrite Hch.
    assert (Hl' : no_lf l) by (intros Hin; apply Hl; now right).
    destruct (Nat.ltb_spec (length buf) (len - 1)) as [Hlt | Hge].
    + rewrite IH by (try assumption; rewrite length_app; simpl; lia).
      rewrite length_app. simpl.
      replace (len - 1 - length buf)%nat
        with (S (len - 1 - (length buf + 1))) by lia.
      simpl. now rewrite <- app_assoc.
    + rewrite IH by assumption.
      replace (len - 1 - length buf)%nat with 0%nat by lia. reflexivity.
Qed.

Lemma fatfs_gets_line l rest :
  no_lf l ->
  fatfs_gets (Z.to_nat MAX_LINE) (l ++ LF :: rest) = (true, buf_of l, rest).
Proof.
  intros Hl. unfold fatfs_gets.
  change (Z.to_nat MAX_LINE <=? 1)%nat with false. cbv iota.
  rewrite fatfs_gets_loop_line by (try assumption; simpl; lia).
  simpl length. rewrite Nat.sub_0_r. unfold buf_of.
  change (Z.to_nat MAX_LINE - 1)%nat with 511%nat.
  destruct l as [ | c l]; reflexivity.
Qed.

(** the buffers read from a stream of lines *)
Lemma read_lines_stream lines :
  Forall no_lf lines -> read_lines (stream_of lines) = map buf_of lines.
Proof.
  induction 1 as [ | l lines Hl _ IH]; [ reflexivity | ].
  rewrite read_lines_unfold. unfold stream_of. cbn [flat_map].
  rewrite <- app_assoc. change ([LF] ++ ?r) with (LF :: r).
  rewrite fatfs_gets_line by assumption.
  fold (stream_of lines). now rewrite IH.
Qed.

(** * The samples are ordered values *)

Lemma shr_1_nonneg mrs : 0 <= shr_m mrs -> 0 <= shr_m (shr_1 mrs).
Proof.
  destruct mrs as [m r s]. simpl. destruct m as [ | [p | p | ] | p]; simpl; lia.
Qed.

Lemma iter_pos_nonneg p : forall mrs,
  0 <= shr_m mrs -> 0 <= shr_m (iter_pos shr_1 p mrs).
Proof.
  induction p as [p IH | p IH | ]; intros mrs H; simpl.
  - apply IH, IH. now apply shr_1_nonneg.
  - now apply IH, IH.
  - now apply shr_1_nonneg.
Qed.

Lemma shr_fexp_nonneg m e l :
  0 <= m -> 0 <= shr_m (fst (shr_fexp F32.prec F32.emax m e l)).
Proof.
  intros Hm. unfold shr_fexp, shr.
  assert (H0 : 0 <= shr_m (shr_record_of_loc m l))
    by (destruct l as [ | [ | | ]]; exact Hm).
  destruct (fexp F32.prec F32.emax (Zdigits2 m + e) - e); simpl;
    try exact H0.
  now apply iter_pos_nonneg.
Qed.

Lemma round_nearest_even_nonneg m l : 0 <= m -> 0 <= round_nearest_even m l.
Proof.
  intros Hm. unfold round_nearest_even.
  destruct l as [ | [ | | ]]; try destruct (Z.even m); lia.
Qed.

Lemma binary_round_aux_ordered m e l :
  0 <= m -> ordered (binary_round_aux F32.prec F32.emax false m e l) = true.
Proof.
  intros Hm. unfold binary_round_aux.
  pose proof (shr_fexp_nonneg m e l Hm) as H1.
  destruct (shr_fexp F32.prec F32.emax m e l) as [mrs' e'].
  simpl fst in H1.
  pose proof (shr_fexp_nonneg
                (round_nearest_even (shr_m mrs') (loc_of_shr_record mrs'))
                e' loc_Exact (round_nearest_even_nonneg _ _ H1)) as H2.
  destruct (shr_fexp F32.prec F32.emax _ e' loc_Exact) as [mrs'' e''].
  simpl fst in H2.
  destruct (shr_m mrs'') as [ | q | q]; try reflexivity; [ | lia ].
  destruct (e'' <=? F32.emax - F32.prec); reflexivity.
Qed.

Lemma div_core_nonneg m1 e1 m2 e2 :
  0 < m1 -> 0 < m2 ->
  0 <= fst (fst (SFdiv_core_binary F32.prec F32.emax m1 e1 m2 e2)).
Proof.
  intros H1 H2. unfold SFdiv_core_binary.
  set (s := e1 - e2 - _).
  set (m' := match s with Z0 => m1 | Zpos _ => Z.shiftl m1 s | Zneg _ => 0 end).
  assert (Hm' : 0 <= m').
  { subst m'. destruct s; try lia. apply Z.shiftl_nonneg. lia. }
  pose proof (Z_div_mod m' m2 ltac:(lia)) as Hd.
  destruct (Z.div_eucl m' m2) as [q r]. simpl. nia.
Qed.

(** a positive value divided by a positive finite value *)
Lemma div_ordered x my ey :
  F32.gt x F32.zero = true ->
  ordered (F32.div x (S754_finite false my ey)) = true.
Proof.
  destruct x as [[ | ] | [ | ] | | [ | ] mx ex]; try discriminate;
    intros _; try reflexivity.
  unfold F32.div, SFdiv.
  pose proof (div_core_nonneg (Zpos mx) ex (Zpos my) ey
                ltac:(lia) ltac:(lia)) as H.
  destruct (SFdiv_core_binary F32.prec F32.emax (Z.pos mx) ex (Z.pos my) ey)
    as [[mz ez] lz].
  simpl in H. now apply binary_round_aux_ordered.
Qed.

Lemma gt_zero_ordered x : F32.gt x F32.zero = true -> ordered x = true.
Proof.
  destruct x as [[ | ] | [ | ] | | [ | ] mx ex]; try discriminate; reflexivity.
Qed.

(** on ordered values the comparison is total and antisymmetric *)
Lemma ordered_eq a b :
  ordered a = true -> ordered b = true ->
  F32.lt a b = false -> F32.lt b a = false -> a = b.
Proof.
  unfold F32.lt, SFltb, SFcompare.
  destruct a as [[ | ] | [ | ] | | [ | ] ma ea];
    destruct b as [[ | ] | [ | ] | | [ | ] mb eb];
    simpl; try discriminate; try reflexivity.
  change (Pos.compare_cont Eq) with Pos.compare.
  destruct (Z.compare_spec ea eb), (Z.compare_spec eb ea); try lia;
    try discriminate.
  destruct (Pos.compare_spec ma mb), (Pos.compare_spec mb ma);
    try discriminate; intros; subst; try reflexivity; lia.
Qed.

(** * What one line adds to the vectors *)

Lemma vec_push_app (V : group_t -> list float) g x g' :
  vec_push V g x g' = V g' ++ vec_push (fun _ => []) g x g'.
Proof. unfold vec_push. destruct (group_eqb g' g); simpl; now rewrite ?app_nil_r. Qed.

Lemma vec_push_ordered g x g' :
  ordered x = true -> Forall (fun v => ordered v = true)
                        (vec_push (fun _ => []) g x g').
Proof.
  intros Hx. unfold vec_push. destruct (group_eqb g' g); simpl; auto.
Qed.

Ltac split_ifs :=
  repeat match goal with
         | |- context [if ?c then _ else _] => destruct c eqn:?
         end.

(** each vector after a line is the vector before it followed by what the
    line adds to empty vectors *)
Lemma collect_line_app cap V buf g :
  let V0 := collect_line cap vecs_init buf in
  let V' := collect_line cap V buf in
  v_read V' g = v_read V g ++ v_read V0 g
  /\ v_write V' g = v_write V g ++ v_write V0 g
  /\ v_erase V' g = v_erase V g ++ v_erase V0 g
  /\ v_read_us V' g = v_read_us V g ++ v_read_us V0 g
  /\ v_read_lat_ms V' g = v_read_lat_ms V g ++ v_read_lat_ms V0 g.
Proof.
  unfold collect_line, collect_sample.
  destruct (negb (nonempty (trim (c_str buf)))); [ simpl; now rewrite !app_nil_r | ].
  destruct (_ <? 6)%nat; [ simpl; now rewrite !app_nil_r | ].
  destruct (classify_group _ cap) as [g0 | ]; [ | simpl; now rewrite !app_nil_r ].
  split_ifs; cbn [v_read v_write v_erase v_read_us v_read_lat_ms vecs_init];
    rewrite ?app_nil_r; repeat split; try reflexivity; apply vec_push_app.
Qed.

Lemma collect_line_ordered cap buf g :
  let V0 := collect_line cap vecs_init buf in
  Forall (fun v => ordered v = true) (v_read V0 g)
  /\ Forall (fun v => ordered v = true) (v_write V0 g)
  /\ Forall (fun v => ordered v = true) (v_erase V0 g)
  /\ Forall (fun v => ordered v = true) (v_read_us V0 g)
  /\ Forall (fun v => ordered v = true) (v_read_lat_ms V0 g).
Proof.
  unfold collect_line, collect_sample.
  destruct (negb (nonempty (trim (c_str buf)))); [ simpl; auto | ].
  destruct (_ <? 6)%nat; [ simpl; auto 6 | ].
  destruct (classify_group _ cap) as [g0 | ]; [ | simpl; auto 6 ].
  set (el := parse_float_or _ _).
  split_ifs; cbn [v_read v_write v_erase v_read_us v_read_lat_ms vecs_init];
    repeat split; try apply Forall_nil;
    repeat match goal with
           | H : _ && _ = true |- _ => apply andb_true_iff in H; destruct H
           end;
    apply vec_push_ordered;
    try (apply div_ordered; assumption);
    try (apply gt_zero_ordered; assumption).
Qed.

(** the vectors after a list of buffers *)
Lemma collect_fold_app cap bufs g : forall V,
  let V' := fold_left (collect_line cap) bufs V in
  let add (X : vecs_t -> group_t -> list float) :=
    flat_map (fun buf => X (collect_line cap vecs_init buf) g) bufs in
  v_read V' g = v_read V g ++ add v_read
  /\ v_write V' g = v_write V g ++ add v_write
  /\ v_erase V' g = v_erase V g ++ add v_erase
  /\ v_read_us V' g = v_read_us V g ++ add v_read_us
  /\ v_read_lat_ms V' g = v_read_lat_ms V g ++ add v_read_lat_ms.
Proof.
  induction bufs as [ | buf bufs IH]; intros V; cbn [fold_left flat_map].
  - now rewrite !app_nil_r.
  - destruct (IH (collect_line cap V buf)) as (H1 & H2 & H3 & H4 & H5).
    destruct (collect_line_app cap V buf g) as (E1 & E2 & E3 & E4 & E5).
    cbv zeta in *. rewrite H1, H2, H3, H4, H5, E1, E2, E3, E4, E5.
    now rewrite !app_assoc.
Qed.

Lemma collect_vecs_stream cap lines g :
  Forall no_lf lines ->
  bucket_vectors (collect_vecs cap (stream_of lines)) g
  = map (fun X => flat_map
                    (fun l => X (collect_line cap vecs_init (buf_of l)) g) lines)
      [v_read; v_write; v_erase; v_read_us; v_read_lat_ms].
Proof.
  intros Hl. unfold collect_vecs, bucket_vectors.
  rewrite (read_lines_stream lines Hl).
  destruct (collect_fold_app cap (map buf_of lines) g vecs_init)
    as (H1 & H2 & H3 & H4 & H5).
  cbv zeta in *. rewrite H1, H2, H3, H4, H5. cbn [map vecs_init app].
  now rewrite !flat_map_concat_map, !map_map.
Qed.

Lemma collect_vecs_ordered cap f g :
  Forall (Forall (fun v => ordered v = true))
    (bucket_vectors (collect_vecs cap f) g).
Proof.
  unfold collect_vecs, bucket_vectors.
  destruct (collect_fold_app cap (read_lines f) g vecs_init)
    as (H1 & H2 & H3 & H4 & H5).
  cbv zeta in *. rewrite H1, H2, H3, H4, H5. cbn [vecs_init app].
  repeat constructor;
    (rewrite flat_map_concat_map; apply Forall_concat, Forall_map,
       Forall_forall; intros buf _;
     apply (collect_line_ordered cap buf g)).
Qed.

Lemma collect_vecs_permutation cap lines1 lines2 g :
  Forall no_lf lines1 -> Permutation lines1 lines2 ->
  Forall2 (@Permutation float)
    (bucket_vectors (collect_vecs cap (stream_of lines1)) g)
    (bucket_vectors (collect_vecs cap (stream_of lines2)) g).
Proof.
  intros Hl Hp.
  assert (Hl2 : Forall no_lf lines2) by (eapply Permutation_Forall; eauto).
  rewrite !collect_vecs_stream by assumption.
  cbn [map]. repeat constructor; now apply Permutation_flat_map.
Qed.

(** * Sorting and the extreme values *)

Lemma cmp_float_asc_pos x y : (0 <? cmp_float_asc x y) = F32.lt y x.
Proof.
  unfold cmp_float_asc, F32.gt. change SFltb with F32.lt.
  destruct (F32.lt x y) eqn:E1; destruct (F32.lt y x) eqn:E2; try reflexivity.
  exfalso. pose proof (F32_lt_trans _ _ _ E1 E2) as H.
  rewrite F32_lt_irrefl in H. discriminate.
Qed.

Lemma sort_insert_eq x y r :
  sort_insert x (y :: r)
  = if F32.lt y x then y :: sort_insert x r else x :: y :: r.
Proof. cbn [sort_insert]. now rewrite cmp_float_asc_pos. Qed.

(** [a <= c < b] gives [a < b] on ordered values *)
Lemma ordered_le_lt a b c :
  ordered a = true -> ordered b = true -> ordered c = true ->
  F32.lt c a = false -> F32.lt c b = true -> F32.lt a b = true.
Proof. float_order. Qed.

Lemma F32_lt_asym a b : F32.lt a b = true -> F32.lt b a = false.
Proof.
  intros H. destruct (F32.lt b a) eqn:E; [ | reflexivity ].
  pose proof (F32_lt_trans _ _ _ H E) as H'.
  rewrite F32_lt_irrefl in H'. discriminate.
Qed.

Lemma sort_insert_two x y r :
  ordered x = true -> ordered y = true ->
  (if F32.lt y x then y :: x :: r else x :: y :: r)
  = (if F32.lt x y then x :: y :: r else y :: x :: r).
Proof.
  intros Hx Hy. destruct (F32.lt y x) eqn:E1.
  - now rewrite (F32_lt_asym _ _ E1).
  - destruct (F32.lt x y) eqn:E2; [ reflexivity | ].
    now rewrite (ordered_eq x y Hx Hy E2 E1).
Qed.

Lemma sort_insert_comm x y s :
  ordered x = true -> ordered y = true ->
  Forall (fun v => ordered v = true) s ->
  sort_insert x (sort_insert y s) = sort_insert y (sort_insert x s).
Proof.
  intros Hx Hy Hs. induction Hs as [ | z r Hz Hr IH].
  - cbn [sort_insert]. rewrite !cmp_float_asc_pos. now apply sort_insert_two.
  - rewrite (sort_insert_eq y z r), (sort_insert_eq x z r).
    destruct (F32.lt z y) eqn:Ey; destruct (F32.lt z x) eqn:Ex.
    + rewrite !sort_insert_eq, Ey, Ex. now rewrite IH.
    + rewrite !sort_insert_eq, Ex, Ey.
      now rewrite (ordered_le_lt x y z Hx Hy Hz Ex Ey).
    + rewrite !sort_insert_eq, Ex, Ey.
      now rewrite (ordered_le_lt y x z Hy Hx Hz Ey Ex).
    + rewrite !sort_insert_eq, Ex, Ey. now apply sort_insert_two.
Qed.

Lemma sort_insert_ordered x s :
  ordered x = true -> Forall (fun v => ordered v = true) s ->
  Forall (fun v => ordered v = true) (sort_insert x s).
Proof.
  intros Hx Hs. induction Hs as [ | z r Hz Hr IH]; cbn [sort_insert].
  - auto.
  - destruct (0 <? cmp_float_asc x z); auto.
Qed.

Lemma qsort_float_ordered l :
  Forall (fun v => ordered v = true) l ->
  Forall (fun v => ordered v = true) (qsort_float l).
Proof.
  induction 1; cbn [qsort_float fold_right]; auto using sort_insert_ordered.
Qed.

(** sorting forgets the order in which ordered values arrive *)
Lemma qsort_float_permutation l1 l2 :
  Permutation l1 l2 -> Forall (fun v => ordered v = true) l1 ->
  qsort_float l1 = qsort_float l2.
Proof.
  induction 1 as [ | x l1 l2 Hp IH | x y l | l1 l2 l3 Hp1 IH1 Hp2 IH2];
    intros Hall.
  - reflexivity.
  - inversion Hall; subst. cbn [qsort_float fold_right].
    f_equal. now apply IH.
  - inversion Hall as [ | ? ? Hy Hall']; subst.
    inversion Hall' as [ | ? ? Hx Hl]; subst.
    cbn [qsort_float fold_right]. apply sort_insert_comm; auto.
    now apply qsort_float_ordered.
  - rewrite IH1 by assumption. apply IH2.
    eapply Permutation_Forall; eauto.
Qed.

Lemma sum_min_max_split src : forall s mn mx,
  fold_left
    (fun '(sum, mn, mx) v =>
       (F32.add sum v,
        (if F32.lt v mn then v else mn),
        (if F32.gt v mx then v else mx)))
    src (s, mn, mx)
  = (fold_left F32.add src s, fold_left min_step src mn,
     fold_left max_step src mx).
Proof.
  induction src as [ | v src IH]; intros s mn mx; [ reflexivity | ].
  cbn [fold_left]. now rewrite IH.
Qed.

(** on ordered values, not being below is transitive *)
Lemma ordered_not_lt_trans a b c :
  ordered a = true -> ordered b = true -> ordered c = true ->
  F32.lt a b = false -> F32.lt b c = false -> F32.lt a c = false.
Proof. float_order. Qed.

Lemma min_step_ordered mn v :
  ordered mn = true -> ordered v = true -> ordered (min_step mn v) = true.
Proof. intros. unfold min_step. now destruct (F32.lt v mn). Qed.

Lemma max_step_ordered mx v :
  ordered mx = true -> ordered v = true -> ordered (max_step mx v) = true.
Proof. intros. unfold max_step. now destruct (F32.gt v mx). Qed.

Lemma fold_min_least src : forall mn,
  Forall (fun v => ordered v = true) (mn :: src) ->
  let m := fold_left min_step src mn in
  In m (mn :: src) /\ forall x, In x (mn :: src) -> F32.lt x m = false.
Proof.
  induction src as [ | v src IH]; intros mn Hall; cbn [fold_left].
  - split; [ now left | ]. intros x [<- | []]. apply F32_lt_irrefl.
  - inversion Hall as [ | ? ? Hmn Hall' ]; subst.
    inversion Hall' as [ | ? ? Hv Hsrc ]; subst.
    destruct (IH (min_step mn v)) as [Hin Hle].
    { constructor; [ now apply min_step_ordered | assumption ]. }
    cbv zeta in *. set (m := fold_left min_step src (min_step mn v)) in *.
    assert (Hm : ordered m = true).
    { destruct Hin as [<- | Hin]; [ now apply min_step_ordered | ].
      rewrite Forall_forall in Hsrc. now apply Hsrc. }
    assert (H0 : F32.lt (min_step mn v) m = false) by (apply Hle; now left).
    split.
    + destruct Hin as [Hin | Hin]; [ | right; now right ].
      rewrite <- Hin. unfold min_step.
      destruct (F32.lt v mn); [ right; now left | now left ].
    + intros x [<- | [<- | Hx]]; [ | | apply Hle; now right ];
        unfold min_step in H0; destruct (F32.lt v mn) eqn:E; try exact H0.
      * destruct (F32.lt mn m) eqn:E2; [ | reflexivity ].
        pose proof (F32_lt_trans _ _ _ E E2). congruence.
      * exact (ordered_not_lt_trans _ _ _ Hv Hmn Hm E H0).
Qed.

Lemma fold_max_greatest src : forall mx,
  Forall (fun v => ordered v = true) (mx :: src) ->
  let m := fold_left max_step src mx in
  In m (mx :: src) /\ forall x, In x (mx :: src) -> F32.lt m x = false.
Proof.
  induction src as [ | v src IH]; intros mx Hall; cbn [fold_left].
  - split; [ now left | ]. intros x [<- | []]. apply F32_lt_irrefl.
  - inversion Hall as [ | ? ? Hmx Hall' ]; subst.
    inversion Hall' as [ | ? ? Hv Hsrc ]; subst.
    destruct (IH (max_step mx v)) as [Hin Hle].
    { constructor; [ now apply max_step_ordered | assumption ]. }
    cbv zeta in *. set (m := fold_left max_step src (max_step mx v)) in *.
    assert (Hm : ordered m = true).
    { destruct Hin as [<- | Hin]; [ now apply max_step_ordered | ].
      rewrite Forall_forall in Hsrc. now apply Hsrc. }
    assert (H0 : F32.lt m (max_step mx v) = false) by (apply Hle; now left).
    split.
    + destruct Hin as [Hin | Hin]; [ | right; now right ].
      rewrite <- Hin. unfold max_step.
      destruct (F32.gt v mx); [ right; now left | now left ].
    + intros x [<- | [<- | Hx]]; [ | | apply Hle; now right ];
        unfold max_step, F32.gt in H0; change SFltb with F32.lt in H0;
        destruct (F32.lt mx v) eqn:E; try exact H0.
      * destruct (F32.lt m mx) eqn:E2; [ | reflexivity ].
        pose proof (F32_lt_trans _ _ _ E2 E). congruence.
      * exact (ordered_not_lt_trans _ _ _ Hm Hmx Hv H0 E).
Qed.

Lemma calc_stats_permutation src1 src2 :
  Permutation src1 src2 -> Forall (fun v => ordered v = true) src1 ->
  same_order_stats (calc_stats_from_vec src1) (calc_stats_from_vec src2).
Proof.
  intros Hp Hall.
  assert (Hall2 : Forall (fun v => ordered v = true) src2)
    by (eapply Permutation_Forall; eauto).
  destruct src1 as [ | f1 r1]; destruct src2 as [ | f2 r2].
  - repeat split.
  - apply Permutation_nil in Hp. discriminate.
  - apply Permutation_sym, Permutation_nil in Hp. discriminate.
  - unfold calc_stats_from_vec, sum_min_max. rewrite !sum_min_max_split.
    unfold safe_copy_sort.
    rewrite (qsort_float_permutation _ _ Hp Hall).
    rewrite (Permutation_length Hp).
    cbn [n p25 p50 p75 minv maxv]. unfold same_order_stats.
    cbn [n p25 p50 p75 minv maxv].
    repeat (split; [ reflexivity | ]).
    assert (Hf1 : Forall (fun v => ordered v = true) (f1 :: f1 :: r1))
      by (constructor; [ now inversion Hall | assumption ]).
    assert (Hf2 : Forall (fun v => ordered v = true) (f2 :: f2 :: r2))
      by (constructor; [ now inversion Hall2 | assumption ]).
    assert (Hmem : forall x, In x (f1 :: f1 :: r1) <-> In x (f2 :: f2 :: r2)).
    { intros x. split; intros [<- | Hx].
      - right. apply (Permutation_in _ Hp). now left.
      - right. now apply (Permutation_in _ Hp).
      - right. apply (Permutation_in _ (Permutation_sym Hp)). now left.
      - right. now apply (Permutation_in _ (Permutation_sym Hp)). }
    split.
    + destruct (fold_min_least (f1 :: r1) f1 Hf1) as [Hi1 Hl1].
      destruct (fold_min_least (f2 :: r2) f2 Hf2) as [Hi2 Hl2].
      cbv zeta in *. rewrite Forall_forall in Hf1, Hf2.
      apply ordered_eq; auto.
      * apply Hl2. now apply Hmem.
      * apply Hl1. now apply Hmem.
    + destruct (fold_max_greatest (f1 :: r1) f1 Hf1) as [Hi1 Hl1].
      destruct (fold_max_greatest (f2 :: r2) f2 Hf2) as [Hi2 Hl2].
      cbv zeta in *. rewrite Forall_forall in Hf1, Hf2.
      apply ordered_eq; auto.
      * apply Hl1. now apply Hmem.
      * apply Hl2. now apply Hmem.
Qed.

Lemma no_lf_check l :
  forallb (fun c => negb (Ascii.eqb c LF)) l = true -> no_lf l.
Proof.
  intros H Hin. rewrite forallb_forall in H. specialize (H LF Hin).
  rewrite Ascii.eqb_refl in H. discriminate.
Qed.

(** * The order of the lines

    C3 (as the code has it). For every stream of lines and every permutation
    of its lines, the aggregator produces the same n, p25, p50, p75, min and
    max in every bucket: the read throughput, the read latency, the program
    and the erase statistics of every group.  (The mean and the standard
    deviation are sums accumulated in single precision in the order of the
    stream.) *)
Theorem aggregates_permutation_invariant :
  forall baud cap lines1 lines2,
    Forall no_lf lines1 ->
    Permutation lines1 lines2 ->
    let A1 := collect_aggregates baud cap (Some (stream_of lines1)) in
    let A2 := collect_aggregates baud cap (Some (stream_of lines2)) in
    forall g,
      same_order_stats (read_s A1 g) (read_s A2 g)
      /\ same_order_stats (write_s A1 g) (write_s A2 g)
      /\ same_order_stats (erase_s A1 g) (erase_s A2 g)
      /\ same_order_stats (read_lat_ms A1 g) (read_lat_ms A2 g).
Proof.
  intros baud cap lines1 lines2 Hl Hp A1 A2 g. subst A1 A2.
  cbn [collect_aggregates read_s write_s erase_s read_lat_ms].
  pose proof (collect_vecs_permutation cap lines1 lines2 g Hl Hp) as HP.
  pose proof (collect_vecs_ordered cap (stream_of lines1) g) as HO.
  unfold bucket_vectors in HP, HO.
  repeat match goal with
         | H : Forall2 _ (_ :: _) (_ :: _) |- _ =>
             let a := fresh "P" in
             inversion H as [ | ? ? ? ? a ? ]; subst; clear H
         | H : Forall _ (_ :: _) |- _ =>
             let a := fresh "O" in
             inversion H as [ | ? ? a ? ]; subst; clear H
         end.
  repeat split; apply calc_stats_permutation; assumption.
Qed.

Lemma aggregates_permutation_invariant_witness :
  same_order_stats
    (erase_s (collect_aggregates 10000000 0
                (Some (stream_of lines_long_first))) G_4K)
    (erase_s (collect_aggregates 10000000 0
                (Some (stream_of lines_long_last))) G_4K).
Proof.
  refine (proj1 (proj2 (proj2
    (aggregates_permutation_invariant 10000000 0 lines_long_first
       lines_long_last _ _ G_4K)))).
  - repeat constructor; apply no_lf_check; vm_compute; reflexivity.
  - apply (Permutation_cons_append [erase_short; erase_short] erase_long).
Defined.

(** C3, the counterexample: the same three erase samples, the long one first
    or last; the means and the standard deviations differ. *)
Lemma mean_depends_on_line_order :
  Permutation lines_long_first lines_long_last
  /\ mean (erase_s (collect_aggregates 10000000 0
                      (Some (stream_of lines_long_first))) G_4K)
     = S754_finite false 11184811 (-1)
  /\ mean (erase_s (collect_aggregates 10000000 0
                      (Some (stream_of lines_long_last))) G_4K)
     = S754_finite false 11184812 (-1)
  /\ stddev (erase_s (collect_aggregates 10000000 0
                        (Some (stream_of lines_long_first))) G_4K)
     <> stddev (erase_s (collect_aggregates 10000000 0
                           (Some (stream_of lines_long_last))) G_4K).
Proof.
  split; [ apply (Permutation_cons_append [erase_short; erase_short] erase_long) | ].
  repeat split; try (vm_compute; reflexivity).
  vm_compute. discriminate.
Qed.

(** * Normalised JEDECs *)

Lemma isxdigit_toupper c : isxdigit c = true -> isxdigit (toupper c) = true.
Proof.
  destruct c as [[ | ] [ | ] [ | ] [ | ] [ | ] [ | ] [ | ] [ | ]];
    vm_compute; intros H; try reflexivity; discriminate H.
Qed.

Lemma normalize_jedec_loop_xdigits inp : forall tmp,
  Forall (fun c => isxdigit c = true) tmp ->
  Forall (fun c => isxdigit c = true) (normalize_jedec_loop inp tmp).
Proof.
  induction inp as [ | c inp IH]; intros tmp Ht; cbn [normalize_jedec_loop];
    [ exact Ht | ].
  destruct (6 <=? length tmp)%nat; [ exact Ht | ].
  destruct (Ascii.eqb c "x" || Ascii.eqb c "X"); [ now apply IH | ].
  destruct (isxdigit c) eqn:Hc; [ | now apply IH ].
  apply IH. apply Forall_app. split; [ exact Ht | ].
  constructor; [ now apply isxdigit_toupper | constructor ].
Qed.

Lemma normalize_jedec_wf inp : jedec_wf (normalize_jedec inp).
Proof.
  unfold normalize_jedec.
  destruct (Nat.eqb_spec (length (normalize_jedec_loop inp [])) 6) as [H6 | _].
  - right. split; [ exact H6 | ].
    apply normalize_jedec_loop_xdigits. constructor.
  - now left.
Qed.

Lemma parse_row_wf ix buf r :
  parse_row ix buf = Some r -> jedec_wf (jedec_norm r).
Proof.
  unfold parse_row.
  destruct (negb (nonempty (trim (c_str buf)))); [ discriminate | ].
  destruct (_ <=? 1)%nat; [ discriminate | ].
  intros [= <-]. cbn [jedec_norm].
  destruct (field_at _ (idx_jedec ix)); [ apply normalize_jedec_wf | now left ].
Qed.

Lemma load_rows_wf ix max_rows bufs : forall k,
  rows_wf (load_rows ix max_rows k bufs).
Proof.
  induction bufs as [ | buf bufs IH]; intros k; cbn [load_rows];
    [ constructor | ].
  destruct (negb (k <? max_rows)); [ constructor | ].
  destruct (parse_row ix buf) as [r | ] eqn:E; [ | apply IH ].
  constructor; [ exact (parse_row_wf _ _ _ E) | apply IH ].
Qed.

(** the rows of the loader carry normalised JEDECs *)
Lemma load_database_wf db max_rows : rows_wf (load_database db max_rows).
Proof.
  destruct db as [f | ]; cbn [load_database]; [ | constructor ].
  destruct (read_lines f); [ constructor | apply load_rows_wf ].
Qed.

(** * Tokens *)

Lemma fields_not_nil sep s : fields sep s <> [].
Proof.
  destruct s as [ | c s]; cbn [fields]; [ discriminate | ].
  destruct (Ascii.eqb c sep); [ discriminate | ].
  destruct (fields sep s); discriminate.
Qed.

Lemma fields_app_sep sep a b :
  fields sep (a ++ sep :: b) = fields sep a ++ fields sep b.
Proof.
  induction a as [ | c a IH]; cbn [app fields].
  - now rewrite Ascii.eqb_refl.
  - destruct (Ascii.eqb c sep); [ now rewrite IH | ].
    rewrite IH. pose proof (fields_not_nil sep a) as Hn.
    destruct (fields sep a); [ contradiction | reflexivity ].
Qed.

Lemma fields_no_sep sep s : ~ In sep s -> fields sep s = [s].
Proof.
  induction s as [ | c s IH]; intros Hs; cbn [fields]; [ reflexivity | ].
  destruct (Ascii.eqb_spec c sep) as [-> | _]; [ exfalso; apply Hs; now left | ].
  rewrite IH; [ reflexivity | ]. intros Hin. apply Hs. now right.
Qed.

Lemma strtok_all_app_sep sep a b :
  strtok_all sep (a ++ sep :: b) = strtok_all sep a ++ strtok_all sep b.
Proof. unfold strtok_all. now rewrite fields_app_sep, filter_app. Qed.

Lemma strtok_all_token sep s :
  ~ In sep s -> nonempty s = true -> strtok_all sep s = [s].
Proof.
  intros Hs Hn. unfold strtok_all. rewrite fields_no_sep by assumption.
  cbn [filter]. now rewrite Hn.
Qed.

Lemma strtok_all_nil sep : strtok_all sep [] = [].
Proof. reflexivity. Qed.

(** the tokens of a joined list are the list *)
Lemma strtok_all_join toks : forall acc,
  Forall (fun t => ~ In SLASH t /\ nonempty t = true) toks ->
  strtok_all SLASH (fold_left join_step toks acc)
  = strtok_all SLASH acc ++ toks.
Proof.
  induction toks as [ | t toks IH]; intros acc Ht; cbn [fold_left].
  - now rewrite app_nil_r.
  - inversion Ht as [ | ? ? [Hs Hn] Ht' ]; subst.
    rewrite IH by assumption. unfold join_step.
    destruct acc as [ | a acc]; cbn [nonempty].
    + rewrite strtok_all_token by assumption. reflexivity.
    + rewrite strtok_all_app_sep, (strtok_all_token _ t) by assumption.
      now rewrite <- app_assoc.
Qed.

(** * Candidate lists *)

Lemma append_token_join acc tok :
  length tok = 6%nat ->
  (acc = [] \/ length acc + 7 <= 255)%nat ->
  append_token acc POSS_CAP tok = join_step acc tok.
Proof.
  intros Ht Hacc. unfold append_token, join_step, strncat, POSS_CAP.
  assert (Hn : nonempty tok = true) by (destruct tok; [ discriminate | reflexivity ]).
  rewrite Hn. cbn [negb orb Nat.eqb].
  destruct acc as [ | a acc].
  - cbn [length Nat.eqb app nonempty]. apply firstn_all2. rewrite Ht. lia.
  - destruct Hacc as [Hacc | Hacc]; [ discriminate | ].
    cbn [nonempty].
    assert (Hpos : (1 <= length (a :: acc))%nat) by (simpl; lia).
    remember (a :: acc) as dst eqn:Edst. clear Edst.
    replace (length dst =? 0)%nat with false
      by (symmetry; apply Nat.eqb_neq; lia).
    replace (length dst + 1 <? 256 - 1)%nat with true
      by (symmetry; apply Nat.ltb_lt; lia).
    replace (256 - 1 - length dst)%nat with (S (254 - length dst)) by lia.
    cbn [lit list_ascii_of_string firstn]. rewrite firstn_nil.
    rewrite firstn_all2 by (rewrite length_app; cbn [length]; rewrite Ht; lia).
    rewrite <- app_assoc. reflexivity.
Qed.

Lemma join_step_length acc tok :
  length (join_step acc tok)
  = if nonempty acc then (length acc + 1 + length tok)%nat else length tok.
Proof.
  unfold join_step. destruct (nonempty acc); [ | reflexivity ].
  rewrite length_app. simpl. lia.
Qed.

Lemma collect_tokens_fold sel rows : forall acc k,
  (forall r, In r rows -> sel r = true -> length (jedec_norm r) = 6%nat) ->
  ((k = 0%nat /\ acc = []) \/ (1 <= k /\ length acc + 1 = 7 * k)%nat) ->
  (k + length (filter sel rows) <= 36)%nat ->
  fold_left
    (fun acc r => if sel r then append_token acc POSS_CAP (jedec_norm r) else acc)
    rows acc
  = fold_left join_step (map jedec_norm (filter sel rows)) acc.
Proof.
  induction rows as [ | r rows IH]; intros acc k H6 Hk Hlen;
    cbn [fold_left filter]; [ reflexivity | ].
  destruct (sel r) eqn:Hr;
    [ | apply (IH acc k);
        [ intros r' Hin; apply H6; now right
        | exact Hk
        | cbn [filter] in Hlen; rewrite Hr in Hlen; exact Hlen ] ].
  cbn [map fold_left]. cbn [filter] in Hlen. rewrite Hr in Hlen.
  cbn [length] in Hlen.
  assert (Hj : length (jedec_norm r) = 6%nat) by (apply H6; [ now left | exact Hr ]).
  rewrite append_token_join; [ | exact Hj | destruct Hk as [[_ ->] | [? ?]]; [ now left | right; lia ] ].
  apply (IH _ (S k)).
  - intros r' Hin. apply H6. now right.
  - right. split; [ lia | ]. rewrite join_step_length, Hj.
    destruct Hk as [[-> ->] | [Hk1 Hk2]]; [ reflexivity | ].
    destruct acc; [ simpl in Hk2; lia | cbn [nonempty]; lia ].
  - lia.
Qed.

(** without truncation the cell is the candidates' JEDECs joined by [/] *)
Lemma collect_tokens_join sel rows :
  (forall r, In r rows -> sel r = true -> length (jedec_norm r) = 6%nat) ->
  (length (filter sel rows) <= 36)%nat ->
  collect_tokens sel rows = join_tokens (map jedec_norm (filter sel rows)).
Proof.
  intros H6 Hlen. unfold collect_tokens, join_tokens.
  apply (collect_tokens_fold sel rows [] 0%nat); auto.
Qed.

Lemma xdigit_not_slash c : isxdigit c = true -> c <> SLASH.
Proof. intros H ->. discriminate H. Qed.

Lemma jedec_wf_token j :
  jedec_wf j -> nonempty j = true ->
  length j = 6%nat /\ ~ In SLASH j /\ ~ In SP j.
Proof.
  intros [-> | [H6 Hx]] Hn; [ discriminate | ].
  split; [ exact H6 | ]. rewrite Forall_forall in Hx.
  split; intros Hin; apply Hx in Hin; discriminate Hin.
Qed.

Lemma join_tokens_nonempty toks :
  Forall (fun t => nonempty t = true) toks ->
  nonempty (join_tokens toks) = nonempty_list toks.
Proof.
  unfold join_tokens. intros H.
  assert (G : forall acc, nonempty acc = true \/ toks <> [] ->
                          nonempty (fold_left join_step toks acc) = true).
  { induction H as [ | t toks Ht _ IH]; intros acc [Ha | Hne]; cbn [fold_left];
      try assumption; try contradiction.
    - apply IH. left. unfold join_step. rewrite Ha. now destruct acc.
    - apply IH. left. unfold join_step. destruct (nonempty acc) eqn:Ea.
      + now destruct acc.
      + exact Ht. }
  destruct toks as [ | t toks]; [ reflexivity | ].
  apply G. right. discriminate.
Qed.

Lemma F32_eq_self v : F32.eq v v = negb (F32.is_nan v).
Proof.
  pose proof (F32_ne_self v) as H. unfold F32.ne in H. unfold F32.eq.
  destruct (SFeqb v v); simpl in *; now rewrite <- H.
Qed.

(** a value in a cell means that the guards of its search were passed *)
Lemma db_value_guards rows A cap c g :
  F32.is_nan (column_db_mean (compute_db_means_closest rows A cap) c g) = false ->
  match c with
  | ColRead => F32.gt (sck_MHz A) F32.zero = true
  | ColWrite =>
      (group_eqb g G_WHOLE && (group_bytes g cap =? 0)) = false
      /\ (pages_of (group_bytes g cap) =? 0) = false
  | ColErase => True
  end.
Proof.
  destruct c; cbn [column_db_mean compute_db_means_closest db_read db_write
                   db_erase]; [ | | trivial ].
  - unfold db_read_cell. destruct (F32.gt (sck_MHz A) F32.zero);
      [ reflexivity | discriminate ].
  - unfold db_write_cell. destruct (negb _); [ discriminate | ].
    destruct (group_eqb g G_WHOLE && _); [ discriminate | ].
    destruct (pages_of _ =? 0); [ discriminate | auto ].
Qed.

Lemma pages_of_nonneg bytes : 0 <= pages_of bytes.
Proof.
  unfold pages_of, to_uint32, PAGE_SIZE_BYTES.
  apply Z.div_pos; [ | lia ]. apply Z.mod_pos_bound. lia.
Qed.

(** the candidate cell is built from the rows that pass the test *)
Lemma column_poss_collect rows A cap c g :
  0 <= cap ->
  let M := compute_db_means_closest rows A cap in
  let dbv := column_db_mean M c g in
  F32.is_nan dbv = false ->
  column_poss
    (build_possible_chips_for_all_groups rows A cap
       (db_read M) (db_write M) (db_erase M)) c g
  = na_if_empty (collect_tokens (cell_candidate c A cap g dbv) rows).
Proof.
  intros Hcap M dbv Hnan. pose proof (db_value_guards rows A cap c g Hnan) as Hg.
  subst dbv M.
  destruct c; cbn [column_poss build_possible_chips_for_all_groups poss_read
                   poss_write poss_erase column_db_mean cell_candidate] in *.
  - unfold poss_read_cell. now rewrite F32_eq_self, Hnan, Hg.
  - unfold poss_write_cell. destruct Hg as [Hw Hp].
    rewrite F32_eq_self, Hnan, Hw. cbn [negb andb].
    replace (0 <? group_bytes g cap) with true.
    + replace (0 <? pages_of (group_bytes g cap)) with true; [ reflexivity | ].
      symmetry. apply Z.ltb_lt. apply Z.eqb_neq in Hp.
      pose proof (pages_of_nonneg (group_bytes g cap)). lia.
    + symmetry. apply Z.ltb_lt.
      destruct g; cbn [group_bytes GROUP_BYTES]; try lia.
      change (group_eqb G_WHOLE G_WHOLE) with true in Hw.
      cbn [andb group_bytes] in Hw. lia.
  - unfold poss_erase_cell. now rewrite F32_eq_self, Hnan.
Qed.

Lemma candidate_has_jedec c A cap g dbv r :
  cell_candidate c A cap g dbv r = true -> nonempty (jedec_norm r) = true.
Proof.
  destruct c; cbn [cell_candidate];
    unfold read_candidate, write_candidate, erase_candidate;
    destruct (nonempty (jedec_norm r)); try reflexivity;
    rewrite ?orb_true_r; cbn [negb]; discriminate.
Qed.

(** the test of a candidate: a JEDEC, a prediction for the cell, and the
    prediction almost equal to the value of the cell *)
Lemma cell_candidate_spec rows A cap c g r :
  let dbv := column_db_mean (compute_db_means_closest rows A cap) c g in
  F32.is_nan dbv = false ->
  (cell_candidate c A cap g dbv r = true
   <-> nonempty (jedec_norm r) = true
       /\ exists p, cell_pred c A cap g r = Some p
                    /\ float_almost_equal p dbv = true).
Proof.
  intros dbv Hnan. pose proof (db_value_guards rows A cap c g Hnan) as Hg.
  destruct c; cbn [cell_candidate cell_pred].
  - rewrite Hg. unfold read_candidate, read_pred.
    destruct (F32.gt (read50_MBps r) F32.zero);
      destruct (nonempty (jedec_norm r)); cbn [negb orb]; split;
      try discriminate; try (intros [? [p [? ?]]]; discriminate).
    + intros H. split; [ reflexivity | ]. eexists. split; [ reflexivity | exact H ].
    + intros [_ [p [[= <-] H]]]. exact H.
  - destruct Hg as [Hw Hp]. rewrite Hw, Hp. cbn [orb].
    unfold write_candidate, write_pred.
    destruct (F32.gt (typ_page_ms r) F32.zero);
      destruct (nonempty (jedec_norm r)); cbn [negb orb]; split;
      try discriminate; try (intros [? [p [? ?]]]; discriminate).
    + intros H. split; [ reflexivity | ]. eexists. split; [ reflexivity | exact H ].
    + intros [_ [p [[= <-] H]]]. exact H.
  - unfold erase_candidate, erase_pred.
    destruct (F32.gt (erase_ref g r) F32.zero);
      destruct (nonempty (jedec_norm r)); cbn [negb andb]; split;
      try discriminate; try (intros [? [p [? ?]]]; discriminate).
    + intros H. split; [ reflexivity | ]. eexists. split; [ reflexivity | exact H ].
    + intros [_ [p [[= <-] H]]]. exact H.
Qed.

Lemma candidates_of_join toks :
  Forall (fun t => length t = 6%nat /\ ~ In SLASH t) toks ->
  candidates_of (na_if_empty (join_tokens toks)) = toks.
Proof.
  intros Ht.
  assert (Ht' : Forall (fun t => ~ In SLASH t /\ nonempty t = true) toks).
  { eapply Forall_impl; [ | exact Ht ]. intros t [H6 Hs]. split; [ exact Hs | ].
    destruct t; [ discriminate | reflexivity ]. }
  assert (Hne : Forall (fun t => nonempty t = true) toks)
    by (eapply Forall_impl; [ | exact Ht' ]; intros t [_ H]; exact H).
  unfold na_if_empty. rewrite (join_tokens_nonempty toks Hne).
  destruct toks as [ | t toks]; [ reflexivity | ]. cbn [nonempty_list].
  unfold candidates_of.
  pose proof (strtok_all_join (t :: toks) [] Ht') as Hj.
  rewrite strtok_all_nil in Hj. cbn [app] in Hj. fold (join_tokens (t :: toks)) in Hj.
  destruct (cstr_eqb (join_tokens (t :: toks)) NA_STR) eqn:E; [ | exact Hj ].
  apply cstr_eqb_eq in E. rewrite E in Hj. injection Hj as Hj _.
  inversion Ht as [ | ? ? [H6 _] _ ]; subst. discriminate H6.
Qed.

(** C4 (as the code has it). For a cell whose db_mean value is present and
    whose matching rows number at most 36, so that their JEDECs fit in the
    255 characters of the cell: the candidate list is, in catalogue order,
    the JEDECs of the rows that have a normalised JEDEC, a positive
    datasheet field and a prediction almost equal to the db_mean value; a
    JEDEC is listed exactly when some row carrying it is such a row.  Rows
    without a JEDEC are never listed, yet such a row can be the closest
    winner whose prediction is the db_mean value of the cell. *)
Theorem possible_chips_are_matching_rows :
  forall rows A cap c g,
    rows_wf rows ->
    0 <= cap ->
    let M := compute_db_means_closest rows A cap in
    let P := build_possible_chips_for_all_groups rows A cap
               (db_read M) (db_write M) (db_erase M) in
    let dbv := column_db_mean M c g in
    let cand := cell_candidate c A cap g dbv in
    F32.is_nan dbv = false ->
    (length (filter cand rows) <= 36)%nat ->
    candidates_of (column_poss P c g) = map jedec_norm (filter cand rows)
    /\ (forall j, In j (candidates_of (column_poss P c g))
                  <-> exists r, In r rows /\ jedec_norm r = j /\ cand r = true)
    /\ (forall r, In r rows ->
          (cand r = true
           <-> (length (jedec_norm r) = 6%nat
                /\ Forall (fun ch => isxdigit ch = true) (jedec_norm r))
               /\ exists p, cell_pred c A cap g r = Some p
                            /\ float_almost_equal p dbv = true))
    /\ (exists r0,
          In r0 rows_no_jedec /\ jedec_norm r0 = []
          /\ cell_pred ColErase sample_erase_agg 0 G_4K r0
             = Some (sample_db rows_no_jedec ColErase G_4K)
          /\ sample_poss rows_no_jedec ColErase G_4K = NA_STR).
Proof.
  intros rows A cap c g Hwf Hcap M P dbv cand Hnan Hlen.
  unfold rows_wf in Hwf. rewrite Forall_forall in Hwf.
  pose proof (column_poss_collect rows A cap c g Hcap Hnan) as Hcol.
  pose proof (fun r => cell_candidate_spec rows A cap c g r Hnan) as Hspec.
  cbv zeta in Hcol, Hspec. fold M in Hcol, Hspec. fold P dbv in Hcol.
  fold dbv in Hspec. fold cand in Hcol, Hspec.
  assert (Hcj : forall r, In r rows -> cand r = true ->
                 length (jedec_norm r) = 6%nat /\ ~ In SLASH (jedec_norm r)).
  { intros r Hin Hr.
    destruct (jedec_wf_token _ (Hwf r Hin) (candidate_has_jedec _ _ _ _ _ _ Hr))
      as (H6 & Hs & _). auto. }
  assert (Hcells : candidates_of (column_poss P c g)
                   = map jedec_norm (filter cand rows)).
  { rewrite Hcol. rewrite collect_tokens_join;
      [ | intros r Hin Hr; exact (proj1 (Hcj r Hin Hr)) | exact Hlen ].
    apply candidates_of_join. apply Forall_forall. intros j Hj.
    apply in_map_iff in Hj. destruct Hj as (r & <- & Hr).
    apply filter_In in Hr. destruct Hr as [Hin Hr]. now apply Hcj. }
  split; [ exact Hcells | split; [ | split ] ].
  - intros j. rewrite Hcells, in_map_iff. split.
    + intros (r & Hj & Hr). apply filter_In in Hr. exists r. tauto.
    + intros (r & Hin & Hj & Hr). exists r. split; [ exact Hj | ].
      apply filter_In. tauto.
  - intros r Hin. rewrite (Hspec r). split.
    + intros [Hn Hp]. split; [ | exact Hp ].
      destruct (Hwf r Hin) as [E | E]; [ rewrite E in Hn; discriminate | exact E ].
    + intros [[H6 _] Hp]. split; [ | exact Hp ].
      destruct (jedec_norm r); [ discriminate | reflexivity ].
  - exists (nth 0 rows_no_jedec row_default).
    repeat split; vm_compute; auto.
Qed.

Lemma rows_wf_check rows :
  forallb (fun r => jedec_wfb (jedec_norm r)) rows = true -> rows_wf rows.
Proof.
  intros H. apply Forall_forall. intros r Hin.
  rewrite forallb_forall in H. specialize (H r Hin). unfold jedec_wfb in H.
  apply orb_true_iff in H. destruct H as [H | H].
  - left. destruct (jedec_norm r); [ reflexivity | discriminate ].
  - right. apply andb_true_iff in H. destruct H as [H6 Hx].
    apply Nat.eqb_eq in H6. split; [ exact H6 | ].
    apply Forall_forall. now apply forallb_forall.
Qed.

Lemma possible_chips_are_matching_rows_witness :
  candidates_of (sample_poss rows_same_jedec ColErase G_4K) = [lit "BF2641"].
Proof.
  refine (eq_trans
    (proj1 (possible_chips_are_matching_rows rows_same_jedec sample_erase_agg 0
              ColErase G_4K _ _ _ _)) _).
  - apply rows_wf_check. vm_compute. reflexivity.
  - lia.
  - vm_compute. reflexivity.
  - vm_compute. lia.
  - vm_compute. reflexivity.
Defined.

(** C4, the counterexamples.  With 37 matching rows the list holds the first
    36 JEDECs and three characters of the 37th: the last row passes the test
    and its JEDEC is not in the list.  With two rows of one JEDEC of which
    only the first matches, the JEDEC of the second row is in the list
    though that row does not pass the test. *)
Lemma possible_chips_list_not_exact :
  (let r := nth 36 rows_37 row_default in
   let dbv := sample_db rows_37 ColErase G_4K in
   let cell := sample_poss rows_37 ColErase G_4K in
   In r rows_37
   /\ jedec_norm r = lit "000036"
   /\ F32.is_nan dbv = false
   /\ cell_candidate ColErase sample_erase_agg 0 G_4K dbv r = true
   /\ existsb (cstr_eqb (jedec_norm r)) (candidates_of cell) = false
   /\ length (candidates_of cell) = 37%nat
   /\ last (candidates_of cell) [] = lit "000")
  /\ (let r := nth 1 rows_same_jedec row_default in
      let dbv := sample_db rows_same_jedec ColErase G_4K in
      let cell := sample_poss rows_same_jedec ColErase G_4K in
      In r rows_same_jedec
      /\ F32.is_nan dbv = false
      /\ existsb (cstr_eqb (jedec_norm r)) (candidates_of cell) = true
      /\ cell_candidate ColErase sample_erase_agg 0 G_4K dbv r = false).
Proof.
  split; cbv zeta.
  - split; [ apply nth_In; vm_compute; lia | ].
    repeat split; vm_compute; reflexivity.
  - split; [ apply nth_In; vm_compute; lia | ].
    repeat split; vm_compute; reflexivity.
Qed.

(** * The intersection across the groups *)

Lemma append_token_join_cap cap acc tok :
  nonempty tok = true ->
  (length acc + 1 + length tok <= cap - 1)%nat ->
  append_token acc cap tok = join_step acc tok.
Proof.
  intros Hn Hlen. unfold append_token, join_step, strncat.
  assert (Ht1 : (1 <= length tok)%nat)
    by (destruct tok; [ discriminate | simpl; lia ]).
  rewrite Hn. cbn [negb orb].
  replace (cap =? 0)%nat with false by (symmetry; apply Nat.eqb_neq; lia).
  destruct acc as [ | a acc].
  - cbn [length Nat.eqb app nonempty]. apply firstn_all2.
    cbn [length] in Hlen. lia.
  - cbn [nonempty].
    assert (Hpos : (1 <= length (a :: acc))%nat) by (simpl; lia).
    remember (a :: acc) as dst eqn:Edst. clear Edst.
    replace (length dst =? 0)%nat with false
      by (symmetry; apply Nat.eqb_neq; lia).
    replace (length dst + 1 <? cap - 1)%nat with true
      by (symmetry; apply Nat.ltb_lt; lia).
    replace (cap - 1 - length dst)%nat with (S (cap - 2 - length dst)) by lia.
    cbn [lit list_ascii_of_string firstn]. rewrite firstn_nil.
    rewrite firstn_all2 by (rewrite length_app; cbn [length]; lia).
    rewrite <- app_assoc. reflexivity.
Qed.

Lemma strtok_all_in sep s t :
  In t (strtok_all sep s) -> ~ In sep t /\ nonempty t = true.
Proof.
  unfold strtok_all. rewrite filter_In. intros [Hin Hn]. split; [ | exact Hn ].
  clear Hn. revert t Hin. induction s as [ | c s IH]; intros t Hin;
    cbn [fields] in Hin.
  - destruct Hin as [<- | []]. intros [].
  - destruct (Ascii.eqb_spec c sep) as [-> | Hc].
    + destruct Hin as [<- | Hin]; [ intros [] | now apply IH ].
    + pose proof (fields_not_nil sep s) as Hne.
      destruct (fields sep s) as [ | h tl]; [ contradiction | ].
      destruct Hin as [<- | Hin].
      * intros [E | Hin]; [ congruence | ].
        revert Hin. apply IH. now left.
      * apply IH. now right.
Qed.

Lemma total_len_filter (f : cstr -> bool) toks :
  (total_len (filter f toks) <= total_len toks)%nat.
Proof.
  induction toks as [ | t toks IH]; cbn [filter total_len fold_right];
    [ lia | ].
  destruct (f t); cbn [total_len fold_right]; fold (total_len toks);
    fold (total_len (filter f toks)); lia.
Qed.

Lemma total_len_fields sep s : total_len (fields sep s) = (length s + 1)%nat.
Proof.
  induction s as [ | c s IH]; cbn [fields]; [ reflexivity | ].
  destruct (Ascii.eqb c sep).
  - cbn [total_len fold_right length]. fold (total_len (fields sep s)). lia.
  - pose proof (fields_not_nil sep s) as Hne.
    destruct (fields sep s) as [ | h tl]; [ contradiction | ].
    cbn [total_len fold_right length] in *. lia.
Qed.

Lemma total_len_strtok sep s : (total_len (strtok_all sep s) <= length s + 1)%nat.
Proof.
  unfold strtok_all. rewrite <- (total_len_fields sep s).
  apply total_len_filter.
Qed.

Lemma drop_while_head (p : ascii -> bool) s :
  Forall (fun c => p c = false) s -> drop_while p s = s.
Proof.
  intros H. destruct H as [ | c s Hc _]; [ reflexivity | ].
  cbn [drop_while]. now rewrite Hc.
Qed.

(** the loop over the tokens of the seed, when nothing is cut *)
Lemma conclude_fold poss f cap toks : forall acc,
  Forall (fun t => nonempty t = true /\ Forall (fun c => Ascii.eqb SP c = false) t)
    toks ->
  (length acc + 1 + total_len toks <= cap)%nat ->
  fold_left (conclude_step poss f cap) toks acc
  = fold_left join_step (filter (in_all_groups poss f) toks) acc.
Proof.
  induction toks as [ | t toks IH]; intros acc Ht Hlen; cbn [fold_left filter];
    [ reflexivity | ].
  inversion Ht as [ | ? ? [Hn Hsp] Ht' ]; subst.
  cbn [total_len fold_right] in Hlen. fold (total_len toks) in Hlen.
  unfold conclude_step at 2. rewrite (drop_while_head _ t Hsp), Hn. cbn [andb].
  destruct (in_all_groups poss f t); cbn [fold_left].
  - rewrite append_token_join_cap by (try assumption; lia).
    apply IH; [ assumption | ]. rewrite join_step_length.
    destruct (nonempty acc); lia.
  - apply IH; [ assumption | lia ].
Qed.

(** ** Substrings and tokens *)

Lemma is_prefix_length t : forall s,
  is_prefix t s = true ->
  (length t <= length s)%nat /\ (length s <= length t -> s = t)%nat.
Proof.
  induction t as [ | x t IH]; intros [ | y s] H; cbn [is_prefix length] in *;
    try discriminate.
  - split; [ lia | reflexivity ].
  - split; [ lia | intros; lia ].
  - apply andb_true_iff in H. destruct H as [Hxy Hp].
    apply Ascii.eqb_eq in Hxy. subst y.
    destruct (IH s Hp) as [H1 H2]. split; [ lia | ].
    intros Hl. f_equal. apply H2. lia.
Qed.

Lemma strstr_length s : forall t,
  strstr s t = true ->
  (length t <= length s)%nat /\ (length s <= length t -> s = t)%nat.
Proof.
  induction s as [ | c s IH]; intros t H; cbn [strstr] in H.
  - rewrite orb_false_r in H. now apply is_prefix_length.
  - apply orb_true_iff in H. destruct H as [H | H].
    + now apply is_prefix_length.
    + destruct (IH t H) as [H1 _]. cbn [length]. split; [ lia | intros; lia ].
Qed.

Lemma is_prefix_strstr t s : is_prefix t s = true -> strstr s t = true.
Proof. intros H. destruct s; cbn [strstr]; now rewrite H. Qed.

Lemma strstr_cons c s t : strstr s t = true -> strstr (c :: s) t = true.
Proof. intros H. cbn [strstr]. rewrite H. apply orb_true_r. Qed.

(** a prefix without separator lies in the first field *)
Lemma is_prefix_first_field sep t : forall s,
  is_prefix t s = true -> ~ In sep t ->
  exists h tl, fields sep s = h :: tl /\ is_prefix t h = true.
Proof.
  induction t as [ | x t IH]; intros s H Hs.
  - pose proof (fields_not_nil sep s) as Hne.
    destruct (fields sep s) as [ | h tl]; [ contradiction | ].
    exists h, tl. auto.
  - destruct s as [ | y s]; cbn [is_prefix] in H; [ discriminate | ].
    apply andb_true_iff in H. destruct H as [Hxy Hp].
    apply Ascii.eqb_eq in Hxy. subst y.
    destruct (IH s Hp) as (h & tl & Hf & Hh).
    { intros Hin. apply Hs. now right. }
    cbn [fields]. destruct (Ascii.eqb_spec x sep) as [-> | _].
    + exfalso. apply Hs. now left.
    + rewrite Hf. exists (x :: h), tl. split; [ reflexivity | ].
      cbn [is_prefix]. now rewrite Ascii.eqb_refl, Hh.
Qed.

(** a substring without separator lies in one field *)
Lemma strstr_in_field sep t : forall s,
  strstr s t = true -> ~ In sep t ->
  exists u, In u (fields sep s) /\ strstr u t = true.
Proof.
  induction s as [ | c s IH]; intros H Hs.
  - destruct (is_prefix_first_field sep t [] ltac:(cbn [strstr] in H;
      now rewrite orb_false_r in H) Hs) as (h & tl & Hf & Hh).
    exists h. split; [ rewrite Hf; now left | now apply is_prefix_strstr ].
  - cbn [strstr] in H. apply orb_true_iff in H. destruct H as [H | H].
    + destruct (is_prefix_first_field sep t (c :: s) H Hs) as (h & tl & Hf & Hh).
      exists h. split; [ rewrite Hf; now left | now apply is_prefix_strstr ].
    + destruct (IH H Hs) as (u & Hu & Hut). cbn [fields].
      destruct (Ascii.eqb c sep); [ exists u; split; [ now right | exact Hut ] | ].
      destruct (fields sep s) as [ | h tl]; [ destruct Hu | ].
      destruct Hu as [<- | Hu].
      * exists (c :: h). split; [ now left | now apply strstr_cons ].
      * exists u. split; [ now right | exact Hut ].
Qed.

(** a six-character token that occurs in a well-formed cell is one of its
    entries *)
Lemma strstr_candidate s t :
  cell_ok s -> real_list s = true ->
  strstr s t = true -> length t = 6%nat -> ~ In SLASH t ->
  In t (candidates_of s).
Proof.
  intros Hok Hreal Hsub H6 Hs.
  unfold real_list in Hreal. apply andb_true_iff in Hreal.
  destruct Hreal as [_ Hna]. apply negb_true_iff in Hna.
  unfold candidates_of. rewrite Hna.
  destruct Hok as [-> | [_ Htok]]; [ discriminate | ].
  destruct (strstr_in_field SLASH t s Hsub Hs) as (u & Hu & Hut).
  destruct (strstr_length u t Hut) as [Hle Heq].
  assert (Hun : nonempty u = true) by (destruct u; [ simpl in Hle; lia | reflexivity ]).
  assert (Hin : In u (strtok_all SLASH s))
    by (unfold strtok_all; apply filter_In; auto).
  rewrite Forall_forall in Htok. destruct (Htok u Hin) as [_ Hu6].
  rewrite <- (Heq ltac:(lia)). exact Hin.
Qed.

Lemma candidates_of_join_xdigits toks :
  Forall (fun t => Forall (fun c => isxdigit c = true) t /\ nonempty t = true)
    toks ->
  candidates_of (na_if_empty (join_tokens toks)) = toks.
Proof.
  intros Ht.
  assert (Ht' : Forall (fun t => ~ In SLASH t /\ nonempty t = true) toks).
  { eapply Forall_impl; [ | exact Ht ]. intros t [Hx Hn]. split; [ | exact Hn ].
    rewrite Forall_forall in Hx. intros Hin. apply Hx in Hin. discriminate. }
  assert (Hne : Forall (fun t => nonempty t = true) toks)
    by (eapply Forall_impl; [ | exact Ht' ]; intros t [_ H]; exact H).
  unfold na_if_empty. rewrite (join_tokens_nonempty toks Hne).
  destruct toks as [ | t toks]; [ reflexivity | ]. cbn [nonempty_list].
  unfold candidates_of.
  pose proof (strtok_all_join (t :: toks) [] Ht') as Hj.
  rewrite strtok_all_nil in Hj. cbn [app] in Hj. fold (join_tokens (t :: toks)) in Hj.
  destruct (cstr_eqb (join_tokens (t :: toks)) NA_STR) eqn:E; [ | exact Hj ].
  apply cstr_eqb_eq in E. rewrite E in Hj. injection Hj as Hj _.
  inversion Ht as [ | ? ? [Hx _] _ ]; subst.
  inversion Hx as [ | ? ? HN _ ]. discriminate HN.
Qed.

Lemma xdigit_not_space t :
  Forall (fun c => isxdigit c = true) t ->
  Forall (fun c => Ascii.eqb SP c = false) t.
Proof.
  apply Forall_impl. intros c Hc. apply Ascii.eqb_neq. intros <-. discriminate Hc.
Qed.

(** the conclusion of well-formed cells: NA without a seed; otherwise the
    entries of the seed that occur in every other real list, joined in the
    order of the seed, or NA when none is left *)
Lemma conclude_spec poss :
  (forall g, cell_ok (poss g)) ->
  match find_first_group poss with
  | None => conclude_possible_chips_across_groups poss CONCL_CAP = NA_STR
  | Some f =>
      real_list (poss f) = true
      /\ conclude_possible_chips_across_groups poss CONCL_CAP
         = na_if_empty
             (join_tokens (filter (in_all_groups poss f)
                             (candidates_of (poss f))))
  end.
Proof.
  intros Hok. unfold conclude_possible_chips_across_groups.
  destruct (find_first_group poss) as [f | ] eqn:Ef; [ | reflexivity ].
  unfold find_first_group in Ef. apply find_some in Ef. destruct Ef as [_ Hreal].
  split; [ exact Hreal | ].
  pose proof Hreal as Hreal'. unfold real_list in Hreal'.
  apply andb_true_iff in Hreal'. destruct Hreal' as [_ Hna].
  apply negb_true_iff in Hna.
  destruct (Hok f) as [E | [Hlen Htok]]; [ rewrite E in Hna; discriminate | ].
  unfold candidates_of. rewrite Hna.
  replace (strncpy_z 256 (poss f)) with (poss f)
    by (unfold strncpy_z; symmetry; apply firstn_all2; simpl; lia).
  cbv zeta. rewrite !conclude_fold.
  - reflexivity.
  - apply Forall_forall. intros t Ht. split.
    + exact (proj2 (strtok_all_in _ _ _ Ht)).
    + rewrite Forall_forall in Htok. apply xdigit_not_space. apply (Htok t Ht).
  - pose proof (total_len_strtok SLASH (poss f)) as Ht. unfold CONCL_CAP.
    unfold SLASH in Ht. cbn [length]. lia.
Qed.

(** ** The cells of the candidate lists are well formed *)

Lemma join_tokens_snoc toks t :
  join_tokens (toks ++ [t]) = join_step (join_tokens toks) t.
Proof. unfold join_tokens. now rewrite fold_left_app. Qed.

Lemma join_tokens_length toks :
  Forall (fun t => length t = 6%nat) toks ->
  (toks = [] /\ join_tokens toks = [])
  \/ (1 <= length toks /\ length (join_tokens toks) + 1 = 7 * length toks)%nat.
Proof.
  induction toks as [ | t toks IH] using rev_ind; intros H; [ now left | ].
  right. apply Forall_app in H. destruct H as [H Ht].
  inversion Ht as [ | ? ? H6 _ ]; subst.
  rewrite join_tokens_snoc, join_step_length, length_app. cbn [length].
  destruct (IH H) as [[-> ->] | [H1 H2]]; [ simpl; lia | ].
  destruct (join_tokens toks); [ simpl in H2; lia | cbn [nonempty]; lia ].
Qed.

Lemma xdigits_no_slash t :
  Forall (fun c => isxdigit c = true) t -> ~ In SLASH t.
Proof. rewrite Forall_forall. intros H Hin. apply H in Hin. discriminate. Qed.

Lemma tokens_state_join toks :
  Forall (fun t => length t = 6%nat /\ Forall (fun c => isxdigit c = true) t) toks ->
  strtok_all SLASH (join_tokens toks) = toks.
Proof.
  intros H. unfold join_tokens. rewrite strtok_all_join; [ reflexivity | ].
  eapply Forall_impl; [ | exact H ]. intros t [H6 Hx].
  split; [ now apply xdigits_no_slash | destruct t; [ discriminate | reflexivity ] ].
Qed.

Lemma Forall_firstn_keep {A : Type} (P : A -> Prop) k : forall l,
  Forall P l -> Forall P (firstn k l).
Proof.
  induction k as [ | k IH]; intros l H; [ constructor | ].
  destruct H as [ | x l Hx Hl]; cbn [firstn]; constructor; auto.
Qed.

Lemma append_token_state acc tok :
  length tok = 6%nat -> Forall (fun c => isxdigit c = true) tok ->
  tokens_state acc -> tokens_state (append_token acc POSS_CAP tok).
Proof.
  intros H6 Hx [(toks & -> & Hk & Ht) | [H255 Htok]]; unfold cstr in *.
  - assert (Hlen6 : Forall (fun t => length t = 6%nat) toks)
      by (eapply Forall_impl; [ | exact Ht ]; intros t [H _]; exact H).
    destruct (Nat.lt_ge_cases (length toks) 36) as [Hlt | Hge].
    + left. exists (toks ++ [tok]).
      rewrite join_tokens_snoc, append_token_join.
      * split; [ reflexivity | ]. split; [ rewrite length_app; simpl; lia | ].
        apply Forall_app. split; [ exact Ht | ]. constructor; auto.
      * exact H6.
      * destruct (join_tokens_length toks Hlen6) as [[_ ->] | [_ Hl]];
          [ now left | right; lia ].
    + right. assert (Hk36 : length toks = 36%nat) by lia.
      destruct (join_tokens_length toks Hlen6) as [[-> _] | [_ Hl]];
        [ discriminate | ].
      rewrite Hk36 in Hl.
      assert (Hacc : length (join_tokens toks) = 251%nat) by lia.
      assert (Happ : append_token (join_tokens toks) POSS_CAP tok
                     = join_tokens toks ++ SLASH :: firstn 3 tok).
      { unfold append_token, strncat, POSS_CAP.
        replace (nonempty tok) with true
          by (destruct tok; [ discriminate | reflexivity ]).
        cbn [negb orb Nat.eqb]. rewrite Hacc. cbn [Nat.eqb].
        change (251 + 1 <? 256 - 1)%nat with true. cbv iota.
        change (firstn (256 - 1 - 251) (lit "/")) with [SLASH].
        rewrite length_app, Hacc. cbn [length].
        change (256 - 1 - (251 + 1))%nat with 3%nat.
        now rewrite <- app_assoc. }
      rewrite Happ. split.
      * rewrite length_app, Hacc. cbn [length].
        rewrite firstn_length_le by lia. reflexivity.
      * rewrite strtok_all_app_sep, (tokens_state_join toks Ht).
        assert (Hx3 : Forall (fun c => isxdigit c = true) (firstn 3 tok))
          by now apply Forall_firstn_keep.
        rewrite strtok_all_token;
          [ | now apply xdigits_no_slash
            | destruct tok as [ | ? [ | ? [ | ? ?]]]; try discriminate; reflexivity ].
        apply Forall_app. split.
        -- eapply Forall_impl; [ | exact Ht ]. intros t [Ht6 Htx].
           split; [ exact Htx | lia ].
        -- constructor; [ | constructor ]. split; [ exact Hx3 | ].
           rewrite firstn_length_le; lia.
  - right.
    assert (Happ : append_token acc POSS_CAP tok = acc).
    { unfold append_token, strncat, POSS_CAP.
      replace (nonempty tok) with true
        by (destruct tok; [ discriminate | reflexivity ]).
      cbn [negb orb Nat.eqb]. rewrite H255. cbn [Nat.eqb].
      change (255 + 1 <? 256 - 1)%nat with false. cbv iota.
      rewrite H255. change (256 - 1 - 255)%nat with 0%nat.
      cbn [firstn]. now rewrite app_nil_r. }
    rewrite Happ. split; assumption.
Qed.

Lemma collect_tokens_state sel rows :
  rows_wf rows ->
  (forall r, sel r = true -> nonempty (jedec_norm r) = true) ->
  tokens_state (collect_tokens sel rows).
Proof.
  intros Hwf Hsel. unfold collect_tokens.
  assert (H0 : tokens_state []).
  { left. exists []. repeat split; [ simpl; lia | constructor ]. }
  revert H0. generalize (@nil ascii) as acc.
  induction Hwf as [ | r rows Hr _ IH]; intros acc Hacc; cbn [fold_left];
    [ exact Hacc | ].
  apply IH. destruct (sel r) eqn:E; [ | exact Hacc ].
  destruct Hr as [Hr | [H6 Hx]].
  - specialize (Hsel r E). rewrite Hr in Hsel. discriminate.
  - now apply append_token_state.
Qed.

Lemma tokens_state_cell_ok acc : tokens_state acc -> cell_ok (na_if_empty acc).
Proof.
  intros H. unfold na_if_empty.
  destruct (nonempty acc); [ | now left ]. right.
  destruct H as [(toks & -> & Hk & Ht) | [H255 Htok]]; unfold cstr in *.
  - assert (Hlen6 : Forall (fun t => length t = 6%nat) toks)
      by (eapply Forall_impl; [ | exact Ht ]; intros t [H _]; exact H).
    split.
    + destruct (join_tokens_length toks Hlen6) as [[_ ->] | [_ Hl]];
        [ simpl; lia | lia ].
    + rewrite (tokens_state_join toks Ht).
      eapply Forall_impl; [ | exact Ht ]. intros t [H6 Hx]. split; [ exact Hx | lia ].
  - split; [ lia | exact Htok ].
Qed.

(** every cell of the candidate lists is well formed *)
Lemma column_poss_ok rows A cap db_r db_w db_e c g :
  rows_wf rows ->
  cell_ok (column_poss
             (build_possible_chips_for_all_groups rows A cap db_r db_w db_e) c g).
Proof.
  intros Hwf.
  assert (Hnil : cell_ok (na_if_empty [])) by now left.
  destruct c; cbn [column_poss build_possible_chips_for_all_groups poss_read
                   poss_write poss_erase].
  - unfold poss_read_cell. destruct (_ && _); [ | exact Hnil ].
    apply tokens_state_cell_ok, collect_tokens_state; [ exact Hwf | ].
    intros r. apply (candidate_has_jedec ColRead A cap g).
  - unfold poss_write_cell. destruct (F32.eq _ _); [ | exact Hnil ].
    destruct (_ && _); [ | exact Hnil ].
    destruct (0 <? _); [ | exact Hnil ].
    apply tokens_state_cell_ok, collect_tokens_state; [ exact Hwf | ].
    intros r. apply (candidate_has_jedec ColWrite A cap g).
  - unfold poss_erase_cell. destruct (F32.eq _ _); [ | exact Hnil ].
    apply tokens_state_cell_ok, collect_tokens_state; [ exact Hwf | ].
    intros r. apply (candidate_has_jedec ColErase A cap g).
Qed.

Lemma first_field_prefix sep s h tl :
  fields sep s = h :: tl -> is_prefix h s = true.
Proof.
  revert h tl. induction s as [ | c s IH]; intros h tl H; cbn [fields] in H.
  - injection H as <- _. reflexivity.
  - destruct (Ascii.eqb c sep); [ injection H as <- _; reflexivity | ].
    destruct (fields sep s) as [ | h' tl'] eqn:E; injection H as <- _.
    + cbn [is_prefix]. now rewrite Ascii.eqb_refl.
    + cbn [is_prefix]. rewrite Ascii.eqb_refl. cbn [andb]. now apply (IH h' tl').
Qed.

(** an entry of a list is a substring of the list *)
Lemma field_strstr sep t : forall s, In t (fields sep s) -> strstr s t = true.
Proof.
  induction s as [ | c s IH]; intros Hin.
  - cbn [fields] in Hin. destruct Hin as [<- | []]. reflexivity.
  - pose proof (first_field_prefix sep (c :: s)) as Hp.
    destruct (fields sep (c :: s)) as [ | h tl] eqn:E; [ destruct Hin | ].
    destruct Hin as [<- | Hin].
    + apply is_prefix_strstr. now apply (Hp h tl).
    + apply strstr_cons. apply IH. cbn [fields] in E.
      destruct (Ascii.eqb c sep).
      * injection E as _ <-. exact Hin.
      * destruct (fields sep s) as [ | h' tl']; injection E as _ <-;
          [ destruct Hin | now right ].
Qed.

Lemma candidate_strstr s t : In t (candidates_of s) -> strstr s t = true.
Proof.
  unfold candidates_of. destruct (cstr_eqb s NA_STR); [ intros [] | ].
  unfold strtok_all. rewrite filter_In. intros [Hin _].
  now apply (field_strstr SLASH).
Qed.

Lemma group_eqb_eq a b : group_eqb a b = true <-> a = b.
Proof.
  unfold group_eqb. rewrite Z.eqb_eq.
  split; [ | now intros -> ]. destruct a, b; simpl; intros H; congruence.
Qed.

Lemma in_all_groups_list g : In g all_groups.
Proof. destruct g; simpl; tauto. Qed.

(** a group without a real list does not constrain the conclusion *)
Lemma in_all_groups_spec poss f t :
  in_all_groups poss f t = true
  <-> forall g, g <> f -> real_list (poss g) = true -> strstr (poss g) t = true.
Proof.
  unfold in_all_groups. rewrite forallb_forall. split.
  - intros H g Hne Hreal. specialize (H g (in_all_groups_list g)).
    apply orb_true_iff in H. destruct H as [H | H]; [ | exact H ].
    apply orb_true_iff in H. destruct H as [H | H].
    + apply group_eqb_eq in H. contradiction.
    + rewrite Hreal in H. discriminate.
  - intros H g _. destruct (group_eqb g f) eqn:E; [ reflexivity | ].
    destruct (real_list (poss g)) eqn:Hr; [ | reflexivity ]. cbn [negb orb].
    apply H; [ | exact Hr ]. intros ->.
    rewrite (proj2 (group_eqb_eq f f) eq_refl) in E. discriminate.
Qed.

(** the seed is the first group with a real list *)
Lemma find_first_group_first poss f :
  find_first_group poss = Some f ->
  forall g, group_index g < group_index f -> real_list (poss g) = false.
Proof.
  unfold find_first_group, all_groups. cbn [find].
  repeat match goal with
         | |- context [real_list (poss ?g)] =>
             destruct (real_list (poss g)) eqn:?
         end;
    intros [= <-] g Hg; destruct g; cbn in Hg; try lia; assumption.
Qed.

Lemma report_cell_possible_chips rows A match_row jedec cap g c :
  let M := compute_db_means_closest rows A cap in
  report_cell (possible_chips_title g) c
    (write_report_csv rows A match_row jedec cap)
  = Some (column_poss
            (build_possible_chips_for_all_groups rows A cap
               (db_read M) (db_write M) (db_erase M)) c g).
Proof.
  cbv zeta.
  destruct g;
    match goal with
    | |- context [possible_chips_title ?g] =>
        cell_at (63 + Z.to_nat (group_index g))%nat
          (possible_chips_row
             (build_possible_chips_for_all_groups rows A cap
                (db_read (compute_db_means_closest rows A cap))
                (db_write (compute_db_means_closest rows A cap))
                (db_erase (compute_db_means_closest rows A cap))) g)
    end; destruct c; reflexivity.
Qed.

Lemma report_cell_conclusion rows A match_row jedec cap c :
  let M := compute_db_means_closest rows A cap in
  report_cell (lit "conclusion_possible_chips") c
    (write_report_csv rows A match_row jedec cap)
  = Some (conclude_possible_chips_across_groups
            (column_poss
               (build_possible_chips_for_all_groups rows A cap
                  (db_read M) (db_write M) (db_erase M)) c) CONCL_CAP).
Proof.
  cbv zeta.
  cell_at 69%nat
    (conclusion_row
       (build_possible_chips_for_all_groups rows A cap
          (db_read (compute_db_means_closest rows A cap))
          (db_write (compute_db_means_closest rows A cap))
          (db_erase (compute_db_means_closest rows A cap)))).
  destruct c; reflexivity.
Qed.

(** the conclusion of one operation, for a catalogue of normalised JEDECs *)
Lemma conclusion_of_cells :
  forall rows A cap c match_row jedec,
    rows_wf rows ->
    let rep := write_report_csv rows A match_row jedec cap in
    exists (poss : group_t -> cstr) (concl : cstr),
      (forall g, report_cell (possible_chips_title g) c rep = Some (poss g))
      /\ report_cell (lit "conclusion_possible_chips") c rep = Some concl
      /\ match find_first_group poss with
         | None => concl = NA_STR
         | Some f =>
             real_list (poss f) = true
             /\ (forall g, group_index g < group_index f ->
                           real_list (poss g) = false)
             /\ candidates_of concl
                = filter (in_all_groups poss f) (candidates_of (poss f))
             /\ (filter (in_all_groups poss f) (candidates_of (poss f)) = [] ->
                 concl = NA_STR)
             /\ (forall t, In t (candidates_of concl) ->
                   forall g, real_list (poss g) = true ->
                     strstr (poss g) t = true
                     /\ (length t = 6%nat -> In t (candidates_of (poss g))))
             /\ (forall t, in_all_groups poss f t = true
                   <-> forall g, g <> f -> real_list (poss g) = true ->
                                 strstr (poss g) t = true)
         end.
Proof.
  intros rows A cap c match_row jedec Hwf rep.
  set (M := compute_db_means_closest rows A cap).
  set (P := build_possible_chips_for_all_groups rows A cap
              (db_read M) (db_write M) (db_erase M)).
  exists (column_poss P c),
         (conclude_possible_chips_across_groups (column_poss P c) CONCL_CAP).
  split; [ intros g; apply report_cell_possible_chips | ].
  split; [ apply report_cell_conclusion | ].
  assert (Hok : forall g, cell_ok (column_poss P c g))
    by (intros g; now apply column_poss_ok).
  pose proof (conclude_spec (column_poss P c) Hok) as Hspec.
  destruct (find_first_group (column_poss P c)) as [f | ] eqn:Ef;
    [ | exact Hspec ].
  destruct Hspec as [Hreal Hconcl].
  set (poss := column_poss P c) in *.
  set (kept := filter (in_all_groups poss f) (candidates_of (poss f))) in *.
  assert (Hkept : forall t, In t kept ->
            In t (strtok_all SLASH (poss f)) /\ in_all_groups poss f t = true).
  { intros t Ht. subst kept. apply filter_In in Ht. destruct Ht as [Ht Hall].
    split; [ | exact Hall ]. unfold candidates_of in Ht.
    destruct (cstr_eqb (poss f) NA_STR); [ destruct Ht | exact Ht ]. }
  assert (Hseed : Forall token_ok (strtok_all SLASH (poss f))).
  { destruct (Hok f) as [E | [_ H]]; [ | exact H ].
    unfold real_list in Hreal. rewrite E in Hreal. discriminate. }
  assert (Hcand : candidates_of
                    (conclude_possible_chips_across_groups poss CONCL_CAP)
                  = kept).
  { rewrite Hconcl. apply candidates_of_join_xdigits.
    apply Forall_forall. intros t Ht. destruct (Hkept t Ht) as [Hin _].
    rewrite Forall_forall in Hseed. split; [ apply (Hseed t Hin) | ].
    exact (proj2 (strtok_all_in _ _ _ Hin)). }
  split; [ exact Hreal | ].
  split; [ now apply find_first_group_first | ].
  split; [ exact Hcand | ].
  split; [ intros E; rewrite Hconcl, E; reflexivity | ].
  split; [ | apply in_all_groups_spec ].
  intros t Ht g Hg. rewrite Hcand in Ht.
  destruct (Hkept t Ht) as [Hin Hall].
  assert (Hsub : strstr (poss g) t = true).
  { destruct (group_eqb g f) eqn:E.
    - apply group_eqb_eq in E. subst g. apply candidate_strstr.
      subst kept. apply filter_In in Ht. tauto.
    - apply (proj1 (in_all_groups_spec poss f t) Hall); [ | exact Hg ].
      intros ->. rewrite (proj2 (group_eqb_eq f f) eq_refl) in E. discriminate. }
  split; [ exact Hsub | ].
  intros H6. apply strstr_candidate; auto.
  exact (proj1 (strtok_all_in _ _ _ Hin)).
Qed.

(** C5. For each operation, with the cells of the report: when no group has
    a real list the conclusion is NA; otherwise the seed is the first group
    with a real list, the conclusion lists, in the order of the seed, the
    entries of the seed that occur in the list of every other group with a
    real list (a group whose list is NA or empty does not constrain), and it
    is NA when no entry is left.  Every entry of the conclusion occurs in the
    list of every group with a real list, and a six-character entry, a
    JEDEC, is an entry of each of those lists. *)
Theorem conclusion_within_every_group :
  forall inp c,
    let rep := report_generate_csv inp in
    exists (poss : group_t -> cstr) (concl : cstr),
      (forall g, report_cell (possible_chips_title g) c rep = Some (poss g))
      /\ report_cell (lit "conclusion_possible_chips") c rep = Some concl
      /\ match find_first_group poss with
         | None => concl = NA_STR
         | Some f =>
             real_list (poss f) = true
             /\ (forall g, group_index g < group_index f ->
                           real_list (poss g) = false)
             /\ candidates_of concl
                = filter (in_all_groups poss f) (candidates_of (poss f))
             /\ (filter (in_all_groups poss f) (candidates_of (poss f)) = [] ->
                 concl = NA_STR)
             /\ (forall t, In t (candidates_of concl) ->
                   forall g, real_list (poss g) = true ->
                     strstr (poss g) t = true
                     /\ (length t = 6%nat -> In t (candidates_of (poss g))))
             /\ (forall t, in_all_groups poss f t = true
                   <-> forall g, g <> f -> real_list (poss g) = true ->
                                 strstr (poss g) t = true)
         end.
Proof.
  intros inp c rep. subst rep. rewrite report_generate_csv_unfold.
  apply conclusion_of_cells. apply load_database_wf.
Qed.

(** two chips that differ in the 64 KB erase time only: both are listed for
    4 KB and 32 KB, one for 64 KB, and the conclusion keeps that one *)
Example conclusion_two_chips :
  let M := compute_db_means_closest rows_two_chips agg_three_groups 0 in
  let P := build_possible_chips_for_all_groups rows_two_chips agg_three_groups 0
             (db_read M) (db_write M) (db_erase M) in
  map (poss_erase P) [G_4K; G_32K; G_64K]
  = [lit "111111/222222"; lit "111111/222222"; lit "111111"]
  /\ conclude_possible_chips_across_groups (poss_erase P) CONCL_CAP
     = lit "111111"
  /\ conclude_possible_chips_across_groups (poss_read P) CONCL_CAP = NA_STR.
Proof. repeat split; vm_compute; reflexivity. Qed.

(** * The fields that are not read *)

Lemma field_char_spec c :
  field_char c = true -> c <> COMMA /\ c <> NUL /\ c <> LF.
Proof.
  unfold field_char. intros H. apply negb_true_iff in H.
  repeat (apply orb_false_iff in H; destruct H as [H ?]).
  repeat match goal with
         | E : Ascii.eqb _ _ = false |- _ => apply Ascii.eqb_neq in E
         end.
  repeat split; assumption.
Qed.

Lemma field_ok_spec f :
  field_ok f = true ->
  nonempty f = true /\ Forall (fun c => field_char c = true) f.
Proof.
  unfold field_ok. intros H. apply andb_true_iff in H as [Hn Hf].
  split; [ assumption | ]. apply Forall_forall. now apply forallb_forall.
Qed.

Lemma field_ok_no_comma f : field_ok f = true -> ~ In COMMA f.
Proof.
  intros H Hin. apply field_ok_spec in H as [_ H].
  rewrite Forall_forall in H. now apply H, field_char_spec in Hin.
Qed.

(** the tokens of the line of a record are its fields *)
Lemma strtok_all_fields r : forall f,
  ~ In COMMA f ->
  forallb field_ok r = true ->
  strtok_all COMMA (f ++ flat_map (fun x => COMMA :: x) r)
  = strtok_all COMMA f ++ r.
Proof.
  induction r as [ | g r IH]; intros f Hf Hr; cbn [flat_map].
  - now rewrite !app_nil_r.
  - cbn [forallb] in Hr. apply andb_true_iff in Hr as [Hg Hr].
    cbn [app]. rewrite strtok_all_app_sep.
    rewrite IH by (try assumption; now apply field_ok_no_comma).
    rewrite (strtok_all_token COMMA g);
      [ reflexivity | now apply field_ok_no_comma
      | now apply field_ok_spec in Hg ].
Qed.

Lemma strtok_all_csv_line r :
  forallb field_ok r = true -> strtok_all COMMA (csv_line r) = r.
Proof.
  destruct r as [ | f r]; [ reflexivity | ]. intros H.
  cbn [forallb] in H. apply andb_true_iff in H as [Hf Hr]. cbn [csv_line].
  rewrite strtok_all_fields by (try assumption; now apply field_ok_no_comma).
  rewrite strtok_all_token;
    [ reflexivity | now apply field_ok_no_comma
    | now apply field_ok_spec in Hf ].
Qed.

(** the characters of the line of a record *)
Lemma csv_line_chars r :
  forallb field_ok r = true ->
  Forall (fun c => c = COMMA \/ field_char c = true) (csv_line r).
Proof.
  destruct r as [ | f r]; [ constructor | ]. intros H.
  cbn [forallb] in H. apply andb_true_iff in H as [Hf Hr]. cbn [csv_line].
  apply Forall_app. split.
  - apply field_ok_spec in Hf as [_ Hf].
    eapply Forall_impl; [ | exact Hf ]. intros c Hc. now right.
  - induction r as [ | g r IH]; [ constructor | ].
    cbn [forallb] in Hr. apply andb_true_iff in Hr as [Hg Hr].
    cbn [flat_map]. constructor; [ now left | ].
    apply Forall_app. split; [ | now apply IH ].
    apply field_ok_spec in Hg as [_ Hg].
    eapply Forall_impl; [ | exact Hg ]. intros c Hc. now right.
Qed.

Lemma csv_line_no_nul r :
  forallb field_ok r = true -> ~ In NUL (csv_line r).
Proof.
  intros H Hin. apply csv_line_chars in H. rewrite Forall_forall in H.
  destruct (H _ Hin) as [E | E]; [ discriminate E | ].
  now apply field_char_spec in E.
Qed.

Lemma csv_line_no_lf r :
  forallb field_ok r = true -> no_lf (csv_line r).
Proof.
  intros H Hin. apply csv_line_chars in H. rewrite Forall_forall in H.
  destruct (H _ Hin) as [E | E]; [ discriminate E | ].
  now apply field_char_spec in E.
Qed.

Lemma c_str_no_nul s : ~ In NUL s -> c_str s = s.
Proof.
  induction s as [ | c s IH]; intros H; cbn [c_str]; [ reflexivity | ].
  destruct (Ascii.eqb_spec c NUL) as [-> | _]; [ exfalso; apply H; now left | ].
  rewrite IH; [ reflexivity | ]. intros Hin. apply H. now right.
Qed.

Lemma c_str_length s : (length (c_str s) <= length s)%nat.
Proof.
  induction s as [ | c s IH]; cbn [c_str length]; [ lia | ].
  destruct (Ascii.eqb c NUL); cbn [length]; lia.
Qed.

(** ** What [trim] does to a line *)

Lemma drop_while_split p s :
  exists a, s = a ++ drop_while p s /\ Forall (fun c => p c = true) a.
Proof.
  induction s as [ | c s (a & E & Ha)]; [ exists []; split; [ reflexivity | constructor ] | ].
  cbn [drop_while]. destruct (p c) eqn:Hc.
  - exists (c :: a). split; [ cbn [app]; now rewrite <- E | now constructor ].
  - exists []. split; [ reflexivity | constructor ].
Qed.

Lemma drop_while_first p s c r : drop_while p s = c :: r -> p c = false.
Proof.
  induction s as [ | x s IH]; cbn [drop_while]; [ discriminate | ].
  destruct (p x) eqn:Hx; [ exact IH | ]. intros E. now inversion E; subst.
Qed.

Lemma drop_while_all_app p a s :
  Forall (fun c => p c = true) a -> drop_while p (a ++ s) = drop_while p s.
Proof.
  induction 1 as [ | c a Hc _ IH]; [ reflexivity | ].
  cbn [app drop_while]. now rewrite Hc.
Qed.

Lemma drop_while_length p s : (length (drop_while p s) <= length s)%nat.
Proof.
  induction s as [ | c s IH]; cbn [drop_while]; [ lia | ].
  destruct (p c); cbn [length]; lia.
Qed.

Lemma drop_while_Forall (P : ascii -> Prop) p s :
  Forall P s -> Forall P (drop_while p s).
Proof.
  induction 1 as [ | c s Hc Hs IH]; cbn [drop_while]; [ constructor | ].
  destruct (p c); [ exact IH | now constructor ].
Qed.

Lemma trim_length s : (length (trim s) <= length s)%nat.
Proof.
  unfold trim.
  pose proof (drop_while_length trim_head_char
                (rev (drop_while trim_tail_char (rev s)))) as H1.
  pose proof (drop_while_length trim_tail_char (rev s)) as H2.
  rewrite length_rev in H1, H2. lia.
Qed.

(** [trim] on a string whose two ends are kept, with or without its line
    feed *)
Lemma trim_kept c0 rest init c1 :
  c0 :: rest = init ++ [c1] ->
  trim_head_char c0 = false -> trim_tail_char c1 = false ->
  trim (c0 :: rest) = c0 :: rest
  /\ trim ((c0 :: rest) ++ [LF]) = c0 :: rest.
Proof.
  intros E H0 H1. unfold trim. rewrite !E.
  rewrite rev_app_distr, !rev_app_distr. cbn [rev app drop_while].
  change (trim_tail_char LF) with true. cbv iota. rewrite H1.
  change (c1 :: rev init) with (rev [c1] ++ rev init).
  rewrite <- rev_app_distr, rev_involutive, <- E.
  cbn [drop_while]. now rewrite H0.
Qed.

(** [trim] takes the middle of a string between a run of spaces and tabs
    and a run of carriage returns, line feeds, spaces and tabs *)
Lemma trim_middle a c0 rest init c1 b :
  c0 :: rest = init ++ [c1] ->
  trim_head_char c0 = false -> trim_tail_char c1 = false ->
  Forall (fun c => trim_head_char c = true) a ->
  Forall (fun c => trim_tail_char c = true) b ->
  trim (a ++ (c0 :: rest) ++ b) = c0 :: rest.
Proof.
  intros E H0 H1 Ha Hb. unfold trim.
  rewrite !rev_app_distr, <- app_assoc.
  rewrite drop_while_all_app by now apply Forall_rev.
  rewrite E at 1. rewrite rev_app_distr. cbn [rev app drop_while].
  rewrite H1.
  change (c1 :: rev init ++ rev a) with ((rev [c1] ++ rev init) ++ rev a).
  rewrite <- rev_app_distr, <- E, <- rev_app_distr, rev_involutive.
  rewrite drop_while_all_app by exact Ha.
  cbn [drop_while]. now rewrite H0.
Qed.

Lemma trim_start_parts f :
  nonempty (trim_start f) = true ->
  exists a c0 rest,
    f = a ++ c0 :: rest /\ trim_start f = c0 :: rest
    /\ trim_head_char c0 = false
    /\ Forall (fun c => trim_head_char c = true) a.
Proof.
  unfold trim_start. intros Hn.
  destruct (drop_while_split trim_head_char f) as (a & E & Ha).
  destruct (drop_while trim_head_char f) as [ | c0 rest] eqn:Ed;
    [ discriminate | ].
  exists a, c0, rest. repeat split; try assumption.
  exact (drop_while_first _ _ _ _ Ed).
Qed.

Lemma trim_end_parts f :
  nonempty (trim_end f) = true ->
  exists init c1 b,
    f = init ++ [c1] ++ b /\ trim_end f = init ++ [c1]
    /\ trim_tail_char c1 = false
    /\ Forall (fun c => trim_tail_char c = true) b.
Proof.
  unfold trim_end. intros Hn.
  destruct (drop_while_split trim_tail_char (rev f)) as (t & E & Ht).
  destruct (drop_while trim_tail_char (rev f)) as [ | c1 x] eqn:Ed;
    [ discriminate | ].
  exists (rev x), c1, (rev t). repeat split.
  - rewrite <- (rev_involutive f), E, rev_app_distr. cbn [rev].
    now rewrite <- app_assoc.
  - exact (drop_while_first _ _ _ _ Ed).
  - now apply Forall_rev.
Qed.

Lemma csv_line_snoc f0 mid fl :
  csv_line (f0 :: mid ++ [fl])
  = f0 ++ flat_map (fun x => COMMA :: x) mid ++ COMMA :: fl.
Proof.
  cbn [csv_line]. rewrite flat_map_app. cbn [flat_map].
  now rewrite app_nil_r.
Qed.

(** the line of a record after [trim]: the record with its first field cut
    at the start and its last field cut at the end *)
Lemma trim_record_line f0 mid fl b :
  nonempty (trim_start f0) = true -> nonempty (trim_end fl) = true ->
  Forall (fun c => trim_tail_char c = true) b ->
  trim (csv_line (f0 :: mid ++ [fl]) ++ b)
  = csv_line (trim_start f0 :: mid ++ [trim_end fl]).
Proof.
  intros H0 H1 Hb.
  destruct (trim_start_parts f0 H0) as (a & c0 & rest & E0 & T0 & Hc0 & Ha).
  destruct (trim_end_parts fl H1) as (init & c1 & t & E1 & T1 & Hc1 & Ht).
  rewrite !csv_line_snoc, T0, T1.
  rewrite E0 at 1. rewrite E1 at 1.
  set (mids := flat_map (fun x => COMMA :: x) mid).
  transitivity
    (trim (a ++ (c0 :: rest ++ mids ++ COMMA :: init ++ [c1]) ++ t ++ b)).
  { f_equal. repeat (rewrite <- ?app_assoc; cbn [app]). reflexivity. }
  apply (trim_middle a c0 (rest ++ mids ++ COMMA :: init ++ [c1])
           ((c0 :: rest) ++ mids ++ COMMA :: init) c1 (t ++ b)).
  - repeat (rewrite <- ?app_assoc; cbn [app]). reflexivity.
  - exact Hc0.
  - exact Hc1.
  - exact Ha.
  - apply Forall_app. now split.
Qed.

Lemma trim_start_ok f :
  field_ok f = true -> nonempty (trim_start f) = true ->
  field_ok (trim_start f) = true.
Proof.
  intros Hf Hn. apply field_ok_spec in Hf as [_ Hf].
  unfold field_ok. rewrite Hn. cbn [andb]. apply forallb_forall.
  apply Forall_forall. now apply drop_while_Forall.
Qed.

Lemma trim_end_ok f :
  field_ok f = true -> nonempty (trim_end f) = true ->
  field_ok (trim_end f) = true.
Proof.
  intros Hf Hn. apply field_ok_spec in Hf as [_ Hf].
  unfold field_ok. rewrite Hn. cbn [andb]. apply forallb_forall.
  apply Forall_forall. unfold trim_end.
  now apply Forall_rev, drop_while_Forall, Forall_rev.
Qed.

(** the shape of a record of at least six fields *)
Lemma record_shape r :
  record_ok r = true ->
  exists f0 mid fl,
    r = f0 :: mid ++ [fl] /\ (4 <= length mid)%nat
    /\ forallb field_ok r = true
    /\ nonempty (trim_start f0) = true /\ nonempty (trim_end fl) = true
    /\ (length (csv_line r) < 512)%nat.
Proof.
  unfold record_ok. intros H.
  apply andb_true_iff in H as [H Hlen]. apply andb_true_iff in H as [H Hl].
  apply andb_true_iff in H as [H Hs]. apply andb_true_iff in H as [H6 Hr].
  apply Nat.ltb_lt in Hlen. apply Nat.leb_le in H6.
  change (Z.to_nat MAX_LINE) with 512%nat in Hlen.
  destruct r as [ | f0 rest]; [ simpl in H6; lia | ].
  destruct (exists_last (l := rest)) as (mid & fl & E).
  { intros ->. simpl in H6. lia. }
  subst rest. exists f0, mid, fl.
  assert (Hlast : last (f0 :: mid ++ [fl]) [] = fl).
  { change (f0 :: mid ++ [fl]) with ((f0 :: mid) ++ [fl]). apply last_last. }
  rewrite Hlast in Hl. cbn [hd] in Hs.
  repeat split; try assumption.
  cbn [length] in H6. rewrite length_app in H6. cbn [length] in H6. lia.
Qed.

Lemma nth_firstn_lt {A : Type} (d : A) : forall k i (l : list A),
  (i < k)%nat -> nth i (firstn k l) d = nth i l d.
Proof.
  induction k as [ | k IH]; intros i l Hi; [ lia | ].
  destruct l as [ | x l]; [ reflexivity | ].
  destruct i as [ | i]; [ reflexivity | ]. cbn [firstn nth]. apply IH. lia.
Qed.

Lemma nth_inner {A : Type} (d x y x' y' : A) mid i :
  (1 <= i <= length mid)%nat ->
  nth i (x :: mid ++ [y]) d = nth i (x' :: mid ++ [y']) d.
Proof.
  intros Hi. destruct i as [ | i]; [ lia | ]. cbn [nth].
  now rewrite !app_nth1 by lia.
Qed.

(** the body of the reading loop in terms of the fields of the buffer *)
Lemma collect_line_fields cap V buf :
  collect_line cap V buf
  = if (length (buf_fields buf) <? 6)%nat then V
    else collect_sample cap V (nth 1 (buf_fields buf) [])
           (nth 2 (buf_fields buf) []) (nth 4 (buf_fields buf) []).
Proof.
  unfold collect_line, buf_fields.
  destruct (trim (c_str buf)) as [ | c l]; reflexivity.
Qed.

(** the fields read from the line of a record: at least six, and fields 1,
    2 and 4 are those of the record *)
Lemma buf_fields_record r :
  record_ok r = true ->
  (6 <= length (buf_fields (buf_of (csv_line r))))%nat
  /\ nth 1 (buf_fields (buf_of (csv_line r))) [] = nth 1 r []
  /\ nth 2 (buf_fields (buf_of (csv_line r))) [] = nth 2 r []
  /\ nth 4 (buf_fields (buf_of (csv_line r))) [] = nth 4 r [].
Proof.
  intros Hok.
  destruct (record_shape r Hok) as (f0 & mid & fl & -> & Hm & Hr & H0 & H1 & Hlen).
  set (r := f0 :: mid ++ [fl]) in *.
  set (r' := trim_start f0 :: mid ++ [trim_end fl]).
  assert (Hr' : forallb field_ok r' = true).
  { subst r r'. cbn [forallb] in *. apply andb_true_iff in Hr as [Hf0 Hrest].
    rewrite forallb_app in Hrest. apply andb_true_iff in Hrest as [Hmid Hfl].
    cbn [forallb] in Hfl. rewrite andb_true_r in Hfl.
    rewrite (trim_start_ok f0 Hf0 H0), forallb_app, Hmid. cbn [forallb andb].
    now rewrite (trim_end_ok fl Hfl H1). }
  assert (Htrim : trim (c_str (buf_of (csv_line r))) = csv_line r').
  { pose proof (csv_line_no_nul r Hr) as Hnul.
    unfold buf_of. change (Z.to_nat MAX_LINE - 1)%nat with 511%nat.
    destruct (Nat.eq_dec (length (csv_line r)) 511) as [E | N].
    - rewrite firstn_app, E, Nat.sub_diag, firstn_O.
      rewrite app_nil_r, <- E, firstn_all.
      rewrite c_str_no_nul by exact Hnul.
      rewrite <- (app_nil_r (csv_line r)).
      apply trim_record_line; [ assumption | assumption | constructor ].
    - rewrite firstn_all2 by (rewrite length_app; cbn [length]; lia).
      rewrite c_str_no_nul.
      + apply trim_record_line; [ assumption | assumption | ].
        constructor; [ reflexivity | constructor ].
      + intros Hin. apply in_app_or in Hin as [Hin | [Hin | []]];
          [ now apply Hnul | discriminate Hin ]. }
  assert (Hlen' : (length (csv_line r') <= 511)%nat).
  { rewrite <- Htrim.
    pose proof (trim_length (c_str (buf_of (csv_line r)))) as H.
    pose proof (c_str_length (buf_of (csv_line r))) as Hc.
    assert (Hb : (length (buf_of (csv_line r)) <= 511)%nat).
    { unfold buf_of. rewrite length_firstn.
      change (Z.to_nat MAX_LINE - 1)%nat with 511%nat. lia. }
    lia. }
  unfold buf_fields. rewrite Htrim. unfold strncpy_z.
  rewrite (firstn_all2 (n := Z.to_nat MAX_LINE - 1) (csv_line r'))
    by (change (Z.to_nat MAX_LINE - 1)%nat with 511%nat; lia).
  change ","%char with COMMA. rewrite (strtok_all_csv_line r' Hr').
  split.
  - rewrite length_firstn. unfold FLDS_MAX. subst r'.
    cbn [length]. rewrite length_app. cbn [length]. lia.
  - unfold FLDS_MAX. rewrite !nth_firstn_lt by lia. subst r r'.
    repeat split; apply nth_inner; lia.
Qed.

(** of a record, [collect_aggregates] reads fields 1, 2 and 4 only *)
Lemma collect_line_record cap V r :
  record_ok r = true ->
  collect_line cap V (buf_of (csv_line r))
  = collect_sample cap V (nth 1 r []) (nth 2 r []) (nth 4 r []).
Proof.
  intros Hok. rewrite collect_line_fields.
  destruct (buf_fields_record r Hok) as (H6 & E1 & E2 & E4).
  apply Nat.ltb_ge in H6. now rewrite H6, E1, E2, E4.
Qed.

Lemma collect_fold_records cap recs1 recs2 :
  Forall (fun r => record_ok r = true) recs1 ->
  Forall (fun r => record_ok r = true) recs2 ->
  Forall2 same_read_fields recs1 recs2 ->
  forall V,
    fold_left (collect_line cap) (map buf_of (map csv_line recs1)) V
    = fold_left (collect_line cap) (map buf_of (map csv_line recs2)) V.
Proof.
  intros H1 H2 H. induction H as [ | r1 r2 recs1 recs2 (E1 & E2 & E4) _ IH];
    intros V; [ reflexivity | ].
  inversion H1; subst. inversion H2; subst. cbn [map fold_left].
  rewrite !collect_line_record by assumption. rewrite E1, E2, E4.
  now apply IH.
Qed.

Lemma record_ok_no_lf r : record_ok r = true -> no_lf (csv_line r).
Proof.
  intros H. destruct (record_shape r H) as (_ & _ & _ & _ & _ & Hr & _).
  now apply csv_line_no_lf.
Qed.

Lemma results_of_lines recs :
  Forall (fun r => record_ok r = true) recs ->
  Forall no_lf (map csv_line recs).
Proof.
  intros H. apply Forall_map. eapply Forall_impl; [ | exact H ].
  intros r Hr. now apply record_ok_no_lf.
Qed.

(** C8 (amended): two results streams of records that have at least six
    fields each, no field empty (nor left empty by [trim], which cuts the
    spaces and tabs at the start of the line and the carriage returns,
    spaces and tabs at its end) and every line shorter than the 512 bytes of
    the line buffer: if the streams agree record by record on fields 1 (op),
    2 (size_bytes) and 4 (elapsed_us), then [collect_aggregates] gives the
    same aggregates, and [report_generate_csv] the same report, whatever
    fields 0, 3, 5 and the later ones hold, blanks included. *)
Theorem unread_fields_do_not_matter :
  forall baud cap recs1 recs2,
    Forall (fun r => record_ok r = true) recs1 ->
    Forall (fun r => record_ok r = true) recs2 ->
    Forall2 same_read_fields recs1 recs2 ->
    collect_aggregates baud cap (Some (results_of recs1))
    = collect_aggregates baud cap (Some (results_of recs2))
    /\ forall db jedec,
         report_generate_csv (mk_inputs db (Some (results_of recs1)) jedec baud)
         = report_generate_csv (mk_inputs db (Some (results_of recs2)) jedec baud).
Proof.
  intros baud cap recs1 recs2 H1 H2 H.
  assert (HV : forall cap',
             collect_vecs cap' (results_of recs1)
             = collect_vecs cap' (results_of recs2)).
  { intros cap'. unfold collect_vecs, results_of.
    rewrite !read_lines_stream by now apply results_of_lines.
    now apply collect_fold_records. }
  split.
  - unfold collect_aggregates. now rewrite HV.
  - intros db jedec. unfold report_generate_csv, report_of_rows.
    cbn [in_db in_results in_jedec_text in_baud_hz].
    unfold collect_aggregates. now rewrite HV.
Qed.

Lemma unread_fields_do_not_matter_witness :
  collect_aggregates 10000000 0
    (Some (results_of [rec_header; rec_logged; rec_erase]))
  = collect_aggregates 10000000 0
      (Some (results_of [rec_header; rec_logged_other; rec_erase_other]))
  /\ n (erase_s (collect_aggregates 10000000 0
                   (Some (results_of [rec_header; rec_logged; rec_erase])))
          G_4K) = 2.
Proof.
  split; [ | vm_compute; reflexivity ].
  refine (proj1 (unread_fields_do_not_matter 10000000 0
                   [rec_header; rec_logged; rec_erase]
                   [rec_header; rec_logged_other; rec_erase_other] _ _ _)).
  - repeat constructor.
  - repeat constructor.
  - repeat constructor.
Defined.

(** C8, the counterexample: the same erase sample with the address field
    filled or empty.  [strtok] returns no empty field, so the second record
    has five fields for [collect_aggregates] and is skipped: the 4 KB erase
    bucket holds one sample for the first stream and none for the second,
    and the n_4096B cell of the erase column is 1 in one report and NA in
    the other. *)
Lemma empty_field_drops_record :
  same_read_fields rec_erase rec_erase_no_addr
  /\ length rec_erase = 6%nat /\ length rec_erase_no_addr = 6%nat
  /\ nth 3 rec_erase [] <> nth 3 rec_erase_no_addr []
  /\ n (erase_s (collect_aggregates 10000000 0
                   (Some (results_of [rec_erase]))) G_4K) = 1
  /\ n (erase_s (collect_aggregates 10000000 0
                   (Some (results_of [rec_erase_no_addr]))) G_4K) = 0
  /\ report_cell (n_title G_4K) ColErase
       (report_generate_csv
          (mk_inputs None (Some (results_of [rec_erase])) (lit "BF 26 41")
             10000000))
     = Some (lit "1")
  /\ report_cell (n_title G_4K) ColErase
       (report_generate_csv
          (mk_inputs None (Some (results_of [rec_erase_no_addr]))
             (lit "BF 26 41") 10000000))
     = Some NA_STR.
Proof.
  split; [ repeat split; reflexivity | ].
  repeat split; try (vm_compute; reflexivity).
  vm_compute. discriminate.
Qed.

(** the two other conditions are needed as well: a first field of 500
    characters pushes the elapsed time out of the 511 characters that are
    read, and a last field made of a carriage return is cut by [trim]; in
    both cases the record, which has the same fields 1, 2 and 4, is
    skipped *)
Example long_or_blank_field_drops_record :
  same_read_fields rec_erase rec_erase_long
  /\ same_read_fields rec_erase rec_erase_blank_end
  /\ n (erase_s (collect_aggregates 10000000 0
                   (Some (results_of [rec_erase_long]))) G_4K) = 0
  /\ n (erase_s (collect_aggregates 10000000 0
                   (Some (results_of [rec_erase_blank_end]))) G_4K) = 0.
Proof. repeat split; vm_compute; reflexivity. Qed.

(** * The small utilities *)

Lemma drop_while_snoc p init c :
  p c = false -> drop_while p (init ++ [c]) = drop_while p init ++ [c].
Proof.
  intros Hc. induction init as [ | x init IH]; cbn [app drop_while].
  - now rewrite Hc.
  - destruct (p x); [ exact IH | reflexivity ].
Qed.

Lemma trim_head_is_tail c : trim_head_char c = true -> trim_tail_char c = true.
Proof.
  unfold trim_head_char, trim_tail_char. intros H.
  apply orb_true_iff in H as [-> | ->]; now rewrite ?orb_true_r.
Qed.

(** the three parts of a string for [trim] *)
Lemma trim_parts s :
  exists a b,
    s = a ++ trim s ++ b
    /\ Forall (fun c => trim_head_char c = true) a
    /\ Forall (fun c => trim_tail_char c = true) b
    /\ (forall c r, trim s = c :: r -> trim_head_char c = false)
    /\ (forall i c, trim s = i ++ [c] -> trim_tail_char c = false).
Proof.
  unfold trim.
  destruct (drop_while_split trim_tail_char (rev s)) as (b' & Eb & Hb).
  set (r' := drop_while trim_tail_char (rev s)) in *.
  destruct (drop_while_split trim_head_char (rev r')) as (a & Ea & Ha).
  exists a, (rev b'). repeat split.
  - rewrite <- (rev_involutive s), Eb, rev_app_distr.
    rewrite app_assoc. now rewrite <- Ea.
  - assumption.
  - now apply Forall_rev.
  - intros c r. apply drop_while_first.
  - intros i c E. destruct r' as [ | c1 r1] eqn:Er.
    { cbn in E. now destruct i. }
    assert (H1 : trim_tail_char c1 = false).
    { apply (drop_while_first trim_tail_char (rev s) c1 r1). exact Er. }
    assert (H0 : trim_head_char c1 = false).
    { destruct (trim_head_char c1) eqn:Hh; [ | reflexivity ].
      apply trim_head_is_tail in Hh. congruence. }
    cbn [rev] in E. rewrite (drop_while_snoc _ _ _ H0) in E.
    apply app_inj_tail in E as [_ ->]. exact H1.
Qed.

(** X1.  [trim] removes a run of spaces and tabs at the start and a run of
    carriage returns, line feeds, spaces and tabs at the end, and nothing
    else: what is left neither starts with a space or a tab nor ends with
    one of the four characters. *)
Theorem trim_strips_both_ends :
  forall s,
    exists a b,
      s = a ++ trim s ++ b
      /\ Forall (fun c => In c [SP; TAB]) a
      /\ Forall (fun c => In c [CR; LF; SP; TAB]) b
      /\ (forall c r, trim s = c :: r -> ~ In c [SP; TAB])
      /\ (forall i c, trim s = i ++ [c] -> ~ In c [CR; LF; SP; TAB]).
Proof.
  intros s. destruct (trim_parts s) as (a & b & E & Ha & Hb & H0 & H1).
  exists a, b. split; [ exact E | ].
  assert (Hh : forall c, trim_head_char c = true <-> In c [SP; TAB]).
  { intros c. unfold trim_head_char. rewrite orb_true_iff, !Ascii.eqb_eq.
    cbn [In]. intuition congruence. }
  assert (Ht : forall c, trim_tail_char c = true <-> In c [CR; LF; SP; TAB]).
  { intros c. unfold trim_tail_char. rewrite !orb_true_iff, !Ascii.eqb_eq.
    cbn [In]. intuition congruence. }
  repeat split.
  - eapply Forall_impl; [ | exact Ha ]. intros c. apply Hh.
  - eapply Forall_impl; [ | exact Hb ]. intros c. apply Ht.
  - intros c r E' Hin. apply Hh in Hin. rewrite (H0 c r E') in Hin. discriminate.
  - intros i c E' Hin. apply Ht in Hin. rewrite (H1 i c E') in Hin. discriminate.
Qed.

(** a string whose two ends are kept is left as it is *)
Lemma trim_stable s :
  (forall c r, s = c :: r -> trim_head_char c = false) ->
  (forall i c, s = i ++ [c] -> trim_tail_char c = false) ->
  trim s = s.
Proof.
  intros H0 H1. destruct s as [ | c0 rest]; [ reflexivity | ].
  destruct (exists_last (l := c0 :: rest)) as (init & c1 & E1);
    [ discriminate | ].
  apply (trim_kept c0 rest init c1 E1).
  - now apply (H0 c0 rest).
  - now apply (H1 init c1).
Qed.

(** X2.  [trim] is idempotent: a trimmed string is left as it is. *)
Theorem trim_idempotent : forall s, trim (trim s) = trim s.
Proof.
  intros s. destruct (trim_parts s) as (a & b & _ & _ & _ & H0 & H1).
  apply trim_stable.
  - intros c r E. exact (H0 c r E).
  - intros i c E. exact (H1 i c E).
Qed.

(** ** [normalize_jedec] *)

Lemma not_xdigit_x c :
  Ascii.eqb c "x" || Ascii.eqb c "X" = true -> isxdigit c = false.
Proof.
  intros H. apply orb_true_iff in H as [H | H];
    apply Ascii.eqb_eq in H; subst; reflexivity.
Qed.

Lemma normalize_jedec_loop_closed inp : forall tmp,
  (length tmp <= 6)%nat ->
  normalize_jedec_loop inp tmp = firstn 6 (tmp ++ hex_digits inp).
Proof.
  unfold hex_digits.
  induction inp as [ | c r IH]; intros tmp Ht; cbn [normalize_jedec_loop].
  - cbn [filter map]. rewrite app_nil_r. now rewrite firstn_all2.
  - destruct (Nat.leb_spec 6 (length tmp)) as [H6 | H6].
    + rewrite firstn_app. replace (6 - length tmp)%nat with 0%nat by lia.
      rewrite firstn_O, app_nil_r. now rewrite firstn_all2.
    + cbn [filter].
      destruct (Ascii.eqb c "x" || Ascii.eqb c "X") eqn:Hx.
      * rewrite (not_xdigit_x c Hx). now apply IH.
      * destruct (isxdigit c); [ | now apply IH ].
        rewrite IH by (rewrite length_app; simpl; lia).
        cbn [map]. now rewrite <- app_assoc.
Qed.

(** X3.  [normalize_jedec] gives the first six hexadecimal digits of its
    argument, upper-cased, when the argument holds at least six, and the
    empty string otherwise; every other character is skipped. *)
Theorem normalize_jedec_hex_digits :
  forall s,
    normalize_jedec s
    = if (6 <=? length (hex_digits s))%nat then firstn 6 (hex_digits s) else [].
Proof.
  intros s. unfold normalize_jedec.
  rewrite normalize_jedec_loop_closed by (simpl; lia). cbn [app].
  rewrite length_firstn.
  destruct (Nat.leb_spec 6 (length (hex_digits s))) as [H | H].
  - replace (Nat.min 6 (length (hex_digits s))) with 6%nat by lia. reflexivity.
  - destruct (Nat.eqb_spec (Nat.min 6 (length (hex_digits s))) 6); [ lia | ].
    reflexivity.
Qed.

(** the two cases of [normalize_jedec] *)
Lemma normalize_jedec_cases s :
  ((6 <= length (hex_digits s))%nat
   /\ normalize_jedec s = firstn 6 (hex_digits s))
  \/ ((length (hex_digits s) < 6)%nat /\ normalize_jedec s = []).
Proof.
  unfold normalize_jedec.
  rewrite normalize_jedec_loop_closed by (simpl; lia). cbn [app].
  rewrite length_firstn.
  destruct (Nat.le_gt_cases 6 (length (hex_digits s))) as [H | H].
  - left. split; [ exact H | ].
    replace (Nat.min 6 (length (hex_digits s))) with 6%nat by lia. reflexivity.
  - right. split; [ exact H | ].
    destruct (Nat.eqb_spec (Nat.min 6 (length (hex_digits s))) 6); [ lia | ].
    reflexivity.
Qed.

Lemma normalize_jedec_same s1 s2 :
  hex_digits s1 = hex_digits s2 -> normalize_jedec s1 = normalize_jedec s2.
Proof.
  intros E.
  destruct (normalize_jedec_cases s1) as [[H1 ->] | [H1 ->]],
           (normalize_jedec_cases s2) as [[H2 ->] | [H2 ->]];
    rewrite E in *; try reflexivity; lia.
Qed.

Lemma toupper_idempotent c : toupper (toupper c) = toupper c.
Proof.
  destruct c as [[ | ] [ | ] [ | ] [ | ] [ | ] [ | ] [ | ] [ | ]]; reflexivity.
Qed.

Lemma isxdigit_toupper_eq c : isxdigit (toupper c) = isxdigit c.
Proof.
  destruct c as [[ | ] [ | ] [ | ] [ | ] [ | ] [ | ] [ | ] [ | ]]; reflexivity.
Qed.

Lemma hex_digits_app a b : hex_digits (a ++ b) = hex_digits a ++ hex_digits b.
Proof. unfold hex_digits. now rewrite filter_app, map_app. Qed.

Lemma hex_digits_fixed s :
  Forall (fun c => isxdigit c = true /\ toupper c = c) s -> hex_digits s = s.
Proof.
  unfold hex_digits. induction 1 as [ | c s [Hx Hu] _ IH]; [ reflexivity | ].
  cbn [filter]. rewrite Hx. cbn [map]. now rewrite Hu, IH.
Qed.

Lemma hex_digits_upper s :
  Forall (fun c => isxdigit c = true /\ toupper c = c) (hex_digits s).
Proof.
  unfold hex_digits. induction s as [ | c s IH]; [ constructor | ].
  cbn [filter]. destruct (isxdigit c) eqn:Hx; [ | exact IH ].
  cbn [map]. constructor; [ | exact IH ].
  split; [ now rewrite isxdigit_toupper_eq | apply toupper_idempotent ].
Qed.

(** X4.  A normalised JEDEC is a fixed point of [normalize_jedec], and the
    result depends neither on the case of the letters nor on the characters
    that are not hexadecimal digits. *)
Theorem normalize_jedec_stable :
  forall s,
    normalize_jedec (normalize_jedec s) = normalize_jedec s
    /\ normalize_jedec (map toupper s) = normalize_jedec s
    /\ normalize_jedec (filter isxdigit s) = normalize_jedec s.
Proof.
  intros s. repeat split.
  - destruct (normalize_jedec_cases s) as [[H ->] | [H ->]]; [ | reflexivity ].
    assert (E : hex_digits (firstn 6 (hex_digits s)) = firstn 6 (hex_digits s)).
    { apply hex_digits_fixed. apply Forall_firstn_keep, hex_digits_upper. }
    destruct (normalize_jedec_cases (firstn 6 (hex_digits s)))
      as [[H' ->] | [H' _]]; rewrite E in *.
    + apply firstn_all2. rewrite length_firstn. lia.
    + rewrite length_firstn in H'. lia.
  - apply normalize_jedec_same. unfold hex_digits.
    induction s as [ | c s IH]; [ reflexivity | ].
    cbn [map filter]. rewrite isxdigit_toupper_eq.
    destruct (isxdigit c); [ | exact IH ].
    cbn [map]. now rewrite toupper_idempotent, IH.
  - apply normalize_jedec_same. unfold hex_digits. f_equal.
    induction s as [ | c s IH]; [ reflexivity | ].
    cbn [filter]. destruct (isxdigit c) eqn:Hx; [ | exact IH ].
    cbn [filter]. now rewrite Hx, IH.
Qed.

(** ** [split_fields] *)

Lemma fields_without_sep sep s : Forall (fun f => ~ In sep f) (fields sep s).
Proof.
  induction s as [ | c s IH]; cbn [fields].
  - constructor; [ intros [] | constructor ].
  - destruct (Ascii.eqb_spec c sep) as [-> | Hc].
    + constructor; [ intros [] | exact IH ].
    + destruct (fields sep s) as [ | h t]; inversion IH; subst.
      * constructor; [ | constructor ]. intros [E | []]. now apply Hc.
      * constructor; [ | assumption ]. intros [E | Hin]; [ now apply Hc | auto ].
Qed.

Lemma concat_fields sep s :
  concat (fields sep s) = filter (fun c => negb (Ascii.eqb c sep)) s.
Proof.
  induction s as [ | c s IH]; cbn [fields filter]; [ reflexivity | ].
  destruct (Ascii.eqb c sep); cbn [negb].
  - cbn [concat app]. exact IH.
  - pose proof (fields_not_nil sep s) as Hn.
    destruct (fields sep s) as [ | h t]; [ contradiction | ].
    cbn [concat app] in *. now rewrite <- IH.
Qed.

Lemma concat_filter_nonempty (l : list cstr) :
  concat (filter nonempty l) = concat l.
Proof.
  induction l as [ | x l IH]; [ reflexivity | ].
  cbn [filter]. destruct x as [ | c x]; cbn [nonempty concat app]; now rewrite IH.
Qed.

(** X5.  [split_fields] returns at most [max_fields] fields, cut at commas
    when the line holds one and at tabs otherwise; no field is empty and
    none holds the separator, so a run of separators counts as one; when
    the limit is not reached, the fields together are the line without its
    separators. *)
Theorem split_fields_tokens :
  forall line max_fields,
    let fs := split_fields line max_fields in
    let sep := split_sep line in
    (length fs <= max_fields)%nat
    /\ Forall (fun f => f <> [] /\ ~ In sep f) fs
    /\ ((length (strtok_all sep line) <= max_fields)%nat ->
        concat fs = filter (fun c => negb (Ascii.eqb c sep)) line).
Proof.
  intros line max_fields fs sep. subst fs sep.
  unfold split_fields, split_sep.
  set (sep := if strchr line "," then ","%char else TAB).
  repeat split.
  - rewrite length_firstn. lia.
  - apply Forall_firstn_keep. unfold strtok_all.
    apply Forall_forall. intros f Hf. apply filter_In in Hf as [Hin Hne].
    split; [ now destruct f | ].
    pose proof (fields_without_sep sep line) as H.
    rewrite Forall_forall in H. now apply H.
  - intros Hlen. rewrite firstn_all2 by exact Hlen.
    unfold strtok_all. now rewrite concat_filter_nonempty, concat_fields.
Qed.

(** ** [fatfs_gets] *)

Lemma fatfs_gets_loop_eof len l : forall buf,
  no_lf l ->
  (length buf <= len - 1)%nat ->
  fatfs_gets_loop len l buf = (buf ++ firstn (len - 1 - length buf) l, []).
Proof.
  induction l as [ | ch l IH]; intros buf Hl Hb; cbn [fatfs_gets_loop].
  - now rewrite firstn_nil, app_nil_r.
  - assert (Hch : Ascii.eqb ch LF = false).
    { apply Ascii.eqb_neq. intros ->. apply Hl. now left. }
    rewrite Hch.
    assert (Hl' : no_lf l) by (intros Hin; apply Hl; now right).
    destruct (Nat.ltb_spec (length buf) (len - 1)) as [Hlt | Hge].
    + rewrite IH by (try assumption; rewrite length_app; simpl; lia).
      rewrite length_app. cbn [length].
      replace (len - 1 - length buf)%nat
        with (S (len - 1 - (length buf + 1))) by lia.
      cbn [firstn]. now rewrite <- app_assoc.
    + rewrite IH by assumption.
      replace (len - 1 - length buf)%nat with 0%nat by lia. reflexivity.
Qed.

(** X6.  [fatfs_gets] with a buffer of [len > 1] bytes consumes one whole
    line of the file, line feed included, and keeps its first [len - 1]
    characters: the rest of a longer line is dropped, not left for the next
    call.  A last line without a line feed is read up to the end of the
    file, and the call fails only when nothing is left to read. *)
Theorem fatfs_gets_reads_one_line :
  forall len l rest,
    (1 < len)%nat -> no_lf l ->
    fatfs_gets len (l ++ LF :: rest) = (true, firstn (len - 1) (l ++ [LF]), rest)
    /\ fatfs_gets len l = (nonempty l, firstn (len - 1) l, []).
Proof.
  intros len l rest Hlen Hl. unfold fatfs_gets.
  destruct (Nat.leb_spec len 1) as [H | _]; [ lia | ].
  rewrite fatfs_gets_loop_line, fatfs_gets_loop_eof
    by (try assumption; simpl; lia).
  cbn [length app]. rewrite Nat.sub_0_r. split.
  - replace (len - 1)%nat with (S (len - 2)) by lia.
    destruct l as [ | c l]; reflexivity.
  - replace (len - 1)%nat with (S (len - 2)) by lia.
    destruct l as [ | c l]; reflexivity.
Qed.

Lemma fatfs_gets_reads_one_line_witness :
  fatfs_gets 4 (lit "abcdef" ++ LF :: lit "gh") = (true, lit "abc", lit "gh")
  /\ fatfs_gets 4 (lit "abcdef") = (true, lit "abc", []).
Proof.
  apply (fatfs_gets_reads_one_line 4 (lit "abcdef") (lit "gh")).
  - lia.
  - apply no_lf_check. reflexivity.
Defined.
(** * The statistics of a bucket *)

Lemma ordered_not_lt_le a b :
  ordered a = true -> ordered b = true -> F32.lt a b = false ->
  F32.le b a = true.
Proof. float_order. Qed.

Lemma ordered_le_zero a : ordered a = true -> F32.le F32.zero a = true.
Proof. unfold F32.zero. float_order. Qed.

Lemma calc_stats_n src : n (calc_stats_from_vec src) = Z.of_nat (length src).
Proof.
  destruct src as [ | first rest]; [ reflexivity | ].
  unfold calc_stats_from_vec.
  destruct (sum_min_max (first :: rest) first) as [[s mn] mx]. reflexivity.
Qed.

(** [minv] and [maxv] are the results of the two folds of the first loop *)
Lemma calc_stats_extremes first rest :
  let S := calc_stats_from_vec (first :: rest) in
  minv S = fold_left min_step (first :: rest) first
  /\ maxv S = fold_left max_step (first :: rest) first.
Proof.
  cbv zeta. unfold calc_stats_from_vec, sum_min_max.
  rewrite sum_min_max_split. split; reflexivity.
Qed.

(** X7.  For a vector of samples that are not NaN and not negative,
    [calc_stats_from_vec] reports as [minv] and [maxv] two of the samples,
    no sample being below the one or above the other, and as [n] the
    number of samples. *)
Theorem calc_stats_min_max :
  forall src,
    src <> [] ->
    Forall (fun v => ordered v = true) src ->
    let S := calc_stats_from_vec src in
    n S = Z.of_nat (length src)
    /\ In (minv S) src /\ In (maxv S) src
    /\ forall x, In x src ->
         F32.le (minv S) x = true /\ F32.le x (maxv S) = true.
Proof.
  intros src Hne Hord S. subst S. split; [ apply calc_stats_n | ].
  destruct src as [ | first rest]; [ contradiction | ].
  destruct (calc_stats_extremes first rest) as [-> ->].
  assert (Hord' : Forall (fun v => ordered v = true) (first :: first :: rest)).
  { constructor; [ now inversion Hord | exact Hord ]. }
  destruct (fold_min_least (first :: rest) first Hord') as [Hin Hmin].
  destruct (fold_max_greatest (first :: rest) first Hord') as [Hax Hmax].
  cbv zeta in *.
  assert (Hsub : forall x, In x (first :: first :: rest) -> In x (first :: rest)).
  { intros x [E | Hx]; [ now left | exact Hx ]. }
  rewrite Forall_forall in Hord.
  repeat split.
  - now apply Hsub.
  - now apply Hsub.
  - apply ordered_not_lt_le; [ now apply Hord | now apply Hord, Hsub | ].
    apply Hmin. now right.
  - apply ordered_not_lt_le; [ now apply Hord, Hsub | now apply Hord | ].
    apply Hmax. now right.
Qed.

Lemma calc_stats_min_max_witness :
  let src := [F32.f_3; F32.f_1; F32.f_8] in
  let S := calc_stats_from_vec src in
  n S = 3
  /\ In (minv S) src /\ In (maxv S) src
  /\ forall x, In x src ->
       F32.le (minv S) x = true /\ F32.le x (maxv S) = true.
Proof.
  apply (calc_stats_min_max [F32.f_3; F32.f_1; F32.f_8]).
  - discriminate.
  - repeat constructor.
Defined.

(** * Invariants of the aggregation *)

Lemma bucket_stats_ordered baud cap results g S :
  In S (bucket_stats (collect_aggregates baud cap results) g) ->
  0 < n S ->
  exists src, S = calc_stats_from_vec src /\ src <> []
              /\ Forall (fun v => ordered v = true) src.
Proof.
  destruct results as [f | ].
  - pose proof (collect_vecs_ordered cap f g) as Ho.
    unfold bucket_vectors in Ho.
    inversion Ho as [ | ? ? H1 Ho1 ]; subst.
    inversion Ho1 as [ | ? ? H2 Ho2 ]; subst.
    inversion Ho2 as [ | ? ? H3 Ho3 ]; subst.
    inversion Ho3 as [ | ? ? H4 Ho4 ]; subst.
    inversion Ho4 as [ | ? ? H5 _ ]; subst.
    unfold bucket_stats, collect_aggregates.
    cbn [read_s write_s erase_s read_lat_ms In].
    intros [E | [E | [E | [E | []]]]] Hn; subst S;
      rewrite calc_stats_n in Hn;
      match goal with
      | H : 0 < Z.of_nat (length ?v) |- _ =>
          exists v; split; [ reflexivity | split; [ | assumption ] ];
          intros E0; rewrite E0 in H; simpl in H; lia
      end.
  - unfold bucket_stats, collect_aggregates.
    cbn [read_s write_s erase_s read_lat_ms In].
    intros [E | [E | [E | [E | []]]]] Hn; subst S; simpl in Hn; lia.
Qed.

(** X8.  In the aggregates of every results file, a bucket that holds
    samples has a minimum and a maximum that are numbers (not NaN), not
    negative, and in order: [0 <= minv <= maxv]. *)
Theorem bucket_min_le_max :
  forall baud cap results g S,
    In S (bucket_stats (collect_aggregates baud cap results) g) ->
    0 < n S ->
    F32.le F32.zero (minv S) = true /\ F32.le (minv S) (maxv S) = true.
Proof.
  intros baud cap results g S HS Hn.
  destruct (bucket_stats_ordered baud cap results g S HS Hn)
    as (src & -> & Hne & Hord).
  destruct src as [ | first rest]; [ contradiction | ].
  destruct (calc_stats_extremes first rest) as [-> ->].
  assert (Hord' : Forall (fun v => ordered v = true) (first :: first :: rest)).
  { constructor; [ now inversion Hord | exact Hord ]. }
  destruct (fold_min_least (first :: rest) first Hord') as [Hin Hmin].
  destruct (fold_max_greatest (first :: rest) first Hord') as [Hax Hmax].
  cbv zeta in *. rewrite Forall_forall in Hord'. split.
  - apply ordered_le_zero. now apply Hord'.
  - apply ordered_not_lt_le; [ now apply Hord' | now apply Hord' | ].
    now apply Hmin.
Qed.

Lemma bucket_min_le_max_witness :
  let S := erase_s (collect_aggregates 10000000 0 (Some sample_erases)) G_4K in
  F32.le F32.zero (minv S) = true /\ F32.le (minv S) (maxv S) = true.
Proof.
  apply (bucket_min_le_max 10000000 0 (Some sample_erases) G_4K).
  - right. right. left. reflexivity.
  - vm_compute. reflexivity.
Defined.

Lemma vec_push_length (X : group_t -> list float) g x g' :
  length (vec_push X g x g')
  = (length (X g') + if group_eqb g' g then 1 else 0)%nat.
Proof.
  unfold vec_push. destruct (group_eqb g' g);
    [ rewrite length_app; reflexivity | lia ].
Qed.

Lemma vec_push_total (f : group_t -> nat) g :
  fold_right Nat.add 0%nat
    (map (fun g' => (f g' + if group_eqb g' g then 1 else 0)%nat) all_groups)
  = S (fold_right Nat.add 0%nat (map f all_groups)).
Proof. destruct g; cbn; lia. Qed.

(** what one record adds: at most one sample, and a read latency for every
    read throughput *)
Lemma collect_sample_counts cap V op fs fe :
  let V' := collect_sample cap V op fs fe in
  (vecs_count V' <= S (vecs_count V))%nat
  /\ forall g,
       (length (v_read V g) <= length (v_read_lat_ms V g))%nat ->
       length (v_read_us V g) = length (v_read_lat_ms V g) ->
       (length (v_read V' g) <= length (v_read_lat_ms V' g))%nat
       /\ length (v_read_us V' g) = length (v_read_lat_ms V' g).
Proof.
  unfold collect_sample.
  destruct (classify_group _ cap) as [g0 | ]; [ | cbv zeta; split; [ lia | auto ] ].
  cbv zeta. split_ifs; cbn [v_read v_write v_erase v_read_us v_read_lat_ms];
    (split; [ | intros g Hle Heq; rewrite ?vec_push_length; split; lia ]);
    try lia; unfold vecs_count;
    cbn [v_read v_write v_erase v_read_us v_read_lat_ms all_groups map
         fold_right];
    rewrite !vec_push_length;
    destruct g0; cbv [group_eqb group_index Z.eqb Pos.eqb]; lia.
Qed.

Lemma collect_line_counts cap V buf :
  let V' := collect_line cap V buf in
  (vecs_count V' <= S (vecs_count V))%nat
  /\ forall g,
       (length (v_read V g) <= length (v_read_lat_ms V g))%nat ->
       length (v_read_us V g) = length (v_read_lat_ms V g) ->
       (length (v_read V' g) <= length (v_read_lat_ms V' g))%nat
       /\ length (v_read_us V' g) = length (v_read_lat_ms V' g).
Proof.
  unfold collect_line.
  destruct (negb (nonempty (trim (c_str buf))));
    [ cbv zeta; split; [ lia | auto ] | ].
  cbv zeta.
  destruct (length _ <? 6)%nat; [ split; [ lia | auto ] | ].
  apply collect_sample_counts.
Qed.

Lemma collect_fold_counts cap bufs : forall V,
  let V' := fold_left (collect_line cap) bufs V in
  (vecs_count V' <= vecs_count V + length bufs)%nat
  /\ forall g,
       (length (v_read V g) <= length (v_read_lat_ms V g))%nat ->
       length (v_read_us V g) = length (v_read_lat_ms V g) ->
       (length (v_read V' g) <= length (v_read_lat_ms V' g))%nat
       /\ length (v_read_us V' g) = length (v_read_lat_ms V' g).
Proof.
  induction bufs as [ | buf bufs IH]; intros V; cbn [fold_left length].
  - cbv zeta. split; [ lia | auto ].
  - destruct (collect_line_counts cap V buf) as [H1 H2].
    destruct (IH (collect_line cap V buf)) as [I1 I2]. cbv zeta in *.
    split; [ lia | ]. intros g Hle Heq.
    destruct (H2 g Hle Heq) as [Hle' Heq']. now apply I2.
Qed.

(** X9.  Every line of RESULTS.CSV is counted at most once: the samples
    shown by the [n_] rows of the summary, all groups and the three columns
    together, are no more than the lines read; and a group never has more
    read-throughput samples (the ones the matcher uses) than read-latency
    samples (the ones the summary shows). *)
Theorem samples_counted_once :
  forall baud cap results,
    let A := collect_aggregates baud cap results in
    0 <= samples_counted A <= lines_read results
    /\ forall g, 0 <= n (read_s A g) <= n (read_lat_ms A g).
Proof.
  intros baud cap [f | ] A; subst A.
  - destruct (collect_fold_counts cap (read_lines f) vecs_init) as [H1 H2].
    cbv zeta in *. fold (collect_vecs cap f) in H1, H2.
    unfold collect_aggregates, lines_read. split.
    + unfold samples_counted.
      cbn [read_lat_ms write_s erase_s]. unfold vecs_count in H1.
      cbn [all_groups map fold_right] in *. rewrite !calc_stats_n.
      cbn [vecs_init v_read_lat_ms v_write v_erase length] in H1. lia.
    + intros g. cbn [read_s read_lat_ms]. rewrite !calc_stats_n.
      destruct (H2 g); cbn [vecs_init v_read v_read_us v_read_lat_ms length];
        lia.
  - split; [ vm_compute; split; discriminate | ].
    intros g. vm_compute. split; discriminate.
Qed.
(** * The report at its edges *)

Lemma report_cell_identity rows A match_row jedec cap c :
  let id := fill_identity_fields match_row jedec in
  let rep := write_report_csv rows A match_row jedec cap in
  report_cell (lit "detected_jedec") c rep = Some (f_detected_jedec id)
  /\ report_cell (lit "chip_model") c rep = Some (f_model id)
  /\ report_cell (lit "chip_family") c rep = Some (f_family id)
  /\ report_cell (lit "company") c rep = Some (f_company id)
  /\ report_cell (lit "capacity_mbit") c rep = Some (f_capacity_mbit id)
  /\ report_cell (lit "capacity_bytes") c rep = Some (f_capacity_bytes id).
Proof.
  cbv zeta. repeat split.
  - cell_at 1%nat
      (rep "detected_jedec" (f_detected_jedec (fill_identity_fields match_row jedec))).
    destruct c; reflexivity.
  - cell_at 2%nat
      (rep "chip_model" (f_model (fill_identity_fields match_row jedec))).
    destruct c; reflexivity.
  - cell_at 3%nat
      (rep "chip_family" (f_family (fill_identity_fields match_row jedec))).
    destruct c; reflexivity.
  - cell_at 4%nat
      (rep "company" (f_company (fill_identity_fields match_row jedec))).
    destruct c; reflexivity.
  - cell_at 5%nat
      (rep "capacity_mbit" (f_capacity_mbit (fill_identity_fields match_row jedec))).
    destruct c; reflexivity.
  - cell_at 6%nat
      (rep "capacity_bytes" (f_capacity_bytes (fill_identity_fields match_row jedec))).
    destruct c; reflexivity.
Qed.

(** X10.  Whatever the catalogue, the results file and the device, the
    report has the same 74 items in the same order: the header line, the
    identity rows, the eight summary rows of each group, the db_mean and
    possible_chips rows, the conclusion, the notes and the final-guess
    block. *)
Theorem report_rows_fixed :
  forall inp,
    map item_title (report_generate_csv inp) = report_titles
    /\ length (report_generate_csv inp) = 74%nat
    /\ hd (Text []) (report_generate_csv inp)
       = Text (lit "title,read,write,erase" ++ [LF]).
Proof.
  intros inp. rewrite report_generate_csv_unfold.
  assert (H : map item_title
                (write_report_csv (inputs_rows inp) (inputs_agg inp)
                   (inputs_match_row inp) (inputs_jedec inp)
                   (inputs_capacity inp)) = report_titles)
    by apply report_titles_eq.
  split; [ exact H | split ].
  - rewrite <- (length_map item_title), H. reflexivity.
  - reflexivity.
Qed.

Lemma normalize_jedec_length s : (length (normalize_jedec s) <= 6)%nat.
Proof.
  destruct (normalize_jedec_wf s) as [-> | [H _]]; [ simpl; lia | lia ].
Qed.

(** X11.  The detected_jedec row shows, in its three columns, the JEDEC of
    the device normalised to six hexadecimal digits, and NA when the text
    given by the device holds fewer than six. *)
Theorem detected_jedec_cell :
  forall inp c,
    report_cell (lit "detected_jedec") c (report_generate_csv inp)
    = Some (if (6 <=? length (hex_digits (in_jedec_text inp)))%nat
            then firstn 6 (hex_digits (in_jedec_text inp)) else NA_STR).
Proof.
  intros inp c. rewrite report_generate_csv_unfold.
  destruct (report_cell_identity (inputs_rows inp) (inputs_agg inp)
              (inputs_match_row inp) (inputs_jedec inp) (inputs_capacity inp) c)
    as (-> & _).
  f_equal.
  assert (Hd : f_detected_jedec
                 (fill_identity_fields (inputs_match_row inp) (inputs_jedec inp))
               = if nonempty (inputs_jedec inp)
                 then snprintf 16 (inputs_jedec inp) else strncpy_z 16 NA_STR).
  { unfold fill_identity_fields.
    destruct (inputs_match_row inp) as [r | ]; [ | reflexivity ].
    destruct (nonempty (jedec_norm r)); reflexivity. }
  rewrite Hd. unfold snprintf, inputs_jedec.
  pose proof (normalize_jedec_length (in_jedec_text inp)) as Hlen.
  rewrite firstn_all2 by (change (16 - 1)%nat with 15%nat; lia).
  clear Hlen Hd.
  destruct (normalize_jedec_cases (in_jedec_text inp)) as [[H ->] | [H ->]].
  - destruct (Nat.leb_spec 6 (length (hex_digits (in_jedec_text inp))));
      [ | lia ].
    destruct (firstn 6 (hex_digits (in_jedec_text inp))) as [ | x l] eqn:E;
      [ | reflexivity ].
    apply (f_equal (@length ascii)) in E. rewrite length_firstn in E.
    cbn [length] in E. lia.
  - destruct (Nat.leb_spec 6 (length (hex_digits (in_jedec_text inp))));
      [ lia | reflexivity ].
Qed.

(** ** Without RESULTS.CSV *)

Lemma summary_stats_cases prefix (field : stats_t -> float) :
  In (prefix, field) summary_stats ->
  forall S, field S = mean S \/ field S = p25 S \/ field S = p50 S
            \/ field S = p75 S \/ field S = minv S \/ field S = maxv S
            \/ field S = stddev S.
Proof.
  intros Hin S. simpl in Hin.
  repeat (destruct Hin as [Hin | Hin]; [ injection Hin as <- <-; tauto | ]).
  contradiction.
Qed.

(** X12.  When RESULTS.CSV cannot be opened, the [n_] row of every group is
    NA in the three columns and every db_mean cell is NA; the seven
    statistics rows are NA in the write and erase columns, but 0.000 in the
    read column, whose statistics are left as [memset] set them. *)
Theorem report_without_results :
  forall db jedec baud g,
    let rep := report_generate_csv (mk_inputs db None jedec baud) in
    (forall c, report_cell (n_title g) c rep = Some NA_STR)
    /\ (forall c, report_cell (db_mean_title g) c rep = Some NA_STR)
    /\ (forall prefix field, In (prefix, field) summary_stats ->
          report_cell (stat_title prefix g) ColRead rep = Some (lit "0.000")
          /\ report_cell (stat_title prefix g) ColWrite rep = Some NA_STR
          /\ report_cell (stat_title prefix g) ColErase rep = Some NA_STR).
Proof.
  intros db jedec baud g rep. subst rep. rewrite report_generate_csv_unfold.
  set (inp := mk_inputs db None jedec baud).
  assert (HA : inputs_agg inp
               = collect_aggregates baud (inputs_capacity inp) None)
    by reflexivity.
  repeat split.
  - intros c. rewrite report_cell_n, HA. destruct c; reflexivity.
  - intros c. rewrite report_cell_db_mean, HA. f_equal.
    destruct c; cbn [column_db_mean compute_db_means_closest db_read db_write
                       db_erase].
    + unfold db_read_cell. cbn [collect_aggregates read_s sck_MHz].
      destruct (F32.gt _ F32.zero); reflexivity.
    + reflexivity.
    + reflexivity.
  - rewrite (report_cell_stat _ _ _ _ _ _ _ _ _ H), HA.
    destruct (summary_stats_cases prefix field H
                (column_stats (collect_aggregates baud (inputs_capacity inp) None)
                   ColRead g))
      as [E | [E | [E | [E | [E | [E | E]]]]]]; rewrite E; reflexivity.
  - rewrite (report_cell_stat _ _ _ _ _ _ _ _ _ H), HA.
    destruct (summary_stats_cases prefix field H
                (column_stats (collect_aggregates baud (inputs_capacity inp) None)
                   ColWrite g))
      as [E | [E | [E | [E | [E | [E | E]]]]]]; rewrite E; reflexivity.
  - rewrite (report_cell_stat _ _ _ _ _ _ _ _ _ H), HA.
    destruct (summary_stats_cases prefix field H
                (column_stats (collect_aggregates baud (inputs_capacity inp) None)
                   ColErase g))
      as [E | [E | [E | [E | [E | [E | E]]]]]]; rewrite E; reflexivity.
Qed.

(** ** An empty bucket *)

Lemma calc_stats_empty src :
  n (calc_stats_from_vec src) = 0 -> calc_stats_from_vec src = stats_empty.
Proof.
  rewrite calc_stats_n. destruct src; [ reflexivity | simpl; lia ].
Qed.

(** X13.  When RESULTS.CSV is read, a bucket that received no sample shows
    NA in its [n_] cell (not 0) and in its seven statistics cells. *)
Theorem empty_bucket_cells_NA :
  forall db f jedec baud g c,
    let inp := mk_inputs db (Some f) jedec baud in
    n (column_stats (inputs_agg inp) c g) = 0 ->
    report_cell (n_title g) c (report_generate_csv inp) = Some NA_STR
    /\ forall prefix field, In (prefix, field) summary_stats ->
         report_cell (stat_title prefix g) c (report_generate_csv inp)
         = Some NA_STR.
Proof.
  intros db f jedec baud g c inp Hn. rewrite report_generate_csv_unfold.
  assert (HS : column_stats (inputs_agg inp) c g = stats_empty).
  { revert Hn. unfold inputs_agg, inp. cbn [in_results in_baud_hz].
    unfold collect_aggregates.
    destruct c; cbn [column_stats read_lat_ms write_s erase_s];
      apply calc_stats_empty. }
  split.
  - rewrite report_cell_n, HS. reflexivity.
  - intros prefix field Hin. rewrite (report_cell_stat _ _ _ _ _ _ _ _ _ Hin), HS.
    destruct (summary_stats_cases prefix field Hin stats_empty)
      as [E | [E | [E | [E | [E | [E | E]]]]]]; rewrite E; reflexivity.
Qed.

Lemma empty_bucket_cells_NA_witness :
  report_cell (n_title G_4K) ColErase (report_generate_csv inputs_no_record)
  = Some NA_STR
  /\ forall prefix field, In (prefix, field) summary_stats ->
       report_cell (stat_title prefix G_4K) ColErase
         (report_generate_csv inputs_no_record)
       = Some NA_STR.
Proof.
  apply (empty_bucket_cells_NA (Some sample_catalogue) results_no_record
           (lit "BF 26 41") 10000000 G_4K ColErase).
  vm_compute. reflexivity.
Defined.

(** ** Without a catalogue *)

Lemma db_means_no_rows A cap c g :
  column_db_mean (compute_db_means_closest [] A cap) c g = F32.NAN.
Proof.
  destruct c; cbn [column_db_mean compute_db_means_closest db_read db_write
                     db_erase].
  - unfold db_read_cell, db_read_search. cbn [closest_loop best_init].
    split_ifs; reflexivity.
  - unfold db_write_cell. cbn [closest_loop best_init].
    split_ifs; reflexivity.
  - unfold db_erase_cell. cbn [closest_loop best_init].
    split_ifs; reflexivity.
Qed.

Lemma poss_cells_no_value rows A cap (dr dw de : group_t -> float) c g :
  match c with ColRead => dr g | ColWrite => dw g | ColErase => de g end
  = F32.NAN ->
  column_poss (build_possible_chips_for_all_groups rows A cap dr dw de) c g
  = NA_STR.
Proof.
  destruct c; intros E;
    cbn [column_poss build_possible_chips_for_all_groups poss_read poss_write
           poss_erase];
    unfold poss_read_cell, poss_write_cell, poss_erase_cell; rewrite E;
    reflexivity.
Qed.

Lemma conclude_all_NA poss cap :
  (forall g, poss g = NA_STR) ->
  conclude_possible_chips_across_groups poss cap = strncpy_z cap NA_STR.
Proof.
  intros H. unfold conclude_possible_chips_across_groups, find_first_group.
  cbn [all_groups find]. rewrite !H. reflexivity.
Qed.

(** X14.  When datasheet.csv cannot be opened, the report still names the
    detected JEDEC, but the model, family, company and capacity rows, every
    db_mean cell, every possible_chips cell and the conclusion are NA, for
    every results file. *)
Theorem report_without_catalogue :
  forall results jedec baud c,
    let rep := report_generate_csv (mk_inputs None results jedec baud) in
    (forall t, In t catalogue_identity_titles -> report_cell t c rep = Some NA_STR)
    /\ (forall g, report_cell (db_mean_title g) c rep = Some NA_STR)
    /\ (forall g, report_cell (possible_chips_title g) c rep = Some NA_STR)
    /\ report_cell (lit "conclusion_possible_chips") c rep = Some NA_STR.
Proof.
  intros results jedec baud c rep. subst rep.
  rewrite report_generate_csv_unfold.
  set (inp := mk_inputs None results jedec baud).
  assert (Hrows : inputs_rows inp = []) by reflexivity.
  assert (Hm : inputs_match_row inp = None).
  { unfold inputs_match_row. rewrite Hrows. unfold find_match_row.
    now rewrite andb_false_r. }
  rewrite Hrows, Hm.
  assert (Hposs : forall g,
    column_poss
      (build_possible_chips_for_all_groups [] (inputs_agg inp)
         (inputs_capacity inp)
         (db_read (compute_db_means_closest [] (inputs_agg inp) (inputs_capacity inp)))
         (db_write (compute_db_means_closest [] (inputs_agg inp) (inputs_capacity inp)))
         (db_erase (compute_db_means_closest [] (inputs_agg inp) (inputs_capacity inp))))
      c g = NA_STR).
  { intros g. apply poss_cells_no_value.
    pose proof (db_means_no_rows (inputs_agg inp) (inputs_capacity inp) c g) as H.
    destruct c; exact H. }
  repeat split.
  - intros t Ht.
    destruct (report_cell_identity [] (inputs_agg inp) None (inputs_jedec inp)
                (inputs_capacity inp) c) as (_ & H2 & H3 & H4 & H5 & H6).
    cbv zeta in *. simpl in Ht.
    destruct Ht as [<- | [<- | [<- | [<- | [<- | []]]]]];
      [ exact H2 | exact H3 | exact H4 | exact H5 | exact H6 ].
  - intros g. rewrite report_cell_db_mean, db_means_no_rows. reflexivity.
  - intros g. rewrite report_cell_possible_chips. now rewrite Hposs.
  - rewrite report_cell_conclusion. cbv zeta.
    rewrite conclude_all_NA by exact Hposs. reflexivity.
Qed.

(** ** The sizes that have no datasheet erase time *)

Lemma closest_loop_no_pred pred_of meanv rows : forall i b,
  (forall r, pred_of r = None) ->
  closest_loop pred_of meanv rows i b = b.
Proof.
  induction rows as [ | r rows IH]; intros i b H; cbn [closest_loop];
    [ reflexivity | ].
  rewrite H. now apply IH.
Qed.

(** X15.  The catalogue has erase times for 4 KB, 32 KB and 64 KB only: in
    the erase column, the db_mean and possible_chips cells of the 1 B,
    256 B and WHOLE groups are NA for every catalogue and every results
    file, even when the bucket holds erase samples. *)
Theorem erase_db_mean_only_for_sector_sizes :
  forall inp g,
    In g [G_1B; G_256B; G_WHOLE] ->
    report_cell (db_mean_title g) ColErase (report_generate_csv inp)
    = Some NA_STR
    /\ report_cell (possible_chips_title g) ColErase (report_generate_csv inp)
       = Some NA_STR.
Proof.
  intros inp g Hg. rewrite report_generate_csv_unfold.
  assert (Hp : forall r, erase_pred g r = None).
  { intros r. simpl in Hg. destruct Hg as [<- | [<- | [<- | []]]]; reflexivity. }
  assert (Hdb : db_erase_cell (inputs_rows inp) (inputs_agg inp) g = F32.NAN).
  { unfold db_erase_cell. rewrite closest_loop_no_pred by exact Hp.
    destruct (negb _); reflexivity. }
  split.
  - rewrite report_cell_db_mean.
    cbn [column_db_mean compute_db_means_closest db_erase]. now rewrite Hdb.
  - rewrite report_cell_possible_chips. cbv zeta.
    rewrite poss_cells_no_value; [ reflexivity | ].
    cbn [compute_db_means_closest db_erase]. exact Hdb.
Qed.

Lemma erase_db_mean_only_for_sector_sizes_witness :
  n (erase_s (inputs_agg inputs_erase_256) G_256B) = 2
  /\ length (inputs_rows inputs_erase_256) = 1%nat
  /\ report_cell (n_title G_256B) ColErase (report_generate_csv inputs_erase_256)
     = Some (lit "2")
  /\ report_cell (db_mean_title G_256B) ColErase
       (report_generate_csv inputs_erase_256)
     = Some NA_STR
  /\ report_cell (possible_chips_title G_256B) ColErase
       (report_generate_csv inputs_erase_256)
     = Some NA_STR.
Proof.
  split; [ vm_compute; reflexivity | ].
  split; [ vm_compute; reflexivity | ].
  split; [ vm_compute; reflexivity | ].
  apply (erase_db_mean_only_for_sector_sizes inputs_erase_256 G_256B).
  right. left. reflexivity.
Defined.

(** ** The final guess of an unknown device *)

(** X16.  When no bucket has samples and the device gave no JEDEC (fewer
    than six hexadecimal digits), the value row of the final-guess block is
    undecided,undecided,undecided,NA. *)
Theorem final_guess_unknown_device :
  forall inp,
    any_meas (inputs_agg inp) = false ->
    nonempty (inputs_jedec inp) = false ->
    final_block (report_generate_csv inp)
    = Text (lit "undecided,undecided,undecided,NA" ++ [LF]).
Proof.
  intros inp Hm Hj. rewrite report_generate_csv_unfold, final_block_report.
  unfold final_guess.
  destruct (pick_best_candidate _ _ _ _) as [[best sc] used].
  rewrite Hm, Hj. reflexivity.
Qed.

Lemma final_guess_unknown_device_witness :
  final_block (report_generate_csv (mk_inputs None None (lit "BF 26") 0))
  = Text (lit "undecided,undecided,undecided,NA" ++ [LF]).
Proof.
  apply (final_guess_unknown_device (mk_inputs None None (lit "BF 26") 0));
    reflexivity.
Defined.
(** * Facts of single-precision arithmetic *)

Lemma binary_round_aux_abs s m e l :
  SFabs (binary_round_aux F32.prec F32.emax s m e l)
  = binary_round_aux F32.prec F32.emax false m e l.
Proof.
  unfold binary_round_aux.
  destruct (shr_fexp F32.prec F32.emax m e l) as [mrs' e'].
  destruct (shr_fexp F32.prec F32.emax _ e' loc_Exact) as [mrs'' e''].
  destruct (shr_m mrs''); try reflexivity.
  destruct (e'' <=? F32.emax - F32.prec); reflexivity.
Qed.

Lemma binary_round_abs s m e :
  SFabs (binary_round F32.prec F32.emax s m e)
  = binary_round F32.prec F32.emax false m e.
Proof.
  unfold binary_round. destruct (shl_align _ _ _) as [mz ez].
  apply binary_round_aux_abs.
Qed.

Lemma binary_round_ordered m e :
  ordered (binary_round F32.prec F32.emax false m e) = true.
Proof.
  unfold binary_round. destruct (shl_align _ _ _) as [mz ez].
  apply binary_round_aux_ordered. lia.
Qed.

Lemma binary_normalize_abs_ordered z e :
  ordered (SFabs (binary_normalize F32.prec F32.emax z e false)) = true.
Proof.
  destruct z as [ | p | p]; cbn [binary_normalize]; [ reflexivity | | ];
    rewrite binary_round_abs; apply binary_round_ordered.
Qed.

Lemma binary_normalize_abs_opp z e :
  SFabs (binary_normalize F32.prec F32.emax (- z) e false)
  = SFabs (binary_normalize F32.prec F32.emax z e false).
Proof.
  destruct z as [ | p | p]; cbn [Z.opp binary_normalize]; [ reflexivity | | ];
    now rewrite !binary_round_abs.
Qed.

Lemma fabsf_ordered x : F32.is_nan x = false -> ordered (F32.fabsf x) = true.
Proof. destruct x as [ | | | ]; [ reflexivity .. | discriminate | reflexivity ]. Qed.

(** [fabsf(x - y)] is a number when [x] is one and [y] is finite *)
Lemma fabsf_sub_ordered x y :
  F32.is_nan x = false -> F32.is_finite y = true ->
  ordered (F32.fabsf (F32.sub x y)) = true.
Proof.
  unfold F32.fabsf, F32.sub.
  destruct x as [sx | sx | | sx mx ex], y as [sy | sy | | sy my ey];
    try discriminate; intros _ _; cbn [SFsub];
    try (destruct sx; try destruct sy; reflexivity).
  apply binary_normalize_abs_ordered.
Qed.

Lemma fabsf_sub_comm a b :
  F32.fabsf (F32.sub a b) = F32.fabsf (F32.sub b a).
Proof.
  unfold F32.fabsf, F32.sub.
  destruct a as [sa | sa | | sa ma ea], b as [sb | sb | | sb mb eb];
    cbn [SFsub]; try reflexivity;
    try (destruct sa; try destruct sb; reflexivity);
    try (destruct sb; reflexivity).
  rewrite (Z.min_comm eb ea).
  rewrite <- binary_normalize_abs_opp. f_equal. f_equal. lia.
Qed.

Lemma sub_self_finite a :
  F32.is_finite a = true -> F32.fabsf (F32.sub a a) = F32.zero.
Proof.
  unfold F32.fabsf, F32.sub.
  destruct a as [s | s | | s m e]; try discriminate; intros _; cbn [SFsub].
  - destruct s; reflexivity.
  - rewrite Z.sub_diag. reflexivity.
Qed.

Lemma div_ordered_any x my ey :
  ordered x = true -> ordered (F32.div x (S754_finite false my ey)) = true.
Proof.
  destruct x as [[ | ] | [ | ] | | [ | ] mx ex]; try discriminate; intros _;
    try reflexivity.
  apply div_ordered. reflexivity.
Qed.

(** * The score of a catalogue row *)

(** X17.  [norm_diff] is a penalty between 0 and 3, the cap: for every
    measured value, NaN or infinite ones too, and every reference other
    than plus infinity, the result is a number in that range.  Against an
    infinite reference a positive measure gives NaN. *)
Theorem norm_diff_range :
  forall meas ref,
    (ref <> PLUS_INF ->
     F32.le F32.zero (norm_diff meas ref) = true
     /\ F32.le (norm_diff meas ref) F32.f_3 = true)
    /\ (F32.gt meas F32.zero = true -> norm_diff meas PLUS_INF = F32.NAN).
Proof.
  intros meas ref. split.
  - intros Hinf. unfold norm_diff.
    destruct (F32.gt meas F32.zero) eqn:Hm; [ | split; reflexivity ].
    destruct (F32.gt ref F32.zero) eqn:Hr; [ | split; reflexivity ].
    cbn [negb orb].
    assert (Hd : ordered (F32.div (F32.fabsf (F32.sub meas ref)) ref) = true).
    { destruct ref as [sr | sr | | sr mr er]; try discriminate.
      - destruct sr; [ discriminate | ]. now contradiction Hinf.
      - destruct sr; [ discriminate | ].
        apply div_ordered_any, fabsf_sub_ordered; [ | reflexivity ].
        destruct meas; try discriminate; reflexivity. }
    destruct (F32.gt _ F32.f_3) eqn:Hgt; [ split; reflexivity | ].
    split; [ now apply ordered_le_zero | ].
    apply ordered_not_lt_le; [ reflexivity | exact Hd | exact Hgt ].
  - intros Hm. unfold norm_diff, PLUS_INF. rewrite Hm.
    destruct meas as [s | s | | s m e]; try discriminate;
      destruct s; try discriminate; reflexivity.
Qed.

Lemma norm_diff_range_witness :
  (F32.le F32.zero (norm_diff F32.f_8 F32.f_1) = true
   /\ F32.le (norm_diff F32.f_8 F32.f_1) F32.f_3 = true)
  /\ norm_diff F32.f_8 PLUS_INF = F32.NAN.
Proof.
  destruct (norm_diff_range F32.f_8 F32.f_1) as [H1 _].
  destruct (norm_diff_range F32.f_8 PLUS_INF) as [_ H2].
  split; [ apply H1; discriminate | apply H2; reflexivity ].
Defined.

(** * [float_almost_equal] *)

Lemma fabs_max_comm a b :
  F32.is_nan a = false -> F32.is_nan b = false ->
  (if F32.gt (F32.fabsf a) (F32.fabsf b) then F32.fabsf a else F32.fabsf b)
  = (if F32.gt (F32.fabsf b) (F32.fabsf a) then F32.fabsf b else F32.fabsf a).
Proof.
  intros Ha Hb. apply fabsf_ordered in Ha, Hb. unfold F32.gt.
  change SFltb with F32.lt.
  destruct (F32.lt (F32.fabsf b) (F32.fabsf a)) eqn:E1,
           (F32.lt (F32.fabsf a) (F32.fabsf b)) eqn:E2; try reflexivity.
  - apply F32_lt_asym in E1. congruence.
  - symmetry. now apply ordered_eq.
Qed.

(** X18.  [float_almost_equal] is symmetric, and a value is almost equal
    to itself exactly when it is finite: NaN and the infinities are equal
    to nothing, themselves included. *)
Theorem float_almost_equal_sym_refl :
  forall a b,
    float_almost_equal a b = float_almost_equal b a
    /\ float_almost_equal a a = F32.is_finite a.
Proof.
  intros a b. split.
  - unfold float_almost_equal. rewrite !F32_ne_self.
    rewrite (orb_comm (F32.is_nan b)).
    destruct (F32.is_nan a) eqn:Ha; [ reflexivity | ].
    destruct (F32.is_nan b) eqn:Hb; [ reflexivity | ].
    cbn [orb]. rewrite (fabsf_sub_comm b a), (fabs_max_comm b a Hb Ha).
    reflexivity.
  - unfold float_almost_equal. rewrite F32_ne_self.
    destruct (F32.is_finite a) eqn:Hf.
    + rewrite (sub_self_finite a Hf).
      destruct a; try discriminate; reflexivity.
    + destruct a as [s | s | | s m e]; try discriminate;
        try destruct s; reflexivity.
Qed.

(** * [append_token] *)

(** X19.  On a buffer of [n] bytes that holds a string, [append_token]
    keeps what the buffer held and stays within the buffer; with room for
    the separator and the token, the result is the old content, a slash
    and the token (the token alone in an empty buffer); an empty token
    changes nothing. *)
Theorem append_token_in_buffer :
  forall dst n tok,
    (length dst < n)%nat ->
    let r := append_token dst n tok in
    (length r < n)%nat
    /\ firstn (length dst) r = dst
    /\ (tok = [] -> r = dst)
    /\ (tok <> [] -> (length dst + 1 + length tok < n)%nat ->
        r = if nonempty dst then dst ++ lit "/" ++ tok else tok).
Proof.
  intros dst n tok Hlen r. subst r. unfold append_token, strncat.
  destruct tok as [ | t tok].
  { cbn [nonempty negb orb]. repeat split; try lia.
    - now rewrite firstn_all.
    - intros H. now contradiction H. }
  cbn [nonempty negb orb].
  destruct (Nat.eqb_spec n 0) as [-> | Hn]; [ lia | ].
  destruct dst as [ | d dst].
  - cbn [length Nat.eqb app firstn nonempty]. repeat split.
    + rewrite length_firstn. lia.
    + discriminate.
    + intros _ Hroom. cbn [length] in Hroom. apply firstn_all2.
      cbn [length]. lia.
  - cbn [length Nat.eqb nonempty].
    set (dst0 := d :: dst) in *.
    assert (Hl0 : length dst0 = S (length dst)) by reflexivity.
    rewrite <- Hl0 in *.
    destruct (Nat.ltb_spec (length dst0 + 1) (n - 1)) as [Hs | Hs].
    + repeat split.
      * rewrite !length_app, !length_firstn. cbn [lit length list_ascii_of_string].
        lia.
      * rewrite <- app_assoc, firstn_app, Nat.sub_diag, firstn_O, app_nil_r.
        apply firstn_all.
      * discriminate.
      * intros _ Hroom. rewrite <- app_assoc. f_equal.
        rewrite (firstn_all2 (n := n - 1 - length dst0) (lit "/"))
          by (cbn [lit length list_ascii_of_string]; lia).
        f_equal. apply firstn_all2. rewrite length_app.
        cbn [lit length list_ascii_of_string] in *. lia.
    + repeat split.
      * rewrite !length_app, !length_firstn. lia.
      * rewrite firstn_app, Nat.sub_diag, firstn_O, app_nil_r.
        apply firstn_all.
      * discriminate.
      * intros _ Hroom. cbn [length] in Hroom. lia.
Qed.

Lemma append_token_in_buffer_witness :
  let r := append_token (lit "BF2641") 16 (lit "EF4016") in
  (length r < 16)%nat
  /\ firstn 6 r = lit "BF2641"
  /\ r = lit "BF2641/EF4016".
Proof.
  destruct (append_token_in_buffer (lit "BF2641") 16 (lit "EF4016"))
    as (H1 & H2 & _ & H4); [ cbn; lia | ].
  split; [ exact H1 | split; [ exact H2 | ] ].
  apply H4; [ discriminate | cbn; lia ].
Defined.

(** * The capacity in bytes *)

Lemma all_from_spec f k : forall m0,
  all_from f k m0 = true -> forall m, m0 <= m < m0 + Z.of_nat k -> f m = true.
Proof.
  induction k as [ | k IH]; intros m0 H m Hm; [ lia | ].
  cbn [all_from] in H. apply andb_true_iff in H as [H0 H1].
  destruct (Z.eq_dec m m0) as [-> | Hne]; [ exact H0 | ].
  apply (IH (m0 + 1)); [ exact H1 | lia ].
Qed.

Lemma capacity_bytes_checked :
  all_from (fun m => capacity_bytes_of_mbit m =? m * 131072)
    (Z.to_nat 32767) 1 = true.
Proof. vm_compute. reflexivity. Qed.

(** X20.  For every capacity from 1 to 32767 Mbit, the byte count computed
    in single precision, [(mbit / 8.0f) * 1024.0f * 1024.0f], is exact:
    131072 bytes for each Mbit, without rounding. *)
Theorem capacity_bytes_exact :
  forall mbit,
    0 < mbit < 32768 -> capacity_bytes_of_mbit mbit = mbit * 131072.
Proof.
  intros mbit Hm. apply Z.eqb_eq.
  apply (all_from_spec _ _ _ capacity_bytes_checked mbit).
  rewrite Z2Nat.id; lia.
Qed.

Lemma capacity_bytes_exact_witness : capacity_bytes_of_mbit 16 = 2097152.
Proof. apply (capacity_bytes_exact 16). lia. Defined.
(** * The choice of the final guess *)

Lemma pick_loop_cons r rest A jedec cap i b :
  pick_loop (r :: rest) A jedec cap i b
  = pick_loop rest A jedec cap (i + 1)
      (pick_step i b (row_score A jedec cap r)).
Proof.
  cbn [pick_loop]. unfold row_score, pick_step.
  destruct (score_erase A r _) as [s u].
  destruct b as [[best bs] bu]. cbn [fst snd].
  destruct (u =? 0); reflexivity.
Qed.

Lemma fold_used_mono (f : score_t -> group_t -> score_t) :
  (forall su g, snd su <= snd (f su g)) ->
  forall l su, snd su <= snd (fold_left f l su).
Proof.
  intros Hf l. induction l as [ | g l IH]; intros su; cbn [fold_left];
    [ lia | ].
  specialize (IH (f su g)). specialize (Hf su g). lia.
Qed.

Lemma score_read_used A r su : snd su <= snd (score_read A r su).
Proof.
  unfold score_read. destruct (_ && _); [ | lia ].
  apply fold_used_mono. intros [s u] g. split_ifs; cbn [snd]; lia.
Qed.

Lemma score_write_used A cap r su : snd su <= snd (score_write A cap r su).
Proof.
  unfold score_write. destruct (F32.gt _ _); [ | lia ].
  apply fold_used_mono. intros [s u] g. cbv zeta. split_ifs; cbn [snd]; lia.
Qed.

Lemma score_erase_used A r su : snd su <= snd (score_erase A r su).
Proof.
  unfold score_erase.
  apply fold_used_mono. intros [s u] g. split_ifs; cbn [snd]; lia.
Qed.

Lemma row_score_used A jedec cap r : 0 <= snd (row_score A jedec cap r).
Proof.
  unfold row_score.
  pose proof (score_read_used A r (F32.zero, 0)) as H1.
  pose proof (score_write_used A cap r (score_read A r (F32.zero, 0))) as H2.
  pose proof (score_erase_used A r
                (score_write A cap r (score_read A r (F32.zero, 0)))) as H3.
  destruct (score_erase A r _) as [s u]. cbn [snd] in *. lia.
Qed.

Lemma F32_lt_not_nan a b :
  F32.lt a b = true -> F32.is_nan a = false /\ F32.is_nan b = false.
Proof. destruct a, b; try discriminate; split; reflexivity. Qed.

(** [s] is below [c] and [x], a number, is not: then [s] is below [x] *)
Lemma F32_lt_not_lt s c x :
  F32.lt s c = true -> F32.lt x c = false -> F32.is_nan x = false ->
  F32.lt s x = true.
Proof. float_order. Qed.

Lemma nth_error_snoc {T : Type} (l : list T) (x : T) j y :
  nth_error (l ++ [x]) j = Some y ->
  (j < length l /\ nth_error l j = Some y)%nat \/ (j = length l /\ y = x).
Proof.
  intros H. destruct (Nat.lt_ge_cases j (length l)) as [Hlt | Hge].
  - left. split; [ exact Hlt | ]. now rewrite nth_error_app1 in H.
  - right. rewrite nth_error_app2 in H by exact Hge.
    destruct (j - length l)%nat as [ | k] eqn:E.
    + split; [ lia | ]. now inversion H.
    + destruct k; discriminate H.
Qed.

Lemma pick_step_inv pre A jedec cap b r :
  pick_inv pre A jedec cap b ->
  pick_inv (pre ++ [r]) A jedec cap
    (pick_step (Z.of_nat (length pre)) b (row_score A jedec cap r)).
Proof.
  destruct b as [[best bs] bu]. unfold pick_inv, pick_step.
  pose proof (row_score_used A jedec cap r) as Hu.
  destruct (row_score A jedec cap r) as [s u] eqn:Er. cbn [fst snd] in *.
  intros Inv.
  destruct (Z.eqb_spec u 0) as [Hu0 | Hu0].
  { (* the row cannot be scored *)
    destruct Inv as [(-> & -> & -> & Hno) | (Hi & r0 & Hn & Hs & Hpos & Hlt & Hmin & Hfirst)].
    - left. repeat split. intros r' Hin Hsc.
      apply in_app_or in Hin as [Hin | [<- | []]]; [ now apply Hno | ].
      unfold scorable in Hsc. rewrite Er in Hsc. now contradiction Hsc.
    - right. split; [ exact Hi | ]. exists r0.
      assert (Hb : (Z.to_nat best < length pre)%nat).
      { apply nth_error_Some. congruence. }
      repeat split; try assumption.
      + now rewrite nth_error_app1.
      + intros r' Hin Hsc.
        apply in_app_or in Hin as [Hin | [<- | []]]; [ now apply Hmin | ].
        unfold scorable in Hsc. rewrite Er in Hsc. now contradiction Hsc.
      + intros j r' Hj Hn' Hsc Hnan. apply (Hfirst j r'); try assumption.
        rewrite nth_error_app1 in Hn' by lia. exact Hn'. }
  destruct (F32.lt s bs) eqn:Hsb.
  { (* the row takes the lead *)
    right. split; [ lia | ]. exists r. rewrite Nat2Z.id.
    assert (Hs1e9 : F32.lt s F32.f_1e9 = true).
    { destruct Inv as [(_ & -> & _) | (_ & _ & _ & _ & _ & Hlt & _)];
        [ exact Hsb | exact (F32_lt_trans _ _ _ Hsb Hlt) ]. }
    assert (Hprev : forall r', In r' pre -> scorable A jedec cap r' ->
                      F32.lt (fst (row_score A jedec cap r')) bs = false).
    { destruct Inv as [(_ & -> & _ & Hno) | (_ & _ & _ & _ & _ & _ & Hmin & _)];
        assumption. }
    repeat split.
    - now rewrite nth_error_app2, Nat.sub_diag by lia.
    - exact Er.
    - lia.
    - exact Hs1e9.
    - intros r' Hin Hsc.
      apply in_app_or in Hin as [Hin | [<- | []]].
      + exact (F32_not_lt_lt_lt _ _ _ (Hprev r' Hin Hsc) Hsb).
      + rewrite Er. apply F32_lt_irrefl.
    - intros j r' Hj Hn' Hsc Hnan.
      rewrite nth_error_app1 in Hn' by exact Hj.
      apply (F32_lt_not_lt s bs); [ exact Hsb | | exact Hnan ].
      apply Hprev; [ exact (nth_error_In _ _ Hn') | exact Hsc ]. }
  (* the row does not beat the best *)
  destruct Inv as [(-> & -> & -> & Hno) | (Hi & r0 & Hn & Hs & Hpos & Hlt & Hmin & Hfirst)].
  - left. repeat split. intros r' Hin Hsc.
    apply in_app_or in Hin as [Hin | [<- | []]]; [ now apply Hno | ].
    rewrite Er. exact Hsb.
  - right. split; [ exact Hi | ]. exists r0.
    assert (Hb : (Z.to_nat best < length pre)%nat).
    { apply nth_error_Some. congruence. }
    repeat split; try assumption.
    + now rewrite nth_error_app1.
    + intros r' Hin Hsc.
      apply in_app_or in Hin as [Hin | [<- | []]]; [ now apply Hmin | ].
      rewrite Er. exact Hsb.
    + intros j r' Hj Hn' Hsc Hnan. apply (Hfirst j r'); try assumption.
      rewrite nth_error_app1 in Hn' by lia. exact Hn'.
Qed.

Lemma pick_loop_inv rows A jedec cap : forall pre b,
  pick_inv pre A jedec cap b ->
  pick_inv (pre ++ rows) A jedec cap
    (pick_loop rows A jedec cap (Z.of_nat (length pre)) b).
Proof.
  induction rows as [ | r rows IH]; intros pre b Inv.
  - now rewrite app_nil_r.
  - rewrite pick_loop_cons.
    replace (pre ++ r :: rows) with ((pre ++ [r]) ++ rows)
      by now rewrite <- app_assoc.
    replace (Z.of_nat (length pre) + 1) with (Z.of_nat (length (pre ++ [r])))
      by (rewrite length_app; simpl; lia).
    apply IH. now apply pick_step_inv.
Qed.

(** the result of the loop, from its invariant *)
Lemma pick_loop_result rows A jedec cap :
  pick_inv rows A jedec cap
    (pick_loop rows A jedec cap 0 (-1, F32.f_1e9, 0)).
Proof.
  apply (pick_loop_inv rows A jedec cap [] (-1, F32.f_1e9, 0)).
  left. repeat split. intros r [].
Qed.

(** X21.  [pick_best_candidate] scores every catalogue row that has at
    least one usable metric and picks the one with the least score below
    1e9, the first of them when several share it; its score is then a
    number and the count of metrics is positive.  When no row can be
    scored below the bound it returns -1, a NaN score and no metric. *)
Theorem pick_best_candidate_least_score :
  forall rows A jedec cap,
    let '(best, score, used) := pick_best_candidate rows A jedec cap in
    (best = -1 /\ score = F32.NAN /\ used = 0
     /\ no_row_scored rows A jedec cap)
    \/ (best < Z.of_nat (length rows)
        /\ best_row_at rows A jedec cap best score used).
Proof.
  intros rows A jedec cap. unfold pick_best_candidate.
  pose proof (pick_loop_result rows A jedec cap) as H.
  destruct (pick_loop rows A jedec cap 0 (-1, F32.f_1e9, 0))
    as [[best bs] bu].
  unfold pick_inv in H.
  destruct H as [(-> & -> & -> & Hno) | Hbest].
  - left. cbn. repeat split. exact Hno.
  - right. destruct Hbest as (Hi & r & Hn & Hrest).
    destruct (Z.leb_spec 0 best); [ | lia ].
    split; [ | split; [ exact Hi | exists r; split; assumption ] ].
    assert (Hlt : (Z.to_nat best < length rows)%nat).
    { apply nth_error_Some. congruence. }
    lia.
Qed.

(** two rows with the same erase time: the first one is the guess *)
Example pick_best_candidate_first_of_two :
  pick_best_candidate rows_same_jedec sample_erase_agg [] 0
  = pick_best_candidate (firstn 1 rows_same_jedec) sample_erase_agg [] 0
  /\ fst (fst (pick_best_candidate rows_same_jedec sample_erase_agg [] 0)) = 0.
Proof. split; vm_compute; reflexivity. Qed.

(** X28.  When some bucket has samples, the value row of the final-guess
    block names the catalogue row of least score, the first of them: its
    JEDEC, model and company (NA for an empty one) and the score with three
    decimals.  When no row can be scored, the score is NA and the row is
    undecided three times for an unknown JEDEC; else it is the detected
    JEDEC with the model and the company of the first catalogue row that has
    this JEDEC, or with NA twice when no row has it. *)
Theorem final_guess_with_samples :
  forall inp,
    any_meas (inputs_agg inp) = true ->
    let rows := inputs_rows inp in
    let A := inputs_agg inp in
    let jedec := inputs_jedec inp in
    let cap := inputs_capacity inp in
    (exists best score used r,
        best_row_at rows A jedec cap best score used
        /\ nth_error rows (Z.to_nat best) = Some r
        /\ final_block (report_generate_csv inp)
           = Text (final_line
                     (mk_final (or_na (jedec_norm r)) (or_na (chip_model r))
                        (or_na (company r)) (f3_or_na 32 score))))
    \/ (no_row_scored rows A jedec cap
        /\ ((nonempty jedec = false
             /\ final_block (report_generate_csv inp)
                = Text (final_line
                          (mk_final UNDECIDED UNDECIDED UNDECIDED NA_STR)))
            \/ (nonempty jedec = true
                /\ exists r,
                     first_with_jedec rows jedec r
                     /\ final_block (report_generate_csv inp)
                        = Text (final_line
                                  (mk_final jedec (or_na (chip_model r))
                                     (or_na (company r)) NA_STR)))
            \/ (nonempty jedec = true
                /\ no_row_with_jedec rows jedec
                /\ final_block (report_generate_csv inp)
                   = Text (final_line
                             (mk_final jedec NA_STR NA_STR NA_STR))))).
Proof.
  intros inp Hm rows A jedec cap. subst rows A jedec cap.
  rewrite report_generate_csv_unfold, final_block_report.
  unfold final_guess, pick_best_candidate. rewrite Hm. cbn [negb].
  pose proof (pick_loop_result (inputs_rows inp) (inputs_agg inp)
                (inputs_jedec inp) (inputs_capacity inp)) as H.
  destruct (pick_loop _ _ _ _ 0 (-1, F32.f_1e9, 0)) as [[best bs] bu].
  unfold pick_inv in H.
  destruct H as [(-> & -> & -> & Hno) | Hbest].
  - right. split; [ exact Hno | ].
    change (0 <=? -1) with false. cbv iota.
    destruct (nonempty (inputs_jedec inp)) eqn:Hj; [ | left; now split ].
    right.
    destruct (first_with_jedec_dec (inputs_rows inp) (inputs_jedec inp))
      as [[r Hr] | Hnone].
    + left. split; [ reflexivity | ]. exists r. split; [ exact Hr | ].
      pose proof (find_match_row_found _ _ r Hj Hr) as Hf.
      fold (inputs_match_row inp) in Hf. now rewrite Hf.
    + right. split; [ reflexivity | ]. split; [ exact Hnone | ].
      pose proof (find_match_row_none _ _ Hnone) as Hf.
      fold (inputs_match_row inp) in Hf. now rewrite Hf.
  - left. pose proof Hbest as (Hi & r & Hn & _).
    exists best, bs, bu, r. split; [ exact Hbest | split; [ exact Hn | ] ].
    destruct (Z.leb_spec 0 best); [ | lia ].
    now rewrite (nth_error_nth _ _ _ Hn).
Qed.

Lemma final_guess_with_samples_witness :
  let inp := inputs_two_best in
  map chip_model (inputs_rows inp) = [lit "A"; lit "B"; lit "C"]
  /\ fst (fst (pick_best_candidate (inputs_rows inp) (inputs_agg inp)
                 (inputs_jedec inp) (inputs_capacity inp))) = 1
  /\ final_block (report_generate_csv inp)
     = Text (lit "BBBBBB,B,CoB,0.033" ++ [LF])
  /\ ((exists best score used r,
          best_row_at (inputs_rows inp) (inputs_agg inp) (inputs_jedec inp)
            (inputs_capacity inp) best score used
          /\ nth_error (inputs_rows inp) (Z.to_nat best) = Some r
          /\ final_block (report_generate_csv inp)
             = Text (final_line
                       (mk_final (or_na (jedec_norm r)) (or_na (chip_model r))
                          (or_na (company r)) (f3_or_na 32 score))))
      \/ (no_row_scored (inputs_rows inp) (inputs_agg inp) (inputs_jedec inp)
            (inputs_capacity inp)
          /\ ((nonempty (inputs_jedec inp) = false
               /\ final_block (report_generate_csv inp)
                  = Text (final_line
                            (mk_final UNDECIDED UNDECIDED UNDECIDED NA_STR)))
              \/ (nonempty (inputs_jedec inp) = true
                  /\ exists r,
                       first_with_jedec (inputs_rows inp) (inputs_jedec inp) r
                       /\ final_block (report_generate_csv inp)
                          = Text (final_line
                                    (mk_final (inputs_jedec inp)
                                       (or_na (chip_model r))
                                       (or_na (company r)) NA_STR)))
              \/ (nonempty (inputs_jedec inp) = true
                  /\ no_row_with_jedec (inputs_rows inp) (inputs_jedec inp)
                  /\ final_block (report_generate_csv inp)
                     = Text (final_line
                               (mk_final (inputs_jedec inp) NA_STR NA_STR
                                  NA_STR)))))).
Proof.
  cbv zeta.
  split; [ vm_compute; reflexivity | ].
  split; [ vm_compute; reflexivity | ].
  split; [ vm_compute; reflexivity | ].
  apply (final_guess_with_samples inputs_two_best).
  vm_compute. reflexivity.
Defined.

(** samples and a catalogue without timings: no row is scored, and of the
    two rows that have the JEDEC of the device the first gives the model and
    the company *)
Example final_guess_unscored_first_row :
  any_meas (inputs_agg inputs_twice_unscored) = true
  /\ map chip_model (inputs_rows inputs_twice_unscored)
     = [lit "W25Q16"; lit "MX25L"; lit "KH25L"]
  /\ map jedec_norm (inputs_rows inputs_twice_unscored)
     = [lit "EF4015"; lit "C21F17"; lit "C21F17"]
  /\ fst (fst (pick_best_candidate (inputs_rows inputs_twice_unscored)
                 (inputs_agg inputs_twice_unscored)
                 (inputs_jedec inputs_twice_unscored)
                 (inputs_capacity inputs_twice_unscored))) = -1
  /\ final_block (report_generate_csv inputs_twice_unscored)
     = Text (lit "C21F17,MX25L,Macronix,NA" ++ [LF]).
Proof. repeat split; vm_compute; reflexivity. Qed.

(** the guess for the sample erases: the one row of the catalogue *)
Example final_guess_sample_erases :
  final_block (report_generate_csv inputs_sample_erases)
  = Text (lit "BF2641,X,SST,0.008" ++ [LF]).
Proof. vm_compute. reflexivity. Qed.

(** * The rows of the catalogue *)

Lemma strncpy_z_length k s : (length (strncpy_z k s) <= k - 1)%nat.
Proof. unfold strncpy_z. rewrite length_firstn. lia. Qed.

Lemma text_field_length f idx size :
  (length (text_field f idx size) <= size - 1)%nat.
Proof.
  unfold text_field. destruct (field_at f idx); [ | simpl; lia ].
  pose proof (trim_length (strncpy_z size c)).
  pose proof (strncpy_z_length size c). lia.
Qed.

Lemma text_field_trimmed f idx size :
  trim (text_field f idx size) = text_field f idx size.
Proof.
  unfold text_field. destruct (field_at f idx) as [s | ]; [ | reflexivity ].
  destruct (trim_parts (strncpy_z size s)) as (a & b & _ & _ & _ & H0 & H1).
  apply trim_stable.
  - intros c r E. exact (H0 c r E).
  - intros i c E. exact (H1 i c E).
Qed.

Lemma clamp_long_range v : LONG_MIN <= clamp_long v <= LONG_MAX.
Proof.
  unfold clamp_long, LONG_MIN, LONG_MAX.
  destruct (Z.ltb_spec v (-2147483648)); [ lia | ].
  destruct (Z.ltb_spec 2147483647 v); lia.
Qed.

Lemma parse_int_or_range s fb :
  LONG_MIN <= fb <= LONG_MAX -> LONG_MIN <= parse_int_or s fb <= LONG_MAX.
Proof.
  intros Hfb. unfold parse_int_or. destruct (negb (nonempty s)); [ exact Hfb | ].
  unfold strtol10. destruct (read_sign _) as [sgn s2].
  destruct (nonempty _); [ apply clamp_long_range | exact Hfb ].
Qed.

Lemma normalize_jedec_jedec6 s :
  normalize_jedec s = [] \/ jedec6 (normalize_jedec s).
Proof.
  destruct (normalize_jedec_cases s) as [[H ->] | [H ->]]; [ | now left ].
  right. split.
  - rewrite length_firstn. lia.
  - apply Forall_firstn_keep, hex_digits_upper.
Qed.

Lemma In_load_rows ix max_rows bufs r : forall k,
  In r (load_rows ix max_rows k bufs) ->
  exists buf, In buf bufs /\ parse_row ix buf = Some r.
Proof.
  induction bufs as [ | buf bufs IH]; intros k; cbn [load_rows]; [ intros [] | ].
  destruct (negb (k <? max_rows)); [ intros [] | ].
  destruct (parse_row ix buf) as [r0 | ] eqn:E.
  - intros [<- | Hin].
    + exists buf. split; [ now left | exact E ].
    + destruct (IH _ Hin) as (b & Hb & Hp). exists b. split; [ now right | exact Hp ].
  - intros Hin. destruct (IH _ Hin) as (b & Hb & Hp).
    exists b. split; [ now right | exact Hp ].
Qed.

(** X22.  Every row that [load_database] stores fits the fields of
    [db_row_t]: the JEDEC is empty or six upper-case hexadecimal digits, the
    model has at most 63 characters, the company and the family at most 47,
    each without blanks around it, and the capacity is in the range of
    [int]. *)
Theorem loaded_rows_fit :
  forall db max_rows r,
    In r (load_database db max_rows) ->
    (jedec_norm r = [] \/ jedec6 (jedec_norm r))
    /\ (length (chip_model r) <= 63)%nat
    /\ (length (company r) <= 47)%nat
    /\ (length (family r) <= 47)%nat
    /\ trim (chip_model r) = chip_model r
    /\ trim (company r) = company r
    /\ trim (family r) = family r
    /\ LONG_MIN <= capacity_mbit r <= LONG_MAX.
Proof.
  intros db max_rows r Hin.
  assert (Hp : exists ix buf, parse_row ix buf = Some r).
  { destruct db as [f | ]; cbn [load_database] in Hin; [ | destruct Hin ].
    destruct (read_lines f) as [ | head bufs]; [ destruct Hin | ].
    destruct (In_load_rows _ _ _ _ _ Hin) as (buf & _ & Hb). eauto. }
  destruct Hp as (ix & buf & Hp). unfold parse_row in Hp.
  destruct (negb (nonempty (trim (c_str buf)))); [ discriminate | ].
  destruct (_ <=? 1)%nat; [ discriminate | ].
  injection Hp as <-.
  cbn [jedec_norm chip_model company family capacity_mbit].
  repeat split.
  - destruct (field_at _ (idx_jedec ix));
      [ apply normalize_jedec_jedec6 | now left ].
  - apply (text_field_length _ _ 64).
  - apply (text_field_length _ _ 48).
  - apply (text_field_length _ _ 48).
  - apply text_field_trimmed.
  - apply text_field_trimmed.
  - apply text_field_trimmed.
  - destruct (field_at _ (idx_capacity ix));
      [ apply parse_int_or_range | ]; unfold LONG_MIN, LONG_MAX; lia.
  - destruct (field_at _ (idx_capacity ix));
      [ apply parse_int_or_range | ]; unfold LONG_MIN, LONG_MAX; lia.
Qed.

Lemma loaded_rows_fit_witness :
  let r := mk_row (lit "BF2641") (lit "X") (lit "SST") [] (-1)
             (F32.of_Z 45) F32.f_m1 F32.f_m1
             (F32.of_ratio false 7 10) (F32.of_Z 5) in
  (length (chip_model r) <= 63)%nat /\ trim (company r) = company r.
Proof.
  intros r.
  destruct (loaded_rows_fit (Some sample_catalogue) 512 r)
    as (_ & H1 & _ & _ & _ & H2 & _).
  - vm_compute. left. reflexivity.
  - split; [ exact H1 | exact H2 ].
Defined.

Lemma all_rows_length ix bufs : (length (all_rows ix bufs) <= length bufs)%nat.
Proof.
  unfold all_rows. induction bufs as [ | buf bufs IH]; cbn [flat_map length];
    [ lia | ].
  rewrite length_app. destruct (parse_row ix buf); cbn [length]; lia.
Qed.

(** X23.  [load_database] stores at most [max_rows] rows and at most one
    row for each line after the header: a file that cannot be opened, an
    empty file and a file with its header only give no row. *)
Theorem load_database_count :
  forall db max_rows,
    (length (load_database db max_rows) <= Z.to_nat max_rows)%nat
    /\ (length (load_database db max_rows) <= db_lines db - 1)%nat.
Proof.
  intros db max_rows. rewrite load_database_firstn, length_firstn.
  split; [ lia | ].
  destruct db as [f | ]; cbn [catalogue_rows db_lines]; [ | simpl; lia ].
  destruct (read_lines f) as [ | head bufs]; [ simpl; lia | ].
  pose proof (all_rows_length (parse_header head) bufs).
  cbn [length]. lia.
Qed.

(** * The buffers of the reading loop *)

Lemma fatfs_gets_loop_length len : forall fp buf buf' rest,
  fatfs_gets_loop len fp buf = (buf', rest) ->
  (length buf <= len - 1 -> length buf' <= len - 1)%nat.
Proof.
  induction fp as [ | ch fp IH]; intros buf buf' rest H Hb;
    cbn [fatfs_gets_loop] in H.
  - injection H as <- _. exact Hb.
  - destruct (Nat.ltb_spec (length buf) (len - 1)) as [Hlt | Hge].
    + assert (Hb' : (length (buf ++ [ch]) <= len - 1)%nat)
        by (rewrite length_app; simpl; lia).
      destruct (Ascii.eqb ch LF).
      * injection H as <- _. exact Hb'.
      * exact (IH _ _ _ H Hb').
    + destruct (Ascii.eqb ch LF).
      * injection H as <- _. exact Hb.
      * exact (IH _ _ _ H Hb).
Qed.

Lemma read_lines_bounded_fuel fuel : forall fp,
  Forall (fun b => (1 <= length b <= Z.to_nat MAX_LINE - 1)%nat)
    (read_lines_fuel fuel fp).
Proof.
  induction fuel as [ | fuel IH]; intros fp; cbn [read_lines_fuel];
    [ constructor | ].
  destruct (fatfs_gets (Z.to_nat MAX_LINE) fp) as [[ok buf] rest] eqn:E.
  destruct ok; [ | constructor ].
  constructor; [ | apply IH ].
  unfold fatfs_gets in E.
  destruct (Z.to_nat MAX_LINE <=? 1)%nat; [ discriminate | ].
  destruct (fatfs_gets_loop _ fp []) as [b r] eqn:El.
  injection E as Hne <- <-.
  pose proof (fatfs_gets_loop_length _ _ _ _ _ El) as Hl.
  cbn [length] in Hl. split; [ | apply Hl; lia ].
  destruct b; [ discriminate | simpl; lia ].
Qed.

(** X24.  Every buffer that the reading loops get from [fatfs_gets] holds
    between 1 and 511 characters, so the 512-byte line buffer is never
    overrun, and the loops stop after at most one turn for each byte of the
    file. *)
Theorem read_lines_bounded :
  forall fp,
    Forall (fun b => (1 <= length b <= 511)%nat) (read_lines fp)
    /\ (length (read_lines fp) <= length fp)%nat.
Proof.
  intros fp. split; [ apply (read_lines_bounded_fuel (length fp) fp) | ].
  unfold read_lines. generalize (length fp) as fuel.
  intros fuel. revert fp.
  induction fuel as [ | fuel IH]; intros fp; cbn [read_lines_fuel length];
    [ lia | ].
  destruct (fatfs_gets _ fp) as [[[ | ] buf] rest]; cbn [length];
    [ specialize (IH rest); lia | lia ].
Qed.
(** * Letter case in the header of the catalogue *)

Lemma toupper_marks c m : In m marks -> Ascii.eqb (toupper c) m = Ascii.eqb c m.
Proof.
  intros Hm. simpl in Hm.
  destruct Hm as [<- | [<- | [<- | [<- | [<- | [<- | []]]]]]];
    destruct c as [[ | ] [ | ] [ | ] [ | ] [ | ] [ | ] [ | ] [ | ]];
    reflexivity.
Qed.

Lemma case_map_marks f c m :
  case_map f -> In m marks -> Ascii.eqb (f c) m = Ascii.eqb c m.
Proof.
  intros Hf Hm. rewrite <- (toupper_marks (f c) m Hm), Hf.
  now apply toupper_marks.
Qed.

Lemma case_map_toupper : case_map toupper.
Proof. intros c. apply toupper_idempotent. Qed.

Lemma case_map_tolower : case_map tolower.
Proof.
  intros c. destruct c as [[ | ] [ | ] [ | ] [ | ] [ | ] [ | ] [ | ] [ | ]];
    reflexivity.
Qed.

Section CaseMap.

Variable f : ascii -> ascii.
Hypothesis Hf : case_map f.

Lemma c_str_map s : c_str (map f s) = map f (c_str s).
Proof.
  induction s as [ | c s IH]; [ reflexivity | ]. cbn [map c_str].
  rewrite (case_map_marks f c NUL Hf) by (simpl; tauto).
  destruct (Ascii.eqb c NUL); [ reflexivity | ]. cbn [map]. now rewrite IH.
Qed.

Lemma drop_while_map p s :
  (forall c, p (f c) = p c) ->
  drop_while p (map f s) = map f (drop_while p s).
Proof.
  intros Hp. induction s as [ | c s IH]; [ reflexivity | ].
  cbn [map drop_while]. rewrite Hp. destruct (p c); [ exact IH | reflexivity ].
Qed.

Lemma trim_chars_map c :
  trim_tail_char (f c) = trim_tail_char c
  /\ trim_head_char (f c) = trim_head_char c.
Proof.
  unfold trim_tail_char, trim_head_char.
  rewrite (case_map_marks f c CR Hf), (case_map_marks f c LF Hf),
    (case_map_marks f c SP Hf), (case_map_marks f c TAB Hf)
    by (simpl; tauto).
  split; reflexivity.
Qed.

Lemma trim_map s : trim (map f s) = map f (trim s).
Proof.
  unfold trim. rewrite <- map_rev.
  rewrite drop_while_map by (intros c; apply trim_chars_map).
  rewrite <- map_rev.
  now rewrite drop_while_map by (intros c; apply trim_chars_map).
Qed.

Lemma strncpy_z_map k s : strncpy_z k (map f s) = map f (strncpy_z k s).
Proof. unfold strncpy_z. apply firstn_map. Qed.

Lemma upper_str_map s : upper_str (map f s) = upper_str s.
Proof.
  unfold upper_str. rewrite map_map. apply map_ext. exact Hf.
Qed.

Lemma strchr_map s m : In m marks -> strchr (map f s) m = strchr s m.
Proof.
  intros Hm. unfold strchr. induction s as [ | c s IH]; [ reflexivity | ].
  cbn [map existsb]. rewrite IH. f_equal.
  rewrite (Ascii.eqb_sym m (f c)), (Ascii.eqb_sym m c).
  now apply case_map_marks.
Qed.

Lemma fields_map sep s :
  In sep marks -> fields sep (map f s) = map (map f) (fields sep s).
Proof.
  intros Hm. induction s as [ | c s IH]; [ reflexivity | ].
  cbn [map fields]. rewrite (case_map_marks f c sep Hf Hm), IH.
  destruct (Ascii.eqb c sep); [ reflexivity | ].
  destruct (fields sep s); reflexivity.
Qed.

Lemma strtok_all_map sep s :
  In sep marks -> strtok_all sep (map f s) = map (map f) (strtok_all sep s).
Proof.
  intros Hm. unfold strtok_all. rewrite (fields_map sep s Hm).
  induction (fields sep s) as [ | x l IH]; [ reflexivity | ].
  cbn [map filter]. destruct x; cbn [map nonempty]; [ exact IH | ].
  cbn [map]. now rewrite IH.
Qed.

Lemma split_fields_map line k :
  split_fields (map f line) k = map (map f) (split_fields line k).
Proof.
  unfold split_fields.
  rewrite (strchr_map line ","%char) by (simpl; tauto).
  destruct (strchr line ","%char);
    rewrite strtok_all_map by (simpl; tauto); apply firstn_map.
Qed.

Lemma header_step_map ix i col :
  header_step ix i (map f col) = header_step ix i col.
Proof.
  unfold header_step. now rewrite strncpy_z_map, trim_map, upper_str_map.
Qed.

Lemma header_loop_map cols : forall ix i,
  header_loop ix i (map (map f) cols) = header_loop ix i cols.
Proof.
  induction cols as [ | col cols IH]; intros ix i; [ reflexivity | ].
  cbn [map header_loop]. now rewrite header_step_map, IH.
Qed.

Lemma parse_header_map buf : parse_header (map f buf) = parse_header buf.
Proof.
  unfold parse_header.
  rewrite c_str_map, trim_map, strncpy_z_map, split_fields_map.
  apply header_loop_map.
Qed.

Lemma no_lf_map l : no_lf l -> no_lf (map f l).
Proof.
  unfold no_lf. intros H Hin. apply in_map_iff in Hin as (c & E & Hc).
  assert (Hb : Ascii.eqb (f c) LF = true) by (apply Ascii.eqb_eq; exact E).
  rewrite (case_map_marks f c LF Hf) in Hb by (simpl; tauto).
  apply Ascii.eqb_eq in Hb. subst c. now apply H.
Qed.

Lemma buf_of_map l : buf_of (map f l) = map f (buf_of l).
Proof.
  unfold buf_of. rewrite <- firstn_map, map_app. cbn [map].
  assert (E : f LF = LF).
  { apply Ascii.eqb_eq. rewrite (case_map_marks f LF LF Hf) by (simpl; tauto).
    apply Ascii.eqb_refl. }
  now rewrite E.
Qed.

End CaseMap.

Lemma read_lines_first l rest :
  no_lf l -> read_lines (l ++ LF :: rest) = buf_of l :: read_lines rest.
Proof.
  intros Hl. rewrite read_lines_unfold. now rewrite fatfs_gets_line.
Qed.

(** X25.  The names of the columns of datasheet.csv are recognised
    whatever their letter case: a catalogue whose header line is put in
    upper or in lower case gives the same rows. *)
Theorem catalogue_header_case_insensitive :
  forall header rest max_rows,
    no_lf header ->
    load_database (Some (map toupper header ++ LF :: rest)) max_rows
    = load_database (Some (header ++ LF :: rest)) max_rows
    /\ load_database (Some (map tolower header ++ LF :: rest)) max_rows
       = load_database (Some (header ++ LF :: rest)) max_rows.
Proof.
  intros header rest max_rows Hl. unfold load_database.
  rewrite (read_lines_first (map toupper header) rest
             (no_lf_map toupper case_map_toupper header Hl)).
  rewrite (read_lines_first (map tolower header) rest
             (no_lf_map tolower case_map_tolower header Hl)).
  rewrite (read_lines_first header rest Hl).
  rewrite (buf_of_map toupper case_map_toupper),
    (buf_of_map tolower case_map_tolower).
  now rewrite (parse_header_map toupper case_map_toupper),
    (parse_header_map tolower case_map_tolower).
Qed.

Lemma catalogue_header_case_insensitive_witness :
  load_database
    (Some (map toupper (lit "Chip_Model,Jedec ID,Typ_4KB") ++ LF
           :: lit "X,BF 26 41,45" ++ [LF])) 512
  = load_database
      (Some (lit "Chip_Model,Jedec ID,Typ_4KB" ++ LF
             :: lit "X,BF 26 41,45" ++ [LF])) 512.
Proof.
  apply (catalogue_header_case_insensitive (lit "Chip_Model,Jedec ID,Typ_4KB")
           (lit "X,BF 26 41,45" ++ [LF]) 512).
  apply no_lf_check. reflexivity.
Defined.

(** * Decimal numbers *)

Lemma lit_String c s : lit (String c s) = c :: lit s.
Proof. reflexivity. Qed.

Lemma uint_digits d :
  Forall (fun c => isdigit c = true) (lit (NilEmpty.string_of_uint d)).
Proof.
  induction d; cbn [NilEmpty.string_of_uint]; rewrite ?lit_String;
    constructor; try reflexivity; assumption.
Qed.

Lemma uint_digits_val d : forall acc,
  fold_left (fun a c => 10 * a + digit_val c)
    (lit (NilEmpty.string_of_uint d)) acc
  = acc * 10 ^ Z.of_N (DecimalPos.Unsigned.usize d)
    + Z.of_N (DecimalPos.Unsigned.of_lu (Decimal.rev d)).
Proof.
  induction d; intros acc;
    cbn [NilEmpty.string_of_uint DecimalPos.Unsigned.usize];
    rewrite ?lit_String; cbn [fold_left];
    [ cbn; lia | .. ];
    match goal with
    | |- context [Decimal.rev (?D d)] =>
        change (Decimal.rev (D d)) with (Decimal.revapp d (D Decimal.Nil));
        rewrite (DecimalPos.Unsigned.of_lu_revapp d (D Decimal.Nil))
    end;
    rewrite IHd, N2Z.inj_succ, Z.pow_succ_r by lia;
    rewrite N2Z.inj_add, N2Z.inj_mul, N2Z.inj_pow;
    match goal with
    | |- context [digit_val ?c] =>
        let v := eval vm_compute in (digit_val c) in
        change (digit_val c) with v
    end;
    match goal with
    | |- context [Z.of_N (DecimalPos.Unsigned.of_lu ?x) * _] =>
        let v := eval vm_compute in (Z.of_N (DecimalPos.Unsigned.of_lu x)) in
        change (Z.of_N (DecimalPos.Unsigned.of_lu x)) with v
    end;
    change (Z.of_N 10) with 10; ring.
Qed.

Lemma take_while_all p s :
  Forall (fun c => p c = true) s -> take_while p s = s.
Proof.
  induction 1 as [ | c s Hc _ IH]; [ reflexivity | ].
  cbn [take_while]. now rewrite Hc, IH.
Qed.

Lemma pos_digits p :
  let s := lit (NilEmpty.string_of_uint (Pos.to_uint p)) in
  s <> [] /\ Forall (fun c => isdigit c = true) s
  /\ digits_val 10 s = Zpos p.
Proof.
  cbv zeta. repeat split.
  - pose proof (DecimalPos.Unsigned.to_uint_nonnil p) as Hn.
    destruct (Pos.to_uint p); [ contradiction | discriminate .. ].
  - apply uint_digits.
  - unfold digits_val. rewrite uint_digits_val.
    rewrite <- DecimalPos.Unsigned.of_uint_alt, DecimalPos.Unsigned.of_to.
    cbn [Z.of_N]. lia.
Qed.

Lemma digit_not_space_sign c :
  isdigit c = true ->
  isspace c = false /\ Ascii.eqb c "-" = false /\ Ascii.eqb c "+" = false.
Proof.
  destruct c as [[ | ] [ | ] [ | ] [ | ] [ | ] [ | ] [ | ] [ | ]];
    try discriminate; intros _; repeat split; reflexivity.
Qed.

Lemma strtol10_digits s :
  s <> [] -> Forall (fun c => isdigit c = true) s ->
  strtol10 s = Some (clamp_long (digits_val 10 s))
  /\ strtol10 ("-"%char :: s) = Some (clamp_long (- digits_val 10 s)).
Proof.
  intros Hne Hd. destruct s as [ | c s]; [ contradiction | ].
  pose proof Hd as Hd'. inversion Hd'; subst.
  destruct (digit_not_space_sign c) as (Hs & Hm & Hp); [ assumption | ].
  unfold strtol10. cbn [drop_while]. rewrite Hs.
  change (isspace "-") with false. cbv iota. unfold read_sign.
  rewrite Hm, Hp, Ascii.eqb_refl.
  rewrite (take_while_all isdigit (c :: s) Hd). split; reflexivity.
Qed.

(** X26.  A number written by [%d] is read back by [parse_int_or]: for
    every value in the range of [int], parsing its decimal text gives the
    value, whatever the fallback. *)
Theorem parse_int_or_reads_decimal :
  forall v fallback,
    LONG_MIN <= v <= LONG_MAX ->
    parse_int_or (dec_of_Z v) fallback = v.
Proof.
  intros v fallback Hv. unfold LONG_MIN, LONG_MAX in Hv.
  destruct v as [ | p | p].
  - reflexivity.
  - destruct (pos_digits p) as (Hne & Hd & Hval). cbv zeta in *.
    unfold dec_of_Z. cbn [Z.to_int NilZero.string_of_int].
    assert (E : NilZero.string_of_uint (Pos.to_uint p)
                = NilEmpty.string_of_uint (Pos.to_uint p)).
    { pose proof (DecimalPos.Unsigned.to_uint_nonnil p) as Hn.
      destruct (Pos.to_uint p); [ contradiction | reflexivity .. ]. }
    rewrite E. unfold parse_int_or.
    destruct (lit (NilEmpty.string_of_uint (Pos.to_uint p))) as [ | c s] eqn:Es;
      [ contradiction | ].
    cbn [nonempty negb].
    destruct (strtol10_digits (c :: s) Hne Hd) as [-> _].
    rewrite Hval. unfold clamp_long, LONG_MIN, LONG_MAX.
    destruct (Z.ltb_spec (Z.pos p) (-2147483648)); [ lia | ].
    destruct (Z.ltb_spec 2147483647 (Z.pos p)); [ lia | reflexivity ].
  - destruct (pos_digits p) as (Hne & Hd & Hval). cbv zeta in *.
    unfold dec_of_Z. cbn [Z.to_int NilZero.string_of_int].
    assert (E : NilZero.string_of_uint (Pos.to_uint p)
                = NilEmpty.string_of_uint (Pos.to_uint p)).
    { pose proof (DecimalPos.Unsigned.to_uint_nonnil p) as Hn.
      destruct (Pos.to_uint p); [ contradiction | reflexivity .. ]. }
    rewrite E, lit_String. unfold parse_int_or. cbn [nonempty negb].
    destruct (strtol10_digits _ Hne Hd) as [_ ->].
    rewrite Hval. unfold clamp_long, LONG_MIN, LONG_MAX.
    destruct (Z.ltb_spec (- Z.pos p) (-2147483648)); [ lia | ].
    destruct (Z.ltb_spec 2147483647 (- Z.pos p)); [ lia | reflexivity ].
Qed.

Lemma parse_int_or_reads_decimal_witness :
  parse_int_or (lit "65536") 0 = 65536.
Proof.
  apply (parse_int_or_reads_decimal 65536 0). unfold LONG_MIN, LONG_MAX. lia.
Defined.

(** * The WHOLE group *)

Lemma classify_group_no_capacity bytes :
  classify_group bytes 0 <> Some G_WHOLE.
Proof.
  unfold classify_group.
  repeat match goal with
         | |- context [bytes =? ?k] =>
             destruct (bytes =? k) eqn:?; [ discriminate | ]
         end.
  discriminate.
Qed.

Lemma collect_line_no_capacity V buf :
  bucket_empty V G_WHOLE -> bucket_empty (collect_line 0 V buf) G_WHOLE.
Proof.
  intros HV. unfold collect_line, collect_sample.
  destruct (negb (nonempty (trim (c_str buf)))); [ exact HV | ].
  destruct (_ <? 6)%nat; [ exact HV | ].
  destruct (classify_group _ 0) as [g | ] eqn:Hg; [ | exact HV ].
  assert (Hne : G_WHOLE <> g).
  { intros <-. exact (classify_group_no_capacity _ Hg). }
  destruct HV as (H1 & H2 & H3 & H4 & H5).
  split_ifs; unfold bucket_empty;
    cbn [v_read v_write v_erase v_read_us v_read_lat_ms];
    rewrite ?(vec_push_other _ _ _ _ Hne); auto.
Qed.

Lemma collect_vecs_no_capacity f : bucket_empty (collect_vecs 0 f) G_WHOLE.
Proof.
  unfold collect_vecs.
  assert (H0 : bucket_empty vecs_init G_WHOLE) by (repeat split).
  revert H0. generalize vecs_init.
  induction (read_lines f) as [ | b l IH]; intros V HV; cbn [fold_left];
    [ exact HV | ].
  apply IH. now apply collect_line_no_capacity.
Qed.

(** X27.  Without a capacity (no catalogue row matches the JEDEC of the
    device, or the row has no positive capacity) no sample is counted as
    WHOLE: in the three columns the n_WHOLE, db_mean_WHOLE and
    possible_chips_WHOLE cells are NA, for every results file. *)
Theorem whole_group_needs_capacity :
  forall inp c,
    inputs_capacity inp = 0 ->
    report_cell (n_title G_WHOLE) c (report_generate_csv inp) = Some NA_STR
    /\ report_cell (db_mean_title G_WHOLE) c (report_generate_csv inp)
       = Some NA_STR
    /\ report_cell (possible_chips_title G_WHOLE) c (report_generate_csv inp)
       = Some NA_STR.
Proof.
  intros inp c Hcap. rewrite report_generate_csv_unfold.
  assert (Hn : n (read_s (inputs_agg inp) G_WHOLE) = 0
               /\ n (write_s (inputs_agg inp) G_WHOLE) = 0
               /\ n (erase_s (inputs_agg inp) G_WHOLE) = 0
               /\ n (read_lat_ms (inputs_agg inp) G_WHOLE) = 0).
  { unfold inputs_agg. rewrite Hcap. unfold collect_aggregates.
    destruct (in_results inp) as [f | ]; [ | repeat split ].
    destruct (collect_vecs_no_capacity f) as (H1 & H2 & H3 & H4 & H5).
    cbn [read_s write_s erase_s read_lat_ms]. now rewrite H1, H2, H3, H5. }
  destruct Hn as (Hr & Hw & He & Hl).
  assert (Hdb : column_db_mean
                  (compute_db_means_closest (inputs_rows inp) (inputs_agg inp)
                     (inputs_capacity inp)) c G_WHOLE = F32.NAN).
  { destruct c; cbn [column_db_mean compute_db_means_closest db_read db_write
                       db_erase].
    - unfold db_read_cell. rewrite Hr. now destruct (F32.gt _ _).
    - unfold db_write_cell. now rewrite Hw.
    - unfold db_erase_cell. now rewrite He. }
  repeat split.
  - rewrite report_cell_n. destruct c; cbn [column_stats];
      rewrite ?Hl, ?Hw, ?He; reflexivity.
  - rewrite report_cell_db_mean, Hdb. reflexivity.
  - rewrite report_cell_possible_chips. cbv zeta.
    rewrite poss_cells_no_value; [ reflexivity | ].
    destruct c; exact Hdb.
Qed.

Lemma whole_group_needs_capacity_witness :
  inputs_capacity inputs_no_capacity = 0
  /\ n (erase_s (inputs_agg inputs_no_capacity) G_4K) = 1
  /\ report_cell (n_title G_4K) ColErase
       (report_generate_csv inputs_no_capacity) = Some (lit "1")
  /\ report_cell (n_title G_WHOLE) ColErase
       (report_generate_csv inputs_no_capacity) = Some NA_STR
  /\ report_cell (db_mean_title G_WHOLE) ColErase
       (report_generate_csv inputs_no_capacity) = Some NA_STR
  /\ report_cell (possible_chips_title G_WHOLE) ColErase
       (report_generate_csv inputs_no_capacity) = Some NA_STR.
Proof.
  split; [ vm_compute; reflexivity | ].
  split; [ vm_compute; reflexivity | ].
  split; [ vm_compute; reflexivity | ].
  apply (whole_group_needs_capacity inputs_no_capacity ColErase).
  vm_compute. reflexivity.
Defined.

(** * Records that are skipped, files that are joined *)

Lemma collect_sample_skipped cap V r :
  record_skipped cap r = true ->
  collect_sample cap V (nth 1 r []) (nth 2 r []) (nth 4 r []) = V.
Proof.
  unfold record_skipped, known_op, collect_sample. intros H.
  destruct (classify_group _ cap) as [g | ]; [ | reflexivity ].
  rewrite orb_false_r in H.
  destruct (F32.gt (parse_float_or (nth 4 r []) F32.f_m1) F32.zero);
    cbn [negb andb] in *.
  - rewrite orb_false_r in H. apply negb_true_iff in H.
    repeat (apply orb_false_iff in H; destruct H as [H ?]).
    repeat match goal with
           | E : cstr_eqb _ _ = false |- _ => rewrite E; clear E
           end.
    reflexivity.
  - split_ifs; reflexivity.
Qed.

Lemma collect_line_skipped cap V l :
  line_skipped cap l = true -> collect_line cap V (buf_of l) = V.
Proof.
  unfold line_skipped. intros H. rewrite collect_line_fields.
  destruct (length (buf_fields (buf_of l)) <? 6)%nat; [ reflexivity | ].
  cbn [orb] in H. now apply collect_sample_skipped.
Qed.

Lemma stream_of_app l1 l2 : stream_of (l1 ++ l2) = stream_of l1 ++ stream_of l2.
Proof. unfold stream_of. apply flat_map_app. Qed.

(** the buffers read from a stream of lines followed by any bytes *)
Lemma read_lines_stream_app lines rest :
  Forall no_lf lines ->
  read_lines (stream_of lines ++ rest) = map buf_of lines ++ read_lines rest.
Proof.
  induction 1 as [ | l lines Hl _ IH]; [ reflexivity | ].
  unfold stream_of. cbn [flat_map]. rewrite <- !app_assoc.
  change ([LF] ++ ?r) with (LF :: r).
  rewrite read_lines_first by assumption.
  fold (stream_of lines). now rewrite IH.
Qed.

(** X29.  A line that the reading loop passes over changes nothing, wherever
    it stands in RESULTS.CSV and whatever the other lines hold: the
    aggregates are those of the file without it.  Such are the lines of
    fewer than six fields and the records whose operation is none of read,
    program, write and erase, whose size is none of the groups, or whose
    elapsed time is not a positive number; the header line that the logger
    writes is one of them, for every capacity. *)
Theorem skipped_record_changes_nothing :
  forall baud cap,
    (forall lines1 l rest,
        Forall no_lf lines1 -> no_lf l -> line_skipped cap l = true ->
        collect_aggregates baud cap
          (Some (stream_of lines1 ++ l ++ LF :: rest))
        = collect_aggregates baud cap (Some (stream_of lines1 ++ rest)))
    /\ (forall r,
           record_ok r = true -> record_skipped cap r = true ->
           no_lf (csv_line r) /\ line_skipped cap (csv_line r) = true)
    /\ record_ok rec_header = true
    /\ record_skipped cap rec_header = true.
Proof.
  intros baud cap. split; [ | split; [ | split; reflexivity ] ].
  - intros lines1 l rest H1 Hl Hsk.
    assert (HV : collect_vecs cap (stream_of lines1 ++ l ++ LF :: rest)
                 = collect_vecs cap (stream_of lines1 ++ rest)).
    { unfold collect_vecs. rewrite !read_lines_stream_app by assumption.
      rewrite read_lines_first by assumption.
      rewrite !fold_left_app. cbn [fold_left].
      now rewrite collect_line_skipped. }
    unfold collect_aggregates. now rewrite HV.
  - intros r Hok Hsk. split; [ now apply record_ok_no_lf | ].
    unfold line_skipped.
    destruct (buf_fields_record r Hok) as (H6 & E1 & E2 & E4).
    apply Nat.ltb_ge in H6. rewrite H6. cbn [orb].
    unfold record_skipped in *. now rewrite E1, E2, E4.
Qed.

Lemma skipped_record_changes_nothing_witness :
  collect_aggregates 10000000 0
    (Some (stream_of [csv_line rec_header; csv_line rec_logged]
           ++ csv_line rec_logged_zero
           ++ LF :: stream_of [csv_line rec_logged_other]))
  = collect_aggregates 10000000 0
      (Some (stream_of [csv_line rec_header; csv_line rec_logged]
             ++ stream_of [csv_line rec_logged_other]))
  /\ n (erase_s
          (collect_aggregates 10000000 0
             (Some (stream_of [csv_line rec_header; csv_line rec_logged]
                    ++ csv_line rec_logged_zero
                    ++ LF :: stream_of [csv_line rec_logged_other])))
          G_4K) = 2.
Proof.
  split; [ | vm_compute; reflexivity ].
  apply (proj1 (skipped_record_changes_nothing 10000000 0)
           [csv_line rec_header; csv_line rec_logged]
           (csv_line rec_logged_zero)
           (stream_of [csv_line rec_logged_other])).
  - repeat constructor; apply no_lf_check; vm_compute; reflexivity.
  - apply no_lf_check; vm_compute; reflexivity.
  - vm_compute. reflexivity.
Defined.

(** a file that ends with a line feed is a stream of lines *)
Lemma lines_of_file f :
  exists lines, Forall no_lf lines /\ f ++ [LF] = stream_of lines.
Proof.
  induction f as [ | c f (lines & Hl & E)].
  - exists [[]]. split; [ repeat constructor; intros [] | reflexivity ].
  - destruct lines as [ | l lines].
    { destruct f; discriminate E. }
    destruct (Ascii.eqb_spec c LF) as [-> | Hc].
    + exists ([] :: l :: lines). split.
      * constructor; [ intros [] | assumption ].
      * cbn [app]. rewrite E. reflexivity.
    + exists ((c :: l) :: lines). split.
      * inversion Hl; subst. constructor; [ | assumption ].
        intros [Hin | Hin]; [ now apply Hc | contradiction ].
      * cbn [app]. rewrite E. reflexivity.
Qed.

Lemma whole_lines_stream f :
  whole_lines f = true -> exists lines, Forall no_lf lines /\ f = stream_of lines.
Proof.
  unfold whole_lines. intros H.
  destruct (rev f) as [ | c x] eqn:E.
  - exists []. split; [ constructor | ].
    rewrite <- (rev_involutive f), E. reflexivity.
  - apply Ascii.eqb_eq in H. subst c.
    destruct (lines_of_file (rev x)) as (lines & Hl & El).
    exists lines. split; [ assumption | ].
    rewrite <- El, <- (rev_involutive f), E. reflexivity.
Qed.

(** X30.  The aggregation of a results file made of two files, one after
    the other, the first empty or ended by a line feed, counts in every
    bucket the samples of the first and those of the second: each [n] is the
    sum of the two. *)
Theorem counts_of_joined_files :
  forall baud cap f1 f2 g,
    whole_lines f1 = true ->
    let A1 := collect_aggregates baud cap (Some f1) in
    let A2 := collect_aggregates baud cap (Some f2) in
    let A := collect_aggregates baud cap (Some (f1 ++ f2)) in
    n (read_s A g) = n (read_s A1 g) + n (read_s A2 g)
    /\ n (write_s A g) = n (write_s A1 g) + n (write_s A2 g)
    /\ n (erase_s A g) = n (erase_s A1 g) + n (erase_s A2 g)
    /\ n (read_lat_ms A g) = n (read_lat_ms A1 g) + n (read_lat_ms A2 g).
Proof.
  intros baud cap f1 f2 g Hw A1 A2 A. subst A1 A2 A.
  destruct (whole_lines_stream f1 Hw) as (lines & Hl & ->).
  assert (EV : collect_vecs cap (stream_of lines ++ f2)
               = fold_left (collect_line cap) (read_lines f2)
                   (collect_vecs cap (stream_of lines))).
  { unfold collect_vecs.
    rewrite read_lines_stream_app, read_lines_stream by assumption.
    apply fold_left_app. }
  destruct (collect_fold_app cap (read_lines f2) g
              (collect_vecs cap (stream_of lines))) as (R & W & X & _ & L).
  destruct (collect_fold_app cap (read_lines f2) g vecs_init)
    as (R2 & W2 & X2 & _ & L2).
  cbv zeta in *. rewrite <- EV in R, W, X, L.
  fold (collect_vecs cap f2) in R2, W2, X2, L2.
  cbn [vecs_init v_read v_write v_erase v_read_lat_ms app] in R2, W2, X2, L2.
  unfold collect_aggregates. cbn [read_s write_s erase_s read_lat_ms].
  rewrite !calc_stats_n, R, W, X, L, R2, W2, X2, L2, !length_app. lia.
Qed.

Lemma counts_of_joined_files_witness :
  n (erase_s (collect_aggregates 10000000 0
                (Some (stream_of lines_long_first ++ erase_short))) G_4K)
  = n (erase_s (collect_aggregates 10000000 0
                  (Some (stream_of lines_long_first))) G_4K)
    + n (erase_s (collect_aggregates 10000000 0 (Some erase_short)) G_4K)
  /\ n (erase_s (collect_aggregates 10000000 0
                   (Some (stream_of lines_long_first))) G_4K) = 3
  /\ n (erase_s (collect_aggregates 10000000 0 (Some erase_short)) G_4K) = 1.
Proof.
  split; [ | split; vm_compute; reflexivity ].
  refine (proj1 (proj2 (proj2
    (counts_of_joined_files 10000000 0 (stream_of lines_long_first)
       erase_short G_4K _)))).
  vm_compute. reflexivity.
Defined.

(** without the line feed at the end of the first file, its last line and
    the first line of the second file are read as one: two files of one
    sample each give one sample *)
Example joined_without_line_feed :
  whole_lines erase_short = false
  /\ n (erase_s (collect_aggregates 10000000 0 (Some erase_short)) G_4K) = 1
  /\ n (erase_s (collect_aggregates 10000000 0
                   (Some (erase_short ++ [LF]))) G_4K) = 1
  /\ n (erase_s (collect_aggregates 10000000 0
                   (Some (erase_short ++ erase_short ++ [LF]))) G_4K) = 1.
Proof. repeat split; vm_compute; reflexivity. Qed.
